(** * pack-files: a shallow embedding of [main.go] and its specification

    The program walks a directory tree, keeps the files whose extension
    passes an include/exclude filter, and writes three reports: a tree of
    the kept files, their concatenated contents, and a statistics summary.

    Go strings are byte sequences: they are modelled by [string] (a list of
    8-bit [ascii] characters); a literal holds the UTF-8 bytes of its text,
    as in Go.  The standard-library functions the program calls are
    modelled next to their callers, from the Go 1.24 sources (the version
    the repository's Dockerfile builds with, on linux). *)

From Stdlib Require Import ZArith Ascii String List Lia Bool.

From Stdlib Require Import SpecFloat DecimalString.

From stdpp Require Import base tactics option list sorting gmap strings.

Local Open Scope Z_scope.

(** ** Go strings *)

Module GoString.

(** A byte as a number, [len(s)], [s[i:]] ([tail_from]), [s[:j]]
    ([head_to]) and [s[i:j]] ([slice]). *)
Definition byte (c : ascii) : Z := Z.of_N (N_of_ascii c).

Definition of_byte (b : Z) : ascii := ascii_of_N (Z.to_N b).

Fixpoint len (s : string) : nat :=
  match s with
  | EmptyString => O
  | String _ t => S (len t)
  end.

Fixpoint tail_from (n : nat) (s : string) : string :=
  match n, s with
  | O, _ => s
  | S _, EmptyString => EmptyString
  | S k, String _ t => tail_from k t
  end.

Fixpoint head_to (n : nat) (s : string) : string :=
  match n, s with
  | O, _ => EmptyString
  | S _, EmptyString => EmptyString
  | S k, String c t => String c (head_to k t)
  end.

Definition slice (s : string) (i j : nat) : string := head_to (j - i) (tail_from i s).

(** [s[i]] for an index within the string ([0] outside, where Go panics;
    no caller below indexes out of range). *)
Definition at_ (s : string) (i : nat) : Z :=
  match tail_from i s with
  | EmptyString => 0
  | String c _ => byte c
  end.

Definition is_empty (s : string) : bool :=
  match s with EmptyString => true | _ => false end.

(** [strings.Repeat]. *)
Fixpoint Repeat (s : string) (count : nat) : string :=
  match count with
  | O => EmptyString
  | S k => s +:+ Repeat s k
  end.

(** [strings.HasPrefix]. *)
Fixpoint HasPrefix (s prefix : string) {struct prefix} : bool :=
  match prefix, s with
  | EmptyString, _ => true
  | String _ _, EmptyString => false
  | String p ps, String c cs => if Ascii.eqb c p then HasPrefix cs ps else false
  end.

Definition newline : string := String (of_byte 10) EmptyString.

End GoString.

Import GoString.

(** ** unicode/utf8 *)

Module utf8.

Definition RuneError : Z := 0xFFFD.

Definition RuneSelf : Z := 0x80.

Definition UTFMax : Z := 4.

(** The table [first]: information about the first byte of an encoding.
    [0xF0] is ASCII, [0xF1] is an invalid first byte, otherwise the low
    three bits are the size and the high four bits index [acceptRanges]. *)
Definition first (b : Z) : Z :=
  if b <? 0x80 then 0xF0
  else if b <? 0xC2 then 0xF1
  else if b <? 0xE0 then 0x02
  else if b =? 0xE0 then 0x13
  else if b <? 0xED then 0x03
  else if b =? 0xED then 0x23
  else if b <? 0xF0 then 0x03
  else if b =? 0xF0 then 0x34
  else if b <? 0xF4 then 0x04
  else if b =? 0xF4 then 0x44
  else 0xF1.

(** [acceptRanges]: the range the second byte must lie in. *)
Definition acceptRanges (i : Z) : Z * Z :=
  if i =? 0 then (0x80, 0xBF)
  else if i =? 1 then (0xA0, 0xBF)
  else if i =? 2 then (0x80, 0x9F)
  else if i =? 3 then (0x90, 0xBF)
  else if i =? 4 then (0x80, 0x8F)
  else (0, 0).

Definition locb : Z := 0x80.

Definition hicb : Z := 0xBF.

(** [utf8.DecodeRuneInString]: the first rune of [s] and its width in
    bytes; [(RuneError, 0)] for the empty string, [(RuneError, 1)] for an
    invalid encoding. *)
Definition DecodeRuneInString (s : string) : Z * nat :=
  match s with
  | EmptyString => (RuneError, O)
  | String c0 t0 =>
    let s0 := byte c0 in
    let x := first s0 in
    if 0xF0 <=? x then ((if x =? 0xF1 then RuneError else s0), 1%nat)
    else
      let sz := Z.land x 7 in
      let accept := acceptRanges (Z.shiftr x 4) in
      if Z.of_nat (len s) <? sz then (RuneError, 1%nat)
      else
        match t0 with
        | EmptyString => (RuneError, 1%nat)
        | String c1 t1 =>
          let s1 := byte c1 in
          if (s1 <? fst accept) || (snd accept <? s1) then (RuneError, 1%nat)
          else if sz <=? 2 then
            (Z.lor (Z.shiftl (Z.land s0 0x1F) 6) (Z.land s1 0x3F), 2%nat)
          else
            match t1 with
            | EmptyString => (RuneError, 1%nat)
            | String c2 t2 =>
              let s2 := byte c2 in
              if (s2 <? locb) || (hicb <? s2) then (RuneError, 1%nat)
              else if sz <=? 3 then
                (Z.lor (Z.lor (Z.shiftl (Z.land s0 0x0F) 12)
                              (Z.shiftl (Z.land s1 0x3F) 6))
                       (Z.land s2 0x3F), 3%nat)
              else
                match t2 with
                | EmptyString => (RuneError, 1%nat)
                | String c3 _ =>
                  let s3 := byte c3 in
                  if (s3 <? locb) || (hicb <? s3) then (RuneError, 1%nat)
                  else
                    (Z.lor (Z.lor (Z.lor (Z.shiftl (Z.land s0 0x07) 18)
                                         (Z.shiftl (Z.land s1 0x3F) 12))
                                  (Z.shiftl (Z.land s2 0x3F) 6))
                           (Z.land s3 0x3F), 4%nat)
                end
            end
        end
  end.

(** [utf8.RuneStart]: the byte is not a continuation byte. *)
Definition RuneStart (b : Z) : bool := negb (Z.land b 0xC0 =? 0x80).

(** The backwards search of [DecodeLastRuneInString]:
    [for start--; start >= lim; start-- { if RuneStart(s[start]) { break } }],
    entered after the [start--] of its init statement. *)
Fixpoint back_to_start (fuel : nat) (s : string) (start lim : Z) : Z :=
  match fuel with
  | O => start
  | S k =>
    if start <? lim then start
    else if RuneStart (at_ s (Z.to_nat start)) then start
    else back_to_start k s (start - 1) lim
  end.

(** [utf8.DecodeLastRuneInString]: the last rune of [s] and its width. *)
Definition DecodeLastRuneInString (s : string) : Z * nat :=
  let end_ := Z.of_nat (len s) in
  if end_ =? 0 then (RuneError, O)
  else
    let start := end_ - 1 in
    let r := at_ s (Z.to_nat start) in
    if r <? RuneSelf then (r, 1%nat)
    else
      let lim := Z.max 0 (end_ - UTFMax) in
      let start := back_to_start (Z.to_nat (start - lim + 1)) s (start - 1) lim in
      let start := Z.max 0 start in
      let '(r, size) :=
        DecodeRuneInString (slice s (Z.to_nat start) (Z.to_nat end_)) in
      if start + Z.of_nat size =? end_ then (r, size) else (RuneError, 1%nat).

(** [for i, r := range s]: the byte offset and the value of every rune of
    [s], decoded front to back.  [skip] counts the bytes of the rune
    decoded last that are still to be passed over. *)
Fixpoint range_from (i skip : nat) (s : string) : list (nat * Z) :=
  match s with
  | EmptyString => []
  | String _ t =>
    match skip with
    | S k => range_from (S i) k t
    | O =>
      let '(r, size) := DecodeRuneInString s in
      (i, r) :: range_from (S i) (size - 1) t
    end
  end.

Definition range (s : string) : list (nat * Z) := range_from 0 0 s.

End utf8.

(** ** unicode *)

Module unicode.

Definition MaxLatin1 : Z := 0xFF.

(** [uint32(r)] of a rune (an [int32]). *)
Definition uint32 (r : Z) : Z := r mod 2 ^ 32.

(** [unicode.IsSpace]: the Latin-1 switch, then the [White_Space] range
    table with its Latin-1 entries skipped. *)
Definition IsSpace (r : Z) : bool :=
  if uint32 r <=? MaxLatin1 then
    (r =? 9) || (r =? 10) || (r =? 11) || (r =? 12) || (r =? 13)
    || (r =? 0x20) || (r =? 0x85) || (r =? 0xA0)
  else
    (r =? 0x1680) || ((0x2000 <=? r) && (r <=? 0x200A))
    || ((0x2028 <=? r) && (r <=? 0x2029)) || (r =? 0x202F)
    || (r =? 0x205F) || (r =? 0x3000).

(** The [pP] bit of the Latin-1 [properties] table. *)
Definition latin1_pP (b : Z) : bool :=
  ((0x21 <=? b) && (b <=? 0x23)) || ((0x25 <=? b) && (b <=? 0x2A))
  || ((0x2C <=? b) && (b <=? 0x2F)) || (b =? 0x3A) || (b =? 0x3B)
  || (b =? 0x3F) || (b =? 0x40) || ((0x5B <=? b) && (b <=? 0x5D))
  || (b =? 0x5F) || (b =? 0x7B) || (b =? 0x7D) || (b =? 0xA1)
  || (b =? 0xA7) || (b =? 0xAB) || (b =? 0xB6) || (b =? 0xB7)
  || (b =? 0xBB) || (b =? 0xBF).

(** [unicode.IsPunct]; [Punct] is the range table of category P, looked
    up for the runes above Latin-1 only. *)
Definition IsPunct (Punct : Z -> bool) (r : Z) : bool :=
  if uint32 r <=? MaxLatin1 then latin1_pP (r mod 2 ^ 8) else Punct r.

End unicode.

(** ** strings *)

Module strings.

(** [indexFunc(s, f, false)]: the offset of the first rune that does not
    satisfy [f], [-1] if there is none. *)
Fixpoint indexFunc_false (f : Z -> bool) (rs : list (nat * Z)) : Z :=
  match rs with
  | [] => -1
  | (i, r) :: rest => if f r then indexFunc_false f rest else Z.of_nat i
  end.

(** [strings.TrimLeftFunc]. *)
Definition TrimLeftFunc (s : string) (f : Z -> bool) : string :=
  let i := indexFunc_false f (utf8.range s) in
  if i =? -1 then EmptyString else tail_from (Z.to_nat i) s.

(** [lastIndexFunc(s, f, false)], with the loop variable [i] as argument:
    [for i := len(s); i > 0; { r, size := DecodeLastRuneInString(s[0:i]);
    i -= size; if f(r) == false { return i } }; return -1]. *)
Fixpoint lastIndexFunc_false (fuel : nat) (f : Z -> bool) (s : string) (i : nat) : Z :=
  match fuel with
  | O => -1
  | S k =>
    if (0 <? i)%nat then
      let '(r, size) := utf8.DecodeLastRuneInString (slice s 0 i) in
      let i := (i - size)%nat in
      if f r then lastIndexFunc_false k f s i else Z.of_nat i
    else -1
  end.

(** [strings.TrimRightFunc]. *)
Definition TrimRightFunc (s : string) (f : Z -> bool) : string :=
  let i := lastIndexFunc_false (S (len s)) f s (len s) in
  let i :=
    if (0 <=? i) && (utf8.RuneSelf <=? at_ s (Z.to_nat i))
    then i + Z.of_nat (snd (utf8.DecodeRuneInString (tail_from (Z.to_nat i) s)))
    else i + 1 in
  slice s 0 (Z.to_nat i).

(** [strings.TrimSpace]: all leading and trailing white space removed, as
    defined by Unicode.  (The library's version first skips ASCII space
    bytes at both ends and then makes these two calls on what is left.) *)
Definition TrimSpace (s : string) : string :=
  TrimRightFunc (TrimLeftFunc s unicode.IsSpace) unicode.IsSpace.

(** [strings.Split(s, sep)] for a non-empty [sep] (the program splits on
    [","] and on the path separator): [genSplit] cuts [s] at every
    occurrence of [sep], left to right and without overlap, so [n]
    separators give [n + 1] pieces.  [skip] counts the bytes of a separator
    just found that are still to be passed over. *)
Fixpoint genSplit (sep : string) (skip : nat) (s : string) : list string :=
  match s with
  | EmptyString => [EmptyString]
  | String c t =>
    match skip with
    | S k => genSplit sep k t
    | O =>
      if HasPrefix s sep then EmptyString :: genSplit sep (len sep - 1) t
      else
        match genSplit sep 0 t with
        | piece :: pieces => String c piece :: pieces
        | [] => [String c EmptyString]
        end
    end
  end.

Definition Split (s sep : string) : list string := genSplit sep 0 s.

(** [strings.Join]. *)
Fixpoint Join (elems : list string) (sep : string) : string :=
  match elems with
  | [] => EmptyString
  | [e] => e
  | e :: rest => e +:+ sep +:+ Join rest sep
  end.

(** The first loop of [strings.FieldsFunc], over [for end, rune := range s],
    with its variables [start] and [spans]; [^start] is [Z.lnot start]. *)
Fixpoint FieldsFunc_spans (f : Z -> bool) (rs : list (nat * Z)) (start : Z)
    (spans : list (Z * Z)) : Z * list (Z * Z) :=
  match rs with
  | [] => (start, spans)
  | (end_, rune) :: rest =>
    if f rune then
      if 0 <=? start
      then FieldsFunc_spans f rest (Z.lnot start) (spans ++ [(start, Z.of_nat end_)])
      else FieldsFunc_spans f rest start spans
    else
      if start <? 0
      then FieldsFunc_spans f rest (Z.of_nat end_) spans
      else FieldsFunc_spans f rest start spans
  end.

(** [strings.FieldsFunc]: the spans, the last field that may end at EOF,
    and the strings [s[span.start:span.end]]. *)
Definition FieldsFunc (s : string) (f : Z -> bool) : list string :=
  let '(start, spans) := FieldsFunc_spans f (utf8.range s) (-1) [] in
  let spans :=
    if 0 <=? start then spans ++ [(start, Z.of_nat (len s))] else spans in
  (fun span : Z * Z => slice s (Z.to_nat (fst span)) (Z.to_nat (snd span))) <$> spans.

End strings.

Module filepath.

Definition Separator : Z := 0x2F.

(** [filepath.Ext]: [for i := len(path) - 1; i >= 0 &&
    !os.IsPathSeparator(path[i]); i-- { if path[i] == '.' { return path[i:] } }
    return ""]. *)
Fixpoint Ext_loop (fuel : nat) (path : string) (i : Z) : string :=
  match fuel with
  | O => EmptyString
  | S k =>
    if (0 <=? i) && negb (at_ path (Z.to_nat i) =? Separator) then
      if at_ path (Z.to_nat i) =? 0x2E then tail_from (Z.to_nat i) path
      else Ext_loop k path (i - 1)
    else EmptyString
  end.

Definition Ext (path : string) : string :=
  Ext_loop (len path) path (Z.of_nat (len path) - 1).

End filepath.

(** ** Errors *)

(** Go's [error] values, as far as the program makes or meets them:
    [*fs.PathError], which the [os] functions return, and the errors of
    [errors.New] and [fmt.Errorf], which are a message. *)
Inductive error : Type :=
| PathError (Op Path Err : string)
| errorString (s : string).

(** [err.Error()], what [%v] prints. *)
Definition Error (e : error) : string :=
  match e with
  | PathError op path err => op +:+ " " +:+ path +:+ ": " +:+ err
  | errorString s => s
  end.

(** ** The library behind the program *)

(** [sort.Slice] sorts by a [less] that is a strict weak ordering. *)
Record StrictWeak {A : Type} (less : A -> A -> bool) : Prop := {
  less_irrefl : forall a, less a a = false;
  less_trans : forall a b c, less a b = true -> less b c = true -> less a c = true;
  less_incomp : forall a b c,
    less a b = false -> less b a = false ->
    less b c = false -> less c b = false ->
    less a c = false /\ less c a = false;
}.

(** What the program uses of Go's library and is not modelled above: the
    Unicode tables ([unicode.Punct] above Latin-1, and the case folding
    behind [strings.EqualFold]), the [path/filepath] functions that clean
    paths, [fmt]'s [%.2f], and [sort.Slice], of which only its contract is
    kept: the slice ends up a permutation of itself in which no element is
    [less] than the one before it ([sort.Slice] is not stable, so the order
    of elements that compare equal is the library's choice). *)
Class GoLibrary : Type := {
  unicode_Punct : Z -> bool;
  strings_EqualFold : string -> string -> bool;
  filepath_Join : list string -> string;
  filepath_Rel : string -> string -> error + string;
  filepath_Base : string -> string;
  fmt_f2 : spec_float -> string;
  sort_Slice : forall {A : Type}, list A -> (A -> A -> bool) -> list A;
  sort_Slice_Permutation : forall (A : Type) (x : list A) less,
    sort_Slice x less ≡ₚ x;
  sort_Slice_Sorted : forall (A : Type) (x : list A) less,
    StrictWeak less -> Sorted (fun a b => less b a = false) (sort_Slice x less);
}.

(** ** The program's data *)

Record Options : Type := {
  rootDir : string;
  includeExts : list string;
  excludeExts : list string;
  structureFile : string;
  contentFile : string;
  summaryFile : string;
}.

(** [FileInfo]; its field [Children] is never assigned nor read and is left
    out. *)
Record FileInfo : Type := {
  Path : string;
  IsDir : bool;
  Size : Z;
  Content : string;
}.

Definition float64 : Type := spec_float.

(** [float64(n)] of an integer, [x / y] on [float64], and the literal
    [1024.0]: IEEE 754 binary64, rounding to nearest even. *)
Definition float64_of_int (n : Z) : float64 := binary_normalize 53 1024 n 0 false.

Definition float64_div (x y : float64) : float64 := SFdiv 53 1024 x y.

Definition float64_zero : float64 := S754_zero false.

Record Statistics : Type := {
  TotalFiles : Z;
  TotalSize : Z;
  AverageFileSize : float64;
  TotalTokens : Z;
  AverageTokens : float64;
}.

(** Addition on [int64], and on [int], which is 64 bits wide on the
    platforms Go's linux ports target with this Dockerfile. *)
Definition wrap64 (z : Z) : Z := (z + 2 ^ 63) mod 2 ^ 64 - 2 ^ 63.

Definition add64 (x y : Z) : Z := wrap64 (x + y).

(** ** The extension normalizer *)

(** The [for _, ext := range exts] loop of [normalizeExtensions], with the
    slice [result] it appends to. *)
Fixpoint normalizeExtensions_loop (exts : list string) (result : list string)
  : list string :=
  match exts with
  | [] => result
  | ext :: rest =>
    let ext := strings.TrimSpace ext in
    if is_empty ext then normalizeExtensions_loop rest result
    else
      let ext := if negb (HasPrefix ext ".") then "." +:+ ext else ext in
      normalizeExtensions_loop rest (result ++ [ext])
  end.

Definition normalizeExtensions (exts : list string) : list string :=
  normalizeExtensions_loop exts [].

(** ** The file system and the process state *)

(** What the walk finds at a path: the result of [os.Lstat] on it, and for
    a directory the sorted names [readDirNames] returns, each with what is
    found there; for anything else its size and what [os.ReadFile] returns
    for it.  A failing call is recorded with the operation and the message
    of the [*fs.PathError] the [os] package returns for it. *)
#[local] Unset Elimination Schemes.

Inductive Entry : Type :=
| LstatFails (errno : string)
| File (size : Z) (data : string * string + string)
| DirUnreadable (op errno : string)
| Dir (names : list (string * Entry)).

#[local] Set Elimination Schemes.

(** Induction on a tree, with the hypothesis for every entry of a
    directory. *)
Fixpoint Entry_ind (P : Entry -> Prop)
    (HLstat : forall errno, P (LstatFails errno))
    (HFile : forall size data, P (File size data))
    (HUnreadable : forall op errno, P (DirUnreadable op errno))
    (HDir : forall names, Forall (fun entry => P entry.2) names -> P (Dir names))
    (info : Entry) {struct info} : P info :=
  match info with
  | LstatFails errno => HLstat errno
  | File size data => HFile size data
  | DirUnreadable op errno => HUnreadable op errno
  | Dir names =>
    HDir names
      ((fix all (l : list (string * Entry)) : Forall (fun entry => P entry.2) l :=
          match l with
          | [] => List.Forall_nil (fun entry => P entry.2)
          | (name, child) :: rest =>
            List.Forall_cons (fun entry => P entry.2) (name, child) rest
              (Entry_ind P HLstat HFile HUnreadable HDir child) (all rest)
          end) names)
  end.

(** [info.IsDir()] and [info.Size()]. *)
Definition Entry_IsDir (info : Entry) : bool :=
  match info with
  | Dir _ | DirUnreadable _ _ => true
  | _ => false
  end.

Definition Entry_Size (info : Entry) : Z :=
  match info with
  | File size _ => size
  | _ => 0
  end.

(** [os.ReadFile(path)] when [info] is what lies at [path]. *)
Definition os_ReadFile (path : string) (info : Entry) : error + string :=
  match info with
  | File _ (inr content) => inr content
  | File _ (inl (op, errno)) => inl (PathError op path errno)
  | _ => inl (PathError "read" path "is a directory")
  end.

(** The state a run reads and changes: the tree under each root path, the
    answers of [os.Stat], [os.Getwd] and [os.Create], the files written,
    standard output, and the backing arrays of the [[]*FileInfo] slices.
    Writes to a created file do not fail (the program ignores what
    [fmt.Fprintf] returns), and the files a run creates are not part of the
    tree it walked before. *)
Record World : Type := {
  w_tree : string -> Entry;
  w_missing : string -> bool;
  w_getwd : error + string;
  w_create_errno : string -> option string;
  w_files : gmap string string;
  w_stdout : string;
  w_heap : gmap nat (list FileInfo);
}.

(** A [[]*FileInfo] value: a reference to its backing array.  The records
    behind the pointers are never changed once made, so the array holds
    them directly; the nil slice is an empty array. *)
Definition slice_ref : Type := nat.

Definition M (A : Type) : Type := World -> A * World.

#[global] Instance M_ret : MRet M := fun A (a : A) (w : World) => (a, w).

#[global] Instance M_bind : MBind M :=
  fun A B (k : A -> M B) (m : M A) (w : World) => let '(a, w') := m w in k a w'.

Definition get_world : M World := fun w => (w, w).

Definition with_files (files : gmap string string) (w : World) : World :=
  {| w_tree := w_tree w; w_missing := w_missing w; w_getwd := w_getwd w;
     w_create_errno := w_create_errno w; w_files := files;
     w_stdout := w_stdout w; w_heap := w_heap w |}.

Definition with_stdout (out : string) (w : World) : World :=
  {| w_tree := w_tree w; w_missing := w_missing w; w_getwd := w_getwd w;
     w_create_errno := w_create_errno w; w_files := w_files w;
     w_stdout := out; w_heap := w_heap w |}.

Definition with_heap (heap : gmap nat (list FileInfo)) (w : World) : World :=
  {| w_tree := w_tree w; w_missing := w_missing w; w_getwd := w_getwd w;
     w_create_errno := w_create_errno w; w_files := w_files w;
     w_stdout := w_stdout w; w_heap := heap |}.

Definition set_files (files : gmap string string) : M unit :=
  fun w => (tt, with_files files w).

Definition set_stdout (out : string) : M unit :=
  fun w => (tt, with_stdout out w).

Definition set_heap (heap : gmap nat (list FileInfo)) : M unit :=
  fun w => (tt, with_heap heap w).

(** [os.Create(name)]: the file is created or truncated; the handle is its
    name. *)
Definition os_Create (name : string) : M (error + string) :=
  w ← get_world;
  match w_create_errno w name with
  | Some errno => mret (inl (PathError "open" name errno))
  | None => _ ← set_files (<[name := EmptyString]> (w_files w)); mret (inr name)
  end.

(** [fmt.Fprint] to a created file, and [fmt.Print]. *)
Definition Fprint (file : string) (text : string) : M unit :=
  w ← get_world;
  set_files (<[file := default EmptyString (w_files w !! file) +:+ text]> (w_files w)).

Definition Print (text : string) : M unit :=
  w ← get_world; set_stdout (w_stdout w +:+ text).

(** Reading a slice, making one, and [sort.Slice] on one: the backing array
    is permuted in place, so every holder of the slice sees the new order. *)
Definition read_slice (x : slice_ref) : M (list FileInfo) :=
  w ← get_world; mret (default [] (w_heap w !! x)).

Definition make_slice (elems : list FileInfo) : M slice_ref :=
  w ← get_world;
  let x := fresh (dom (w_heap w)) in
  _ ← set_heap (<[x := elems]> (w_heap w)); mret x.

Definition sort_Slice_in_place `{GoLibrary} (x : slice_ref)
    (less : FileInfo -> FileInfo -> bool) : M unit :=
  w ← get_world;
  set_heap (<[x := sort_Slice (default [] (w_heap w !! x)) less]> (w_heap w)).

(** ** The tree walker and the filter *)

Section Program.

Context `{GoLibrary}.

(** The two loops of the callback over the extension sets, each with the
    value of [includeFile] it starts from: the first sets it on a match and
    breaks, the second clears it on a match and breaks. *)
Fixpoint include_loop (ext : string) (exts : list string) (includeFile : bool) : bool :=
  match exts with
  | [] => includeFile
  | includeExt :: rest =>
    if strings_EqualFold ext includeExt then true
    else include_loop ext rest includeFile
  end.

Fixpoint exclude_loop (ext : string) (exts : list string) (includeFile : bool) : bool :=
  match exts with
  | [] => includeFile
  | excludeExt :: rest =>
    if strings_EqualFold ext excludeExt then false
    else exclude_loop ext rest includeFile
  end.

(** The value of [includeFile] where the callback tests it. *)
Definition includeFile (options : Options) (path : string) : bool :=
  let ext := filepath.Ext path in
  let includeFile := false in
  let includeFile :=
    if (length (includeExts options) =? 0)%nat then true
    else include_loop ext (includeExts options) includeFile in
  exclude_loop ext (excludeExts options) includeFile.

(** The function literal [walkDirectory] passes to [filepath.Walk]; the
    variable [filteredFiles] it closes over is passed in and handed back. *)
Definition walkFn (options : Options) (path : string) (info : Entry)
    (err : option error) (filteredFiles : list FileInfo)
  : list FileInfo * option error :=
  match err with
  | Some e => (filteredFiles, Some e)
  | None =>
    if negb (Entry_IsDir info) then
      if includeFile options path then
        match os_ReadFile path info with
        | inl e =>
          (filteredFiles,
           Some (errorString ("unable to read file " +:+ path +:+ ": " +:+ Error e)))
        | inr content =>
          (filteredFiles ++ [{| Path := path; IsDir := false;
                                Size := Entry_Size info; Content := content |}],
           None)
        end
      else (filteredFiles, None)
    else (filteredFiles, None)
  end.

(** [filepath.walk]: a file is handed to the callback; a directory is
    handed over with the error of reading its names, and when neither that
    nor the callback gives an error each name is walked as
    [Join(path, name)], a name whose [Lstat] fails being handed over with
    that error.  The callback never returns [SkipDir] or [SkipAll], so
    every error it returns ends the walk. *)
Fixpoint walk (options : Options) (path : string) (info : Entry)
    (filteredFiles : list FileInfo) {struct info} : list FileInfo * option error :=
  match info with
  | LstatFails errno =>
    walkFn options path info (Some (PathError "lstat" path errno)) filteredFiles
  | File _ _ => walkFn options path info None filteredFiles
  | DirUnreadable op errno =>
    walkFn options path info (Some (PathError op path errno)) filteredFiles
  | Dir names =>
    match walkFn options path info None filteredFiles with
    | (filteredFiles, Some err1) => (filteredFiles, Some err1)
    | (filteredFiles, None) =>
      (fix walk_names (names : list (string * Entry)) (filteredFiles : list FileInfo)
         {struct names} : list FileInfo * option error :=
         match names with
         | [] => (filteredFiles, None)
         | (name, fileInfo) :: rest =>
           match walk options (filepath_Join [path; name]) fileInfo filteredFiles with
           | (filteredFiles, Some err) => (filteredFiles, Some err)
           | (filteredFiles, None) => walk_names rest filteredFiles
           end
         end) names filteredFiles
    end
  end.

(** [filepath.Walk(root, fn)]. *)
Definition filepath_Walk (options : Options) (root : string) (tree : string -> Entry)
    (filteredFiles : list FileInfo) : list FileInfo * option error :=
  walk options root (tree root) filteredFiles.

Definition walkDirectory (options : Options) : M (slice_ref * option error) :=
  w ← get_world;
  let '(filteredFiles, err) := filepath_Walk options (rootDir options) (w_tree w) [] in
  x ← make_slice filteredFiles;
  mret (x, err).

(** ** The tokenizer *)

(** The loop that keeps the non-empty words. *)
Fixpoint validWords_loop (words validWords : list string) : list string :=
  match words with
  | [] => validWords
  | word :: rest =>
    if negb (is_empty word) then validWords_loop rest (validWords ++ [word])
    else validWords_loop rest validWords
  end.

Definition is_delimiter (r : Z) : bool :=
  unicode.IsSpace r || unicode.IsPunct unicode_Punct r.

Definition countTokens (text : string) : Z :=
  let words := strings.FieldsFunc text is_delimiter in
  Z.of_nat (length (validWords_loop words [])).

(** ** The tree renderer *)

(** [%d] of an [int]. *)
Definition fmt_d (n : Z) : string := NilZero.string_of_int (Z.to_int n).

(** [dirs[currentPath]] on a [map[string]bool]: [false] for a missing key. *)
Definition dirs_get (dirs : gmap string bool) (currentPath : string) : bool :=
  default false (dirs !! currentPath).

(** The body of [for i := 0; i < len(components); i++]. *)
Definition render_component (file : string) (components : list string) (i : nat)
    (dirs : gmap string bool) : M (gmap string bool) :=
  let currentPath := filepath_Join (take (i + 1) components) in
  let isLastComponent := Z.of_nat i =? Z.of_nat (length components) - 1 in
  let isDir := negb isLastComponent in
  if isDir && negb (dirs_get dirs currentPath) then
    let dirs := <[currentPath := true]> dirs in
    let prefix := Repeat "│   " i +:+ "├── " in
    _ ← Fprint file ("    " +:+ prefix +:+ default EmptyString (components !! i)
                      +:+ "/" +:+ newline);
    mret dirs
  else if isLastComponent then
    let prefix := Repeat "│   " i +:+ "├── " in
    _ ← Fprint file ("    " +:+ prefix +:+ default EmptyString (components !! i)
                      +:+ newline);
    mret dirs
  else mret dirs.

Fixpoint render_components (file : string) (components : list string)
    (indices : list nat) (dirs : gmap string bool) : M (gmap string bool) :=
  match indices with
  | [] => mret dirs
  | i :: rest =>
    dirs ← render_component file components i dirs;
    render_components file components rest dirs
  end.

(** The loop [for _, fileInfo := range files], which returns at the first
    path [filepath.Rel] gives an error for. *)
Fixpoint render_files (file rootPath : string) (files : list FileInfo)
    (dirs : gmap string bool) : M (option error) :=
  match files with
  | [] => mret None
  | fileInfo :: rest =>
    match filepath_Rel rootPath (Path fileInfo) with
    | inl err => mret (Some err)
    | inr relPath =>
      let components := strings.Split relPath "/" in
      dirs ← render_components file components (seq 0 (length components)) dirs;
      render_files file rootPath rest dirs
    end
  end.

(** The [less] of the renderer: [files[i].Path < files[j].Path]. *)
Definition path_less (a b : FileInfo) : bool := String.ltb (Path a) (Path b).

Definition generateStructureFile (files : slice_ref) (options : Options)
  : M (option error) :=
  created ← os_Create (structureFile options);
  match created with
  | inl err => mret (Some err)
  | inr file =>
    _ ← Fprint file ("Directory structure:" +:+ newline);
    let dirs : gmap string bool := ∅ in
    _ ← sort_Slice_in_place files path_less;
    w ← get_world;
    let cwd :=
      if String.eqb (rootDir options) "." then w_getwd w
      else inr (rootDir options) in
    match cwd with
    | inl err => mret (Some err)
    | inr rootPath =>
      let rootName := filepath_Base rootPath in
      _ ← Fprint file ("└── " +:+ rootName +:+ "/" +:+ newline);
      elems ← read_slice files;
      render_files file rootPath elems dirs
    end
  end.

(** ** The content aggregator *)

Definition separator_line : string :=
  "================================================".

(** The loop [for i, fileInfo := range files] with the statistics it
    accumulates. *)
Fixpoint content_loop (contentFile : string) (i : Z) (files : list FileInfo)
    (stats : Statistics) : M Statistics :=
  match files with
  | [] => mret stats
  | fileInfo :: rest =>
    _ ← (if 0 <? i then Fprint contentFile newline else mret tt);
    _ ← Fprint contentFile (separator_line +:+ newline);
    _ ← Fprint contentFile
          ("File " +:+ fmt_d (i + 1) +:+ ": " +:+ Path fileInfo +:+ newline);
    _ ← Fprint contentFile (separator_line +:+ newline);
    _ ← Fprint contentFile (Content fileInfo +:+ newline);
    let tokens := countTokens (Content fileInfo) in
    content_loop contentFile (i + 1) rest
      {| TotalFiles := TotalFiles stats;
         TotalSize := add64 (TotalSize stats) (Size fileInfo);
         AverageFileSize := AverageFileSize stats;
         TotalTokens := add64 (TotalTokens stats) tokens;
         AverageTokens := AverageTokens stats |}
  end.

Definition Statistics_zero : Statistics :=
  {| TotalFiles := 0; TotalSize := 0; AverageFileSize := float64_zero;
     TotalTokens := 0; AverageTokens := float64_zero |}.

Definition generateContentFile (files : slice_ref) (options : Options)
  : M (Statistics * option error) :=
  created ← os_Create (contentFile options);
  match created with
  | inl err => mret (Statistics_zero, Some err)
  | inr contentFile =>
    elems ← read_slice files;
    let stats :=
      {| TotalFiles := Z.of_nat (length elems); TotalSize := 0;
         AverageFileSize := float64_zero; TotalTokens := 0;
         AverageTokens := float64_zero |} in
    stats ← content_loop contentFile 0 elems stats;
    let stats :=
      if 0 <? TotalFiles stats then
        {| TotalFiles := TotalFiles stats;
           TotalSize := TotalSize stats;
           AverageFileSize :=
             float64_div (float64_of_int (TotalSize stats))
                         (float64_of_int (TotalFiles stats));
           TotalTokens := TotalTokens stats;
           AverageTokens :=
             float64_div (float64_of_int (TotalTokens stats))
                         (float64_of_int (TotalFiles stats)) |}
      else stats in
    mret (stats, None)
  end.

(** ** The summary reporter *)

Definition KB : float64 := float64_of_int 1024.

Definition MB : float64 := float64_of_int (1024 * 1024).

Definition generateSummaryFile (stats : Statistics) (options : Options)
  : M (option error) :=
  created ← os_Create (summaryFile options);
  match created with
  | inl err => mret (Some err)
  | inr summaryFile =>
    _ ← Fprint summaryFile ("Statistics Summary" +:+ newline);
    _ ← Fprint summaryFile ("=================" +:+ newline);
    _ ← Fprint summaryFile
          ("Total files processed: " +:+ fmt_d (TotalFiles stats) +:+ newline);
    _ ← Fprint summaryFile
          ("Total file size: "
           +:+ fmt_f2 (float64_div (float64_of_int (TotalSize stats)) KB)
           +:+ " KB ("
           +:+ fmt_f2 (float64_div (float64_of_int (TotalSize stats)) MB)
           +:+ " MB)" +:+ newline);
    _ ← Fprint summaryFile
          ("Average file size: "
           +:+ fmt_f2 (float64_div (AverageFileSize stats) KB) +:+ " KB" +:+ newline);
    _ ← Fprint summaryFile
          ("Total tokens: " +:+ fmt_d (TotalTokens stats) +:+ newline);
    _ ← Fprint summaryFile
          ("Average tokens per file: " +:+ fmt_f2 (AverageTokens stats) +:+ newline);
    mret None
  end.

(** ** [main] *)

(** The values of the six flags after [flag.Parse()]. *)
Record Flags : Type := {
  flag_dir : string;
  flag_include : string;
  flag_exclude : string;
  flag_structure : string;
  flag_content : string;
  flag_summary : string;
}.

Definition default_flags : Flags :=
  {| flag_dir := "."; flag_include := "md,go,mbt"; flag_exclude := "html,css";
     flag_structure := "directory-structure.txt"; flag_content := "content.txt";
     flag_summary := "summary.txt" |}.

Definition options_of (flags : Flags) : Options :=
  {| rootDir := flag_dir flags;
     includeExts := normalizeExtensions (strings.Split (flag_include flags) ",");
     excludeExts := normalizeExtensions (strings.Split (flag_exclude flags) ",");
     structureFile := flag_structure flags;
     contentFile := flag_content flags;
     summaryFile := flag_summary flags |}.

(** [%v] of a [[]string]. *)
Definition fmt_v_strings (l : list string) : string :=
  "[" +:+ strings.Join l " " +:+ "]".

(** [main], returning the exit status: [1] where it calls [os.Exit(1)],
    [0] when it runs to its end. *)
Definition main (flags : Flags) : M Z :=
  let options := options_of flags in
  w ← get_world;
  if w_missing w (rootDir options) then
    _ ← Print ("Directory " +:+ rootDir options +:+ " does not exist" +:+ newline);
    mret 1
  else
    _ ← Print ("Analyzing directory: " +:+ rootDir options +:+ newline);
    _ ← Print ("Included extensions: " +:+ fmt_v_strings (includeExts options) +:+ newline);
    _ ← Print ("Excluded extensions: " +:+ fmt_v_strings (excludeExts options) +:+ newline);
    _ ← Print ("Structure file: " +:+ structureFile options +:+ newline);
    _ ← Print ("Content file: " +:+ contentFile options +:+ newline);
    _ ← Print ("Summary file: " +:+ summaryFile options +:+ newline);
    '(files, err) ← walkDirectory options;
    match err with
    | Some err =>
      _ ← Print ("Error analyzing directory: " +:+ Error err +:+ newline); mret 1
    | None =>
      err ← generateStructureFile files options;
      match err with
      | Some err =>
        _ ← Print ("Error generating structure file: " +:+ Error err +:+ newline);
        mret 1
      | None =>
        '(stats, err) ← generateContentFile files options;
        match err with
        | Some err =>
          _ ← Print ("Error generating content file: " +:+ Error err +:+ newline);
          mret 1
        | None =>
          err ← generateSummaryFile stats options;
          match err with
          | Some err =>
            _ ← Print ("Error generating summary file: " +:+ Error err +:+ newline);
            mret 1
          | None =>
            _ ← Print ("Processing completed successfully!" +:+ newline);
            _ ← Print (newline +:+ "Statistics Summary:" +:+ newline);
            _ ← Print ("Total files processed: " +:+ fmt_d (TotalFiles stats) +:+ newline);
            _ ← Print ("Total file size: "
                       +:+ fmt_f2 (float64_div (float64_of_int (TotalSize stats)) KB)
                       +:+ " KB" +:+ newline);
            _ ← Print ("Average file size: "
                       +:+ fmt_f2 (float64_div (AverageFileSize stats) KB)
                       +:+ " KB" +:+ newline);
            _ ← Print ("Total tokens: " +:+ fmt_d (TotalTokens stats) +:+ newline);
            _ ← Print ("Average tokens per file: "
                       +:+ fmt_f2 (AverageTokens stats) +:+ newline);
            mret 0
          end
        end
      end
    end.

End Program.

(** ** An instance of the library, for running the program

    The functions of [path/filepath] as they are on linux, in terms of the
    elements of a path; [strings.EqualFold] and [unicode.Punct] restricted
    to what ASCII and Latin-1 text needs (no rune above Latin-1 is
    punctuation, none above ASCII folds); [%.2f] by exact arithmetic; and
    for [sort.Slice] the insertion sort it runs on a slice of at most 12
    elements. *)

Module Linux.

(** The loop of [filepath.Clean] over the elements of the path, with the
    elements written so far, last first: empty and [.] elements are
    dropped, [..] removes the element before it when there is one to
    remove, is kept at the front of a relative path and dropped at the root. *)
Fixpoint Clean_loop (rooted : bool) (elems out : list string) : list string :=
  match elems with
  | [] => out
  | e :: rest =>
    if String.eqb e "" || String.eqb e "." then Clean_loop rooted rest out
    else if String.eqb e ".." then
      match out with
      | top :: below =>
        if String.eqb top ".." then Clean_loop rooted rest (e :: out)
        else Clean_loop rooted rest below
      | [] => if rooted then Clean_loop rooted rest [] else Clean_loop rooted rest [e]
      end
    else Clean_loop rooted rest (e :: out)
  end.

Definition Clean (path : string) : string :=
  if is_empty path then "."
  else
    let rooted := at_ path 0 =? filepath.Separator in
    let out := strings.Join (reverse (Clean_loop rooted (strings.Split path "/") [])) "/" in
    if rooted then "/" +:+ out
    else if is_empty out then "." else out.

(** [filepath.Join]. *)
Fixpoint Join (elem : list string) : string :=
  match elem with
  | [] => EmptyString
  | e :: rest =>
    if negb (is_empty e) then Clean (strings.Join elem "/") else Join rest
  end.

(** [filepath.Base]. *)
Fixpoint strip_trailing_slashes (fuel : nat) (path : string) : string :=
  match fuel with
  | O => path
  | S k =>
    if (0 <? len path)%nat && (at_ path (len path - 1) =? filepath.Separator)
    then strip_trailing_slashes k (slice path 0 (len path - 1))
    else path
  end.

Definition Base (path : string) : string :=
  if is_empty path then "."
  else
    let path := strip_trailing_slashes (len path) path in
    let path := List.last (strings.Split path "/") EmptyString in
    if is_empty path then "/" else path.

(** [filepath.Rel]: the elements the cleaned paths share are dropped, every
    element left of the base becomes [..], and what is left of the target
    follows. *)
Definition elements (path : string) : list string :=
  if is_empty path then []
  else if String.eqb path "/" then [EmptyString]
  else strings.Split path "/".

Fixpoint drop_shared (base targ : list string) : list string * list string :=
  match base, targ with
  | b :: bs, t :: ts => if String.eqb b t then drop_shared bs ts else (base, targ)
  | _, _ => (base, targ)
  end.

Definition Rel (basepath targpath : string) : error + string :=
  let base := Clean basepath in
  let targ := Clean targpath in
  if String.eqb targ base then inr "."
  else
    let base := if String.eqb base "." then EmptyString else base in
    let baseSlashed := (0 <? len base)%nat && (at_ base 0 =? filepath.Separator) in
    let targSlashed := (0 <? len targ)%nat && (at_ targ 0 =? filepath.Separator) in
    let failure :=
      errorString ("Rel: can't make " +:+ targpath +:+ " relative to " +:+ basepath) in
    if negb (Bool.eqb baseSlashed targSlashed) then inl failure
    else
      let '(b, t) := drop_shared (elements base) (elements targ) in
      match b with
      | [] => inr (strings.Join t "/")
      | b0 :: _ =>
        if String.eqb b0 ".." then inl failure
        else inr (strings.Join (((fun _ => "..") <$> b) ++ t) "/")
      end.

(** [strings.EqualFold] on ASCII: bytes are equal, or one is an upper-case
    letter and the other the same letter in lower case; a byte above ASCII
    matches itself only. *)
Definition fold_eq (sr tr : Z) : bool :=
  if tr =? sr then true
  else
    let lo := Z.min sr tr in
    let hi := Z.max sr tr in
    (0x41 <=? lo) && (lo <=? 0x5A) && (hi =? lo + 0x20).

Fixpoint EqualFold (s t : string) : bool :=
  match s, t with
  | EmptyString, EmptyString => true
  | String a s', String b t' => fold_eq (byte a) (byte b) && EqualFold s' t'
  | _, _ => false
  end.

(** The table [unicode.Punct] cut down to Latin-1: nothing above it. *)
Definition Punct (r : Z) : bool := false.

(** [%.2f]: the value [m * 2^e] in hundredths, rounded to the nearest
    integer and to even on a tie. *)
Definition hundredths (m : positive) (e : Z) : Z :=
  if 0 <=? e then Z.pos m * 2 ^ e * 100
  else
    let num := Z.pos m * 100 in
    let den := 2 ^ (- e) in
    let q := num / den in
    let r := num mod den in
    if (den <? 2 * r) || ((den =? 2 * r) && Z.odd q) then q + 1 else q.

Definition f2 (x : float64) : string :=
  match x with
  | S754_nan => "NaN"
  | S754_infinity s => if s then "-Inf" else "+Inf"
  | S754_zero s => if s then "-0.00" else "0.00"
  | S754_finite s m e =>
    let h := hundredths m e in
    (if s then "-" else "") +:+ fmt_d (h / 100) +:+ "."
    +:+ fmt_d (h mod 100 / 10) +:+ fmt_d (h mod 10)
  end.

(** [insertionSortLessFunc]: the element at [i] moves left past every
    element it is [less] than; [sorted] holds [data[a:i]], last first. *)
Fixpoint move_left {A : Type} (less : A -> A -> bool) (x : A) (sorted : list A)
  : list A :=
  match sorted with
  | [] => [x]
  | y :: below => if less x y then y :: move_left less x below else x :: sorted
  end.

Definition insertionSort {A : Type} (data : list A) (less : A -> A -> bool) : list A :=
  reverse (foldl (fun sorted x => move_left less x sorted) [] data).

End Linux.

(** ** The insertion sort meets the contract of [sort.Slice] *)

Section InsertionSort.

Context {A : Type} (less : A -> A -> bool).

Lemma move_left_Permutation (x : A) (sorted : list A) :
  Linux.move_left less x sorted ≡ₚ x :: sorted.
Proof.
  induction sorted as [|y below IH]; simpl; [done|].
  destruct (less x y); [|done].
  rewrite IH. apply Permutation_swap.
Qed.

Lemma insertionSort_Permutation (data : list A) :
  Linux.insertionSort data less ≡ₚ data.
Proof.
  unfold Linux.insertionSort. rewrite reverse_Permutation.
  assert (G : forall sorted,
    foldl (fun sorted x => Linux.move_left less x sorted) sorted data
    ≡ₚ data ++ sorted).
  { induction data as [|x data IH]; intros sorted; simpl; [done|].
    rewrite IH, move_left_Permutation. by rewrite Permutation_middle. }
  rewrite G. by rewrite app_nil_r.
Qed.

Hypothesis less_strict : StrictWeak less.

Lemma less_asym (a b : A) : less a b = true -> less b a = false.
Proof.
  intros Hab. destruct (less b a) eqn:Hba; [|done].
  pose proof (less_trans less less_strict _ _ _ Hab Hba) as Haa.
  by rewrite (less_irrefl less less_strict) in Haa.
Qed.

Lemma move_left_HdRel (x y : A) (sorted : list A) :
  HdRel (fun a b => less a b = false) y sorted -> less y x = false ->
  HdRel (fun a b => less a b = false) y (Linux.move_left less x sorted).
Proof.
  intros Hy Hyx. destruct sorted as [|z below]; simpl.
  - by constructor.
  - destruct (less x z); constructor; [by inv Hy | done].
Qed.

Lemma move_left_Sorted (x : A) (sorted : list A) :
  Sorted (fun a b => less a b = false) sorted ->
  Sorted (fun a b => less a b = false) (Linux.move_left less x sorted).
Proof.
  induction 1 as [|y below Hbelow IH Hy]; simpl.
  - by repeat constructor.
  - destruct (less x y) eqn:Hxy.
    + constructor; [done|]. apply move_left_HdRel; [done|]. by apply less_asym.
    + constructor; [by constructor|]. by constructor.
Qed.

Lemma insertionSort_Sorted (data : list A) :
  Sorted (fun a b => less b a = false) (Linux.insertionSort data less).
Proof.
  unfold Linux.insertionSort.
  apply (Sorted_reverse (fun a b => less a b = false)).
  assert (G : forall sorted, Sorted (fun a b => less a b = false) sorted ->
    Sorted (fun a b => less a b = false)
           (foldl (fun sorted x => Linux.move_left less x sorted) sorted data)).
  { induction data as [|x data IH]; intros sorted Hs; simpl; [done|].
    by apply IH, move_left_Sorted. }
  apply G. constructor.
Qed.

End InsertionSort.

#[global] Instance linux : GoLibrary := {|
  unicode_Punct := Linux.Punct;
  strings_EqualFold := Linux.EqualFold;
  filepath_Join := Linux.Join;
  filepath_Rel := Linux.Rel;
  filepath_Base := Linux.Base;
  fmt_f2 := Linux.f2;
  sort_Slice := @Linux.insertionSort;
  sort_Slice_Permutation := fun A x less => insertionSort_Permutation less x;
  sort_Slice_Sorted := fun A x less strict => insertionSort_Sorted less strict x;
|}.

(** * The specification

    The notions the claims are stated with, and the functions the proofs
    compare the loops of the program with. *)

(** ** The extension normalizer *)

(** The normalizer's contract in the specification's words: a token
    survives when it is non-empty after trimming, and is then given a
    leading dot unless it has one. *)
Definition dotted (t : string) : string :=
  if HasPrefix t "." then t else "." +:+ t.

Definition normalized_spec (exts : list string) : list string :=
  dotted <$> filter (fun t => t <> EmptyString) (strings.TrimSpace <$> exts).

(** ** UTF-8 text *)

(** A continuation byte of an encoding; and what the decoders return for
    bytes that are not the encoding of a rune. *)
Definition continuation (b : Z) : Prop := 0x80 <= b /\ b <= 0xBF.

Definition invalid : Z * nat := (utf8.RuneError, 1%nat).

(** The byte at [e], if there is one, does not continue an encoding. *)
Definition boundary (s : string) (e : nat) : Prop :=
  (e <= len s)%nat /\ (e = len s \/ ~ continuation (at_ s e)).

Section TrimmedText.

Context (f : Z -> bool).

(** The first rune of the text does not satisfy [f]; the last does not. *)
Definition left_ok (s : string) : Prop :=
  s = EmptyString \/ f (utf8.DecodeRuneInString s).1 = false.

Definition right_ok (s : string) : Prop :=
  s = EmptyString \/ f (utf8.DecodeLastRuneInString s).1 = false.

End TrimmedText.

(** ** The tree walker and the filter *)

Section WalkerSpecification.

Context `{GoLibrary}.

(** The loop of [walk] over the names of a directory. *)
Fixpoint walk_names (options : Options) (path : string)
    (names : list (string * Entry)) (filteredFiles : list FileInfo)
  : list FileInfo * option error :=
  match names with
  | [] => (filteredFiles, None)
  | (name, fileInfo) :: rest =>
    match walk options (filepath_Join [path; name]) fileInfo filteredFiles with
    | (filteredFiles, Some err) => (filteredFiles, Some err)
    | (filteredFiles, None) => walk_names options path rest filteredFiles
    end
  end.

(** [Reaches path info p e]: walking down from [info] at [path], through
    readable directories, leads to the entry [e] at the path [p]. *)
Inductive Reaches : string -> Entry -> string -> Entry -> Prop :=
| Reaches_here path info : Reaches path info path info
| Reaches_below path names name child p e :
    (name, child) ∈ names ->
    Reaches (filepath_Join [path; name]) child p e ->
    Reaches path (Dir names) p e.

(** The extension matches some entry of a set, ignoring case. *)
Definition matches (ext : string) (exts : list string) : Prop :=
  exists e, e ∈ exts /\ strings_EqualFold ext e = true.

(** The filter in the specification's words. *)
Definition passes_filter (options : Options) (path : string) : Prop :=
  (includeExts options = [] \/ matches (filepath.Ext path) (includeExts options))
  /\ ~ matches (filepath.Ext path) (excludeExts options).

(** [Fault options path info p e]: walking down from [info] at [path]
    leads to an operation of the walk that fails, at the path [p] with the
    error [e]: an [Lstat], the reading of a directory, or the reading of a
    file the filter keeps. *)
Inductive Fault (options : Options) : string -> Entry -> string -> error -> Prop :=
| Fault_lstat path errno :
    Fault options path (LstatFails errno) path (PathError "lstat" path errno)
| Fault_readdir path op errno :
    Fault options path (DirUnreadable op errno) path (PathError op path errno)
| Fault_read path size op errno :
    includeFile options path = true ->
    Fault options path (File size (inl (op, errno))) path (PathError op path errno)
| Fault_below path names name child p e :
    (name, child) ∈ names ->
    Fault options (filepath_Join [path; name]) child p e ->
    Fault options path (Dir names) p e.

(** The text [sub] occurs in [s]. *)
Definition mentions (s sub : string) : Prop :=
  exists before after, s = before +:+ sub +:+ after.

(** The error [err] the walk returns reports the error [e] of the
    operation on [p]: it is [e], or [e] wrapped by the callback. *)
Definition reported (err : error) (p : string) (e : error) : Prop :=
  err = e
  \/ err = errorString ("unable to read file " +:+ p +:+ ": " +:+ Error e).

(** What a walk from [info] at [path] adds to [filteredFiles] and what it
    returns: the records added are of files reached that pass the filter;
    without an error every such file has its record and no operation of the
    walk fails; an error is that of an operation that fails, as it is or
    wrapped by the callback. *)
Definition walk_result (options : Options) (path : string) (info : Entry)
    (added : list FileInfo) (err : option error) : Prop :=
  (forall f, f ∈ added ->
     Reaches path info (Path f) (File (Size f) (inr (Content f)))
     /\ includeFile options (Path f) = true)
  /\ match err with
     | None =>
       (forall p size data, Reaches path info p (File size data) ->
          includeFile options p = true -> p ∈ Path <$> added)
       /\ (forall p e, ~ Fault options path info p e)
     | Some err => exists p e, Fault options path info p e /\ reported err p e
     end.

End WalkerSpecification.

(** ** The tokenizer *)

Section RunsSpecification.

(** The characters [rs] of a text and the delimiters [d] among them.
    [maximal_run d rs i j]: the characters from position [i] up to, not
    including, [j] are a non-empty run of characters that are not
    delimiters, with a delimiter or the end of the text on either side. *)
Context (d : Z -> bool).

Definition token_char (rs : list Z) (k : nat) : Prop :=
  exists r, rs !! k = Some r /\ d r = false.

Definition delimiter_at (rs : list Z) (k : nat) : Prop :=
  exists r, rs !! k = Some r /\ d r = true.

Definition maximal_run (rs : list Z) (i j : nat) : Prop :=
  (i < j <= length rs)%nat
  /\ (forall k, (i <= k < j)%nat -> token_char rs k)
  /\ (i = O \/ delimiter_at rs (i - 1))
  /\ (j = length rs \/ delimiter_at rs j).

(** A run starts at [i]; and where the run that starts at [i] ends. *)
Definition run_start (rs : list Z) (i : nat) : bool :=
  match rs !! i with
  | Some r =>
    negb (d r)
    && match i with
       | O => true
       | S k => match rs !! k with Some q => d q | None => false end
       end
  | None => false
  end.

Fixpoint run_length (rs : list Z) : nat :=
  match rs with
  | [] => O
  | r :: rest => if d r then O else S (run_length rest)
  end.

Definition run_end (rs : list Z) (i : nat) : nat := (i + run_length (drop i rs))%nat.

Definition runs (rs : list Z) : list (nat * nat) :=
  (fun i => (i, run_end rs i)) <$> filter (fun i => run_start rs i = true) (seq 0 (length rs)).

(** The number of runs that start in [rs], given whether a delimiter (or
    the start of the text) comes before it. *)
Fixpoint count_starts (after_delimiter : bool) (rs : list Z) : nat :=
  match rs with
  | [] => O
  | r :: rest =>
    ((if negb (d r) && after_delimiter then 1 else 0) + count_starts (d r) rest)%nat
  end.

End RunsSpecification.

(** A span of [FieldsFunc] lies within a text of [n] bytes and is not
    empty; [open_run start]: a field has been opened and not yet closed. *)
Definition valid_span (n : nat) (span : Z * Z) : Prop :=
  0 <= span.1 /\ span.1 < span.2 /\ span.2 <= Z.of_nat n.

Definition open_run (start : Z) : nat := if 0 <=? start then 1%nat else 0%nat.

(** ** The content aggregator *)

(** The sum of a list of integers, and the values of an [int64]. *)
Definition sum (l : list Z) : Z := foldr Z.add 0 l.

Definition in_int64 (z : Z) : Prop := - 2 ^ 63 <= z /\ z < 2 ^ 63.

(** The content file in the specification's words: for the record with
    the one-based index [N], a line of 48 [=], the line [File N: path],
    another line of 48 [=], and the content with the newline that ends it;
    the blocks of consecutive records are joined by one empty line. *)
Definition record_block {A : Type} (Path Content : A -> string) (N : Z) (f : A) : string :=
  Repeat "=" 48 +:+ newline
  +:+ "File " +:+ fmt_d N +:+ ": " +:+ Path f +:+ newline
  +:+ Repeat "=" 48 +:+ newline
  +:+ Content f +:+ newline.

Definition content_text (files : list FileInfo) : string :=
  strings.Join (imap (fun i f => record_block Path Content (Z.of_nat i + 1) f) files)
               newline.

Section AggregatorSpecification.

Context `{GoLibrary}.

(** What the loop writes from the index [i] on, and the totals it reaches. *)
Fixpoint blocks_from (i : Z) (files : list FileInfo) : string :=
  match files with
  | [] => EmptyString
  | f :: rest =>
    (if 0 <? i then newline else EmptyString)
    +:+ record_block Path Content (i + 1) f +:+ blocks_from (i + 1) rest
  end.

Definition totals (files : list FileInfo) (stats : Statistics) : Statistics :=
  {| TotalFiles := TotalFiles stats;
     TotalSize := foldl add64 (TotalSize stats) (Size <$> files);
     AverageFileSize := AverageFileSize stats;
     TotalTokens := foldl add64 (TotalTokens stats) (countTokens ∘ Content <$> files);
     AverageTokens := AverageTokens stats |}.

End AggregatorSpecification.

(** ** The tree renderer *)

(** A line of the tree below the root line: the node's depth, its name,
    and whether it is a directory. *)
Record Node : Type := {
  node_depth : nat;
  node_name : string;
  node_is_dir : bool;
}.

(** The text of a node's line: four spaces, the vertical bar and three
    spaces once for every level of depth, the branch glyph, the name, a
    slash after a directory. *)
Definition node_line (node : Node) : string :=
  "    " +:+ Repeat "│   " (node_depth node) +:+ "├── " +:+ node_name node
  +:+ (if node_is_dir node then "/" else "") +:+ newline.

(** The same line as the specification words it, without the four spaces. *)
Definition claimed_node_line (node : Node) : string :=
  Repeat "│   " (node_depth node) +:+ "├── " +:+ node_name node
  +:+ (if node_is_dir node then "/" else "") +:+ newline.

Fixpoint concat_lines (lines : list string) : string :=
  match lines with
  | [] => EmptyString
  | line :: rest => line +:+ concat_lines rest
  end.

Definition structure_text (line : Node -> string) (rootName : string)
    (nodes : list Node) : string :=
  "Directory structure:" +:+ newline
  +:+ "└── " +:+ rootName +:+ "/" +:+ newline
  +:+ concat_lines (line <$> nodes).

Section RendererSpecification.

Context `{GoLibrary}.

(** The nodes the loops of the renderer emit, with the set of directory
    prefixes already emitted. *)
Definition component_nodes (components : list string) (i : nat)
    (dirs : gmap string bool) : list Node * gmap string bool :=
  let currentPath := filepath_Join (take (i + 1) components) in
  let isLastComponent := Z.of_nat i =? Z.of_nat (length components) - 1 in
  if negb isLastComponent && negb (dirs_get dirs currentPath) then
    ([{| node_depth := i; node_name := default EmptyString (components !! i);
         node_is_dir := true |}],
     <[currentPath := true]> dirs)
  else if isLastComponent then
    ([{| node_depth := i; node_name := default EmptyString (components !! i);
         node_is_dir := false |}],
     dirs)
  else ([], dirs).

Fixpoint components_nodes (components : list string) (indices : list nat)
    (dirs : gmap string bool) : list Node * gmap string bool :=
  match indices with
  | [] => ([], dirs)
  | i :: rest =>
    let '(nodes, dirs) := component_nodes components i dirs in
    let '(more, dirs) := components_nodes components rest dirs in
    (nodes ++ more, dirs)
  end.

Fixpoint files_nodes (rootPath : string) (files : list FileInfo)
    (dirs : gmap string bool) : list Node * option error :=
  match files with
  | [] => ([], None)
  | fileInfo :: rest =>
    match filepath_Rel rootPath (Path fileInfo) with
    | inl err => ([], Some err)
    | inr relPath =>
      let components := strings.Split relPath "/" in
      let '(nodes, dirs) :=
        components_nodes components (seq 0 (length components)) dirs in
      let '(more, err) := files_nodes rootPath rest dirs in
      (nodes ++ more, err)
    end
  end.

(** A node stands for the component at index [i] of the relative path of
    the file [f]: its depth is [i], its name the component, and it is a
    directory unless the component is the last. *)
Definition node_of (rootPath : string) (f : FileInfo) (node : Node) : Prop :=
  exists relPath i component,
    filepath_Rel rootPath (Path f) = inr relPath
    /\ strings.Split relPath "/" !! i = Some component
    /\ node_depth node = i
    /\ node_name node = component
    /\ (node_is_dir node = true <-> (i + 1 < length (strings.Split relPath "/"))%nat).

(** The root path the renderer works with: the working directory when the
    root directory is [.], the root directory otherwise. *)
Definition root_path (options : Options) (w : World) : error + string :=
  if String.eqb (rootDir options) "." then w_getwd w else inr (rootDir options).

(** The slice as [sort.Slice] leaves it. *)
Definition sorted_files (files : slice_ref) (w : World) : list FileInfo :=
  sort_Slice (read_slice files w).1 path_less.

End RendererSpecification.

(** The records are in ascending order of their paths, compared byte by
    byte as Go compares strings. *)
Definition path_ascending (l : list FileInfo) : Prop :=
  Sorted (fun a b => String.leb (Path a) (Path b) = true) l.

(** The directory prefixes of a file: the keys under which the renderer
    records the directories above it. *)
Definition prefix_keys `{GoLibrary} (components : list string) (indices : list nat)
    : list string :=
  (fun i => filepath_Join (take (i + 1) components))
  <$> filter (fun i => Z.of_nat i <> Z.of_nat (length components) - 1) indices.

Definition dir_prefixes `{GoLibrary} (rootPath : string) (f : FileInfo) : list string :=
  match filepath_Rel rootPath (Path f) with
  | inl _ => []
  | inr relPath =>
    let components := strings.Split relPath "/" in
    prefix_keys components (seq 0 (length components))
  end.

(** The node is a file line. *)
Definition is_file (node : Node) : bool := negb (node_is_dir node).

(** Every directory recorded in the map is recorded as emitted. *)
Definition all_emitted (dirs : gmap string bool) : Prop :=
  forall k, dirs_get dirs k = true <-> k ∈ dom dirs.

(** The first byte of a text, and the two lines every structure file
    begins with. *)
Definition first_byte (s : string) : option ascii :=
  match s with
  | EmptyString => None
  | String c _ => Some c
  end.

Definition structure_head (rootName : string) : string :=
  "Directory structure:" +:+ newline +:+ "└── " +:+ rootName +:+ "/" +:+ newline.

(** ** The listing of a walk *)

Section WalkListing.

Context `{GoLibrary}.

(** The records of the files under [info] at [path] that pass the filter
    and can be read, in the order the walk visits them: the names of a
    directory in the order [readDirNames] gives them, what lies below a
    name before the next name. *)
Fixpoint kept (options : Options) (path : string) (info : Entry) {struct info}
  : list FileInfo :=
  match info with
  | File size (inr content) =>
    if includeFile options path
    then [{| Path := path; IsDir := false; Size := size; Content := content |}]
    else []
  | Dir names =>
    (fix kept_names (names : list (string * Entry)) : list FileInfo :=
       match names with
       | [] => []
       | (name, child) :: rest =>
         kept options (filepath_Join [path; name]) child ++ kept_names rest
       end) names
  | _ => []
  end.

Fixpoint kept_names (options : Options) (path : string)
    (names : list (string * Entry)) : list FileInfo :=
  match names with
  | [] => []
  | (name, child) :: rest =>
    kept options (filepath_Join [path; name]) child ++ kept_names options path rest
  end.

End WalkListing.

(** ** The summary, the console and the stages of [main] *)

(** The summary file for the statistics [stats]. *)
Definition summary_text `{GoLibrary} (stats : Statistics) : string :=
  "Statistics Summary" +:+ newline
  +:+ "=================" +:+ newline
  +:+ "Total files processed: " +:+ fmt_d (TotalFiles stats) +:+ newline
  +:+ "Total file size: "
  +:+ fmt_f2 (float64_div (float64_of_int (TotalSize stats)) (float64_of_int 1024))
  +:+ " KB ("
  +:+ fmt_f2 (float64_div (float64_of_int (TotalSize stats))
                          (float64_of_int (1024 * 1024)))
  +:+ " MB)" +:+ newline
  +:+ "Average file size: "
  +:+ fmt_f2 (float64_div (AverageFileSize stats) (float64_of_int 1024))
  +:+ " KB" +:+ newline
  +:+ "Total tokens: " +:+ fmt_d (TotalTokens stats) +:+ newline
  +:+ "Average tokens per file: " +:+ fmt_f2 (AverageTokens stats) +:+ newline.

(** The statistics of a list of records: the count, the totals as 64-bit
    sums, and the averages as [float64] quotients, 0 for the empty list. *)
Definition statistics_of `{GoLibrary} (files : list FileInfo) : Statistics :=
  let n := Z.of_nat (length files) in
  let size := wrap64 (sum (Size <$> files)) in
  let tokens := wrap64 (sum (countTokens ∘ Content <$> files)) in
  {| TotalFiles := n;
     TotalSize := size;
     AverageFileSize :=
       if 0 <? n then float64_div (float64_of_int size) (float64_of_int n)
       else float64_zero;
     TotalTokens := tokens;
     AverageTokens :=
       if 0 <? n then float64_div (float64_of_int tokens) (float64_of_int n)
       else float64_zero |}.

(** Every record of the list has a path relative to the root path. *)
Definition all_relative `{GoLibrary} (rootPath : string) (files : list FileInfo) : Prop :=
  Forall (fun f => exists relPath, filepath_Rel rootPath (Path f) = inr relPath) files.

Section Console.

Context `{GoLibrary}.

(** What [main] prints before the walk, and after the last stage. *)
Definition options_echo (options : Options) : string :=
  "Analyzing directory: " +:+ rootDir options +:+ newline
  +:+ "Included extensions: " +:+ fmt_v_strings (includeExts options) +:+ newline
  +:+ "Excluded extensions: " +:+ fmt_v_strings (excludeExts options) +:+ newline
  +:+ "Structure file: " +:+ structureFile options +:+ newline
  +:+ "Content file: " +:+ contentFile options +:+ newline
  +:+ "Summary file: " +:+ summaryFile options +:+ newline.

Definition console_summary (stats : Statistics) : string :=
  "Processing completed successfully!" +:+ newline
  +:+ newline +:+ "Statistics Summary:" +:+ newline
  +:+ "Total files processed: " +:+ fmt_d (TotalFiles stats) +:+ newline
  +:+ "Total file size: "
  +:+ fmt_f2 (float64_div (float64_of_int (TotalSize stats)) (float64_of_int 1024))
  +:+ " KB" +:+ newline
  +:+ "Average file size: "
  +:+ fmt_f2 (float64_div (AverageFileSize stats) (float64_of_int 1024))
  +:+ " KB" +:+ newline
  +:+ "Total tokens: " +:+ fmt_d (TotalTokens stats) +:+ newline
  +:+ "Average tokens per file: " +:+ fmt_f2 (AverageTokens stats) +:+ newline.

(** [main] stage by stage: the state each stage leaves, and the line
    printed where a stage fails. *)
Definition main_stages (flags : Flags) (w : World) : Z * World :=
  let options := options_of flags in
  let failed (stage : string) (err : error) (w : World) :=
    (1, with_stdout (w_stdout w +:+ stage +:+ Error err +:+ newline) w) in
  if w_missing w (rootDir options) then
    (1, with_stdout (w_stdout w +:+ "Directory " +:+ rootDir options
                     +:+ " does not exist" +:+ newline) w)
  else
    let walked := walkDirectory options
                    (with_stdout (w_stdout w +:+ options_echo options) w) in
    match walked.1.2 with
    | Some err => failed "Error analyzing directory: " err walked.2
    | None =>
      let rendered := generateStructureFile walked.1.1 options walked.2 in
      match rendered.1 with
      | Some err => failed "Error generating structure file: " err rendered.2
      | None =>
        let written := generateContentFile walked.1.1 options rendered.2 in
        match written.1.2 with
        | Some err => failed "Error generating content file: " err written.2
        | None =>
          let reported := generateSummaryFile written.1.1 options written.2 in
          match reported.1 with
          | Some err => failed "Error generating summary file: " err reported.2
          | None =>
            (0, with_stdout (w_stdout reported.2 +:+ console_summary written.1.1)
                            reported.2)
          end
        end
      end
    end.

End Console.


(** ** Paths on linux *)

(** The path begins with the separator. *)
Definition rooted (path : string) : bool :=
  (0 <? len path)%nat && (at_ path 0 =? filepath.Separator).


(** ** Example runs *)

Module Example.

(** A root [/w/r] with a directory [a] holding [b.go], and the files
    [a.go], [b.md] and [c.html]. *)
Definition tree : Entry :=
  Dir [("a", Dir [("b.go", File 3 (inr "x y"))]);
       ("a.go", File 12 (inr "package main"));
       ("b.md", File 13 (inr ("# Title" +:+ newline +:+ "text")));
       ("c.html", File 1 (inr "h"))].

Definition world_of (root : string) (tree : Entry) : World :=
  {| w_tree := fun p => if String.eqb p root then tree
                        else LstatFails "no such file or directory";
     w_missing := fun p => negb (String.eqb p root);
     w_getwd := inr "/w";
     w_create_errno := fun _ => None;
     w_files := ∅;
     w_stdout := EmptyString;
     w_heap := ∅ |}.

Definition world : World := world_of "/w/r" tree.

Definition flags : Flags :=
  {| flag_dir := "/w/r"; flag_include := "go,md,html"; flag_exclude := "HTML";
     flag_structure := "tree.txt"; flag_content := "content.txt";
     flag_summary := "summary.txt" |}.

(** The same root with a file [b.md] that cannot be read. *)
Definition broken_tree : Entry :=
  Dir [("a.go", File 12 (inr "package main"));
       ("b.md", File 13 (inl ("open", "permission denied")));
       ("c.go", File 1 (inr "c"))].

Definition broken_world : World := world_of "/w/r" broken_tree.

End Example.

Module Example2.

(** The run of the example up to the aggregator: the state after the walk
    and after the renderer, and the slice the walk returned. *)
Definition options : Options := options_of Example.flags.

Definition files : slice_ref := (walkDirectory options Example.world).1.1.

Definition walked : World := (walkDirectory options Example.world).2.

Definition rendered : World := (generateStructureFile files options walked).2.

(** The default flags in a working directory [/w] that holds [a.go]. *)
Definition dot_world : World :=
  {| w_tree := fun p => if String.eqb p "." then Dir [("a.go", File 12 (inr "package main"))]
                        else LstatFails "no such file or directory";
     w_missing := fun p => negb (String.eqb p ".");
     w_getwd := inr "/w";
     w_create_errno := fun _ => None;
     w_files := ∅;
     w_stdout := EmptyString;
     w_heap := ∅ |}.

End Example2.

Module Example3.

(** The root of the example where the summary file cannot be made. *)
Definition summary_denied : World :=
  {| w_tree := w_tree Example.world;
     w_missing := w_missing Example.world;
     w_getwd := inr "/w";
     w_create_errno := fun name => if String.eqb name "summary.txt"
                                   then Some "permission denied" else None;
     w_files := ∅;
     w_stdout := EmptyString;
     w_heap := ∅ |}.

(** The working directory with [a.go], where [os.Getwd] fails. *)
Definition no_getwd : World :=
  {| w_tree := w_tree Example2.dot_world;
     w_missing := w_missing Example2.dot_world;
     w_getwd := inl (errorString "getwd: no such file or directory");
     w_create_errno := fun _ => None;
     w_files := ∅;
     w_stdout := EmptyString;
     w_heap := ∅ |}.

(** The slice the walk returns for the default flags, and the state after
    the walk, in the working directory with [a.go]. *)
Definition dot_files : slice_ref :=
  (walkDirectory (options_of default_flags) Example2.dot_world).1.1.

Definition dot_walked : World :=
  (walkDirectory (options_of default_flags) Example2.dot_world).2.

(** The flags of the example with a root that is not there. *)
Definition flags_nowhere : Flags :=
  {| flag_dir := "/nowhere"; flag_include := "go"; flag_exclude := "";
     flag_structure := "tree.txt"; flag_content := "content.txt";
     flag_summary := "summary.txt" |}.

End Example3.

(** * Properties *)

(** ** Go strings *)

Lemma app_cons (c : ascii) (s t : string) : String c s +:+ t = String c (s +:+ t).
Proof. reflexivity. Qed.

Lemma app_empty_l (s : string) : EmptyString +:+ s = s.
Proof. reflexivity. Qed.

Lemma app_empty_r (s : string) : s +:+ EmptyString = s.
Proof. induction s as [|c s IH]; [done|]. by rewrite app_cons, IH. Qed.

Lemma app_assoc_str (s t u : string) : (s +:+ t) +:+ u = s +:+ (t +:+ u).
Proof. induction s as [|c s IH]; [done|]. by rewrite !app_cons, IH. Qed.

Lemma len_app (s t : string) : len (s +:+ t) = (len s + len t)%nat.
Proof. induction s as [|c s IH]; [done|]. rewrite app_cons. simpl. by rewrite IH. Qed.

Lemma len_tail_from (n : nat) (s : string) : len (tail_from n s) = (len s - n)%nat.
Proof.
  revert s. induction n as [|n IH]; intros [|c s]; simpl; try done; lia.
Qed.

Lemma len_head_to (n : nat) (s : string) : len (head_to n s) = Nat.min n (len s).
Proof.
  revert s. induction n as [|n IH]; intros [|c s]; simpl; try done.
  by rewrite IH.
Qed.

Lemma len_slice (s : string) (i j : nat) :
  (i <= j <= len s)%nat -> len (slice s i j) = (j - i)%nat.
Proof. intros Hij. unfold slice. rewrite len_head_to, len_tail_from. lia. Qed.

(** ** Slices *)

Lemma head_to_tail_from (n : nat) (s : string) : head_to n s +:+ tail_from n s = s.
Proof.
  revert s. induction n as [|n IH]; intros [|c s]; cbn; try done.
  by rewrite app_cons, IH.
Qed.

Lemma head_to_all (n : nat) (s : string) : (len s <= n)%nat -> head_to n s = s.
Proof.
  revert s. induction n as [|n IH]; intros [|c s]; cbn; try done; try lia.
  intros Hn. rewrite IH; [done|lia].
Qed.

Lemma tail_from_all (n : nat) (s : string) :
  (len s <= n)%nat -> tail_from n s = EmptyString.
Proof.
  revert s. induction n as [|n IH]; intros [|c s]; cbn; try done; try lia.
  intros Hn. apply IH. lia.
Qed.

Lemma tail_from_tail_from (a b : nat) (s : string) :
  tail_from a (tail_from b s) = tail_from (b + a) s.
Proof.
  revert s. induction b as [|b IH]; intros s; [done|].
  destruct s as [|c s]; cbn; [by destruct a|]. apply IH.
Qed.

Lemma tail_from_head_to (a n : nat) (s : string) :
  tail_from a (head_to n s) = head_to (n - a) (tail_from a s).
Proof.
  revert n s. induction a as [|a IH]; intros [|n] [|c s]; cbn; try done.
  by destruct (n - a)%nat.
Qed.

Lemma head_to_head_to (a b : nat) (s : string) :
  head_to a (head_to b s) = head_to (Nat.min a b) s.
Proof.
  revert b s. induction a as [|a IH]; intros [|b] [|c s]; cbn; try done.
  by rewrite IH.
Qed.

Lemma slice_0 (s : string) (j : nat) : slice s 0 j = head_to j s.
Proof. unfold slice. cbn. by rewrite Nat.sub_0_r. Qed.

Lemma slice_to_end (s : string) (i : nat) : slice s i (len s) = tail_from i s.
Proof. unfold slice. apply head_to_all. rewrite len_tail_from. lia. Qed.

Lemma at_tail_from (s : string) (i j : nat) : at_ (tail_from i s) j = at_ s (i + j).
Proof. unfold at_. by rewrite tail_from_tail_from. Qed.

Lemma at_head_to (s : string) (n j : nat) :
  (j < n)%nat -> at_ (head_to n s) j = at_ s j.
Proof.
  intros Hj. unfold at_. rewrite tail_from_head_to.
  destruct (tail_from j s) as [|c t]; [by destruct (n - j)%nat|].
  destruct (n - j)%nat eqn:E; [lia|done].
Qed.

Lemma tail_from_nonempty (s : string) (i : nat) :
  (i < len s)%nat -> exists c t, tail_from i s = String c t.
Proof.
  intros Hi. destruct (tail_from i s) as [|c t] eqn:E; [|by eauto].
  apply (f_equal len) in E. rewrite len_tail_from in E. cbn in E. lia.
Qed.

Lemma tail_from_app (p u : string) : tail_from (len p) (p +:+ u) = u.
Proof. induction p as [|c p IH]; [done|]. by rewrite app_cons. Qed.

Lemma tail_from_app_r (p u : string) (j : nat) :
  tail_from (len p + j) (p +:+ u) = tail_from j u.
Proof. by rewrite <- tail_from_tail_from, tail_from_app. Qed.

Lemma at_app_r (p u : string) (j : nat) : at_ (p +:+ u) (len p + j) = at_ u j.
Proof. unfold at_. by rewrite tail_from_app_r. Qed.

Lemma at_byte (s : string) (i : nat) :
  (i < len s)%nat -> exists c, at_ s i = byte c.
Proof.
  intros Hi. destruct (tail_from_nonempty s i Hi) as (c & t & E).
  exists c. unfold at_. by rewrite E.
Qed.

(** ** The extension normalizer *)

Lemma is_empty_spec (s : string) : is_empty s = true <-> s = EmptyString.
Proof. destruct s; simpl; split; congruence. Qed.

Lemma normalizeExtensions_loop_spec (exts result : list string) :
  normalizeExtensions_loop exts result = result ++ normalized_spec exts.
Proof.
  revert result. induction exts as [|ext rest IH]; intros result.
  - simpl. by rewrite app_nil_r.
  - cbn [normalizeExtensions_loop]. unfold normalized_spec in *.
    rewrite fmap_cons.
    destruct (strings.TrimSpace ext) as [|c t] eqn:E.
    + cbn [is_empty]. rewrite IH, filter_cons_False; [done|]. intros Hne; by apply Hne.
    + cbn [is_empty]. rewrite IH, filter_cons_True by done.
      rewrite fmap_cons, <- app_assoc. do 2 f_equal.
      unfold dotted. by destruct (HasPrefix _ _).
Qed.

Lemma normalizeExtensions_spec (exts : list string) :
  normalizeExtensions exts = normalized_spec exts.
Proof. unfold normalizeExtensions. by rewrite normalizeExtensions_loop_spec. Qed.

Lemma HasPrefix_dotted (t : string) : HasPrefix (dotted t) "." = true.
Proof.
  unfold dotted. destruct (HasPrefix t ".") eqn:E; [done|].
  change ("." +:+ t) with (String "." t). done.
Qed.

Lemma dotted_nonempty (t : string) : dotted t <> EmptyString.
Proof.
  unfold dotted. destruct (HasPrefix t ".") eqn:E; [|done].
  by destruct t.
Qed.

Lemma length_filter_fmap {A B : Type} (f : A -> B) (P : B -> Prop)
    `{!forall x, Decision (P x)} (l : list A) :
  length (filter P (f <$> l)) = length (filter (fun x => P (f x)) l).
Proof.
  induction l as [|x l IH]; [done|]. rewrite fmap_cons.
  destruct (decide (P (f x))) as [Hx|Hx].
  - rewrite !filter_cons_True by done. simpl. by rewrite IH.
  - by rewrite !filter_cons_False.
Qed.

(** C5.  Normalization yields, in input order, the tokens that are
    non-empty once trimmed, each trimmed and given a leading dot unless it
    has one; every entry of the result is non-empty and starts with a dot;
    and the result has one entry for every token that is non-empty once
    trimmed, so nothing is dropped but empty tokens, and no duplicate is
    removed. *)
Theorem normalizeExtensions_contract (exts : list string) :
  normalizeExtensions exts
  = dotted <$> filter (fun t => t <> EmptyString) (strings.TrimSpace <$> exts)
  /\ Forall (fun e => e <> EmptyString /\ HasPrefix e "." = true)
            (normalizeExtensions exts)
  /\ length (normalizeExtensions exts)
     = length (filter (fun t => strings.TrimSpace t <> EmptyString) exts).
Proof.
  rewrite normalizeExtensions_spec. unfold normalized_spec.
  split; [done|]. split.
  - apply Forall_fmap, Forall_forall. intros t _. simpl.
    split; [apply dotted_nonempty | apply HasPrefix_dotted].
  - by rewrite length_fmap, length_filter_fmap.
Qed.

(** ** UTF-8 decoding and trimming *)

Lemma byte_range (c : ascii) : 0 <= byte c < 256.
Proof.
  unfold byte. pose proof (N_ascii_bounded c) as Hb. lia.
Qed.

(** The values of [first]. *)
Lemma first_cases (b : Z) :
  (b < 0x80 /\ utf8.first b = 0xF0)
  \/ ((0x80 <= b < 0xC2 \/ 0xF5 <= b) /\ utf8.first b = 0xF1)
  \/ (0xC2 <= b < 0xF5
      /\ (utf8.first b = 0x02 \/ utf8.first b = 0x13 \/ utf8.first b = 0x03
          \/ utf8.first b = 0x23 \/ utf8.first b = 0x34 \/ utf8.first b = 0x04
          \/ utf8.first b = 0x44)).
Proof.
  unfold utf8.first.
  repeat match goal with
         | |- context [if ?c then _ else _] => destruct c eqn:?
         end;
  repeat match goal with
         | Hc : (_ <? _) = true |- _ => apply Z.ltb_lt in Hc
         | Hc : (_ <? _) = false |- _ => apply Z.ltb_ge in Hc
         | Hc : (_ =? _) = true |- _ => apply Z.eqb_eq in Hc
         | Hc : (_ =? _) = false |- _ => apply Z.eqb_neq in Hc
         end; try lia; (right; right; split; [lia|tauto]) || (right; left; split; [lia|done]) || (left; split; [lia|done]).
Qed.

(** The accept range of a multi-byte first byte lies within the
    continuation bytes. *)
Lemma accept_continuation (b : Z) :
  0xC2 <= b < 0xF5 ->
  let x := utf8.first b in
  (0xF0 <=? x) = false
  /\ 2 <= Z.land x 7 <= 4
  /\ 0x80 <= fst (utf8.acceptRanges (Z.shiftr x 4))
  /\ snd (utf8.acceptRanges (Z.shiftr x 4)) <= 0xBF.
Proof.
  intros Hb x. subst x.
  destruct (first_cases b) as [[? _]|[[? _]|[_ Hx]]]; [lia|lia|].
  destruct Hx as [->|[->|[->|[->|[->|[->| ->]]]]]]; vm_compute; repeat split; congruence.
Qed.

Lemma decode_ascii (c : ascii) (t : string) :
  byte c < 0x80 -> utf8.DecodeRuneInString (String c t) = (byte c, 1%nat).
Proof.
  intros Hc. unfold utf8.DecodeRuneInString.
  destruct (first_cases (byte c)) as [[_ ->]|[[? _]|[? _]]]; [done|lia|lia].
Qed.

Lemma decode_bad_first (c : ascii) (t : string) :
  0x80 <= byte c < 0xC2 \/ 0xF5 <= byte c ->
  utf8.DecodeRuneInString (String c t) = invalid.
Proof.
  intros Hc. unfold utf8.DecodeRuneInString.
  destruct (first_cases (byte c)) as [[? _]|[[_ ->]|[? _]]]; [lia|done|lia].
Qed.

Lemma decode_size (s : string) :
  s <> EmptyString ->
  (1 <= snd (utf8.DecodeRuneInString s) <= len s)%nat
  /\ (snd (utf8.DecodeRuneInString s) <= 4)%nat.
Proof.
  destruct s as [|c0 t0]; [done|]. intros _.
  unfold utf8.DecodeRuneInString.
  destruct (0xF0 <=? utf8.first (byte c0)); [cbn; lia|].
  destruct (Z.of_nat (len (String c0 t0)) <? Z.land (utf8.first (byte c0)) 7);
    [cbn; lia|].
  destruct t0 as [|c1 t1]; [cbn; lia|].
  destruct (_ || _); [cbn; lia|].
  destruct (_ <=? 2); [cbn; lia|].
  destruct t1 as [|c2 t2]; [cbn; lia|].
  destruct (_ || _); [cbn; lia|].
  destruct (_ <=? 3); [cbn; lia|].
  destruct t2 as [|c3 t3]; [cbn; lia|].
  destruct (_ || _); cbn; lia.
Qed.

(** A valid encoding at the front of a text decodes the same whatever
    follows it. *)
Lemma decode_app (s t : string) :
  s <> EmptyString ->
  utf8.DecodeRuneInString s <> invalid ->
  utf8.DecodeRuneInString (s +:+ t) = utf8.DecodeRuneInString s.
Proof.
  destruct s as [|c0 t0]; [done|]. intros _. rewrite app_cons.
  unfold utf8.DecodeRuneInString, invalid.
  destruct (0xF0 <=? utf8.first (byte c0)); [done|].
  cbn [len]. rewrite len_app.
  destruct (Z.of_nat (S (len t0)) <? Z.land (utf8.first (byte c0)) 7) eqn:Hn;
    [done|].
  apply Z.ltb_ge in Hn.
  replace (Z.of_nat (S (len t0 + len t)) <? Z.land (utf8.first (byte c0)) 7)
    with false by (symmetry; apply Z.ltb_ge; lia).
  destruct t0 as [|c1 t1]; [done|]. rewrite app_cons.
  destruct (_ || _); [done|].
  destruct (_ <=? 2); [done|].
  destruct t1 as [|c2 t2]; [done|]. rewrite app_cons.
  destruct (_ || _); [done|].
  destruct (_ <=? 3); [done|].
  destruct t2 as [|c3 t3]; [done|]. rewrite app_cons.
  by destruct (_ || _).
Qed.

(** A first byte followed by a byte that is not a continuation byte is a
    rune of width 1. *)
Lemma decode_lone (c0 c1 : ascii) (t : string) :
  ~ continuation (byte c1) ->
  snd (utf8.DecodeRuneInString (String c0 (String c1 t))) = 1%nat.
Proof.
  intros Hc1. unfold continuation in Hc1.
  destruct (first_cases (byte c0)) as [[Hb _]|[[Hb _]|[Hb _]]].
  - by rewrite decode_ascii.
  - by rewrite decode_bad_first.
  - destruct (accept_continuation _ Hb) as (Hx & Hsz & Hlo & Hhi).
    unfold utf8.DecodeRuneInString. rewrite Hx.
    destruct (_ <? Z.land _ 7); [done|].
    replace ((byte c1 <? (utf8.acceptRanges (Z.shiftr (utf8.first (byte c0)) 4)).1)
             || ((utf8.acceptRanges (Z.shiftr (utf8.first (byte c0)) 4)).2 <? byte c1))
      with true; [done|].
    symmetry. apply orb_true_iff. rewrite Z.ltb_lt, Z.ltb_lt. lia.
Qed.

Lemma decode_valid_first (c0 : ascii) (t : string) :
  utf8.DecodeRuneInString (String c0 t) <> invalid -> ~ continuation (byte c0).
Proof.
  intros Hv Hc. apply Hv, decode_bad_first. unfold continuation in Hc. lia.
Qed.

(** The bytes of a valid encoding after the first are continuation
    bytes. *)
Lemma decode_valid_rest (s : string) (j : nat) :
  utf8.DecodeRuneInString s <> invalid ->
  (1 <= j < snd (utf8.DecodeRuneInString s))%nat ->
  continuation (at_ s j).
Proof.
  destruct s as [|c0 t0]; [cbn; lia|].
  destruct (first_cases (byte c0)) as [[Hb _]|[[Hb _]|[Hb _]]].
  - rewrite decode_ascii by done. cbn. lia.
  - rewrite decode_bad_first by done. cbn. lia.
  - destruct (accept_continuation _ Hb) as (Hx & Hsz & Hlo & Hhi).
    unfold utf8.DecodeRuneInString, invalid, continuation. rewrite Hx.
    destruct (_ <? Z.land _ 7); [done|].
    destruct t0 as [|c1 t1]; [done|].
    destruct (_ || _) eqn:H1; [done|].
    apply orb_false_iff in H1 as [H1lo H1hi].
    apply Z.ltb_ge in H1lo, H1hi.
    destruct (_ <=? 2).
    { cbn [snd]. intros _ Hj. assert (j = 1%nat) as -> by lia. cbn. lia. }
    destruct t1 as [|c2 t2]; [done|].
    destruct (_ || _) eqn:H2; [done|].
    apply orb_false_iff in H2 as [H2lo H2hi].
    apply Z.ltb_ge in H2lo, H2hi. unfold utf8.locb, utf8.hicb in *.
    destruct (_ <=? 3).
    { cbn [snd]. intros _ Hj.
      assert (j = 1%nat \/ j = 2%nat) as [-> | ->] by lia; cbn; lia. }
    destruct t2 as [|c3 t3]; [done|].
    destruct (_ || _) eqn:H3; [done|].
    apply orb_false_iff in H3 as [H3lo H3hi].
    apply Z.ltb_ge in H3lo, H3hi.
    cbn [snd]. intros _ Hj.
    assert (j = 1%nat \/ j = 2%nat \/ j = 3%nat) as [-> | [-> | ->]] by lia; cbn; lia.
Qed.

Lemma RuneStart_byte (c : ascii) :
  utf8.RuneStart (byte c) = negb ((0x80 <=? byte c) && (byte c <=? 0xBF)).
Proof. by destruct c as [[] [] [] [] [] [] [] []]. Qed.

Lemma RuneStart_continuation (c : ascii) :
  utf8.RuneStart (byte c) = false <-> continuation (byte c).
Proof.
  rewrite RuneStart_byte, negb_false_iff, andb_true_iff, Z.leb_le, Z.leb_le.
  done.
Qed.

Lemma back_to_start_le (fuel : nat) (s : string) (start lim : Z) :
  utf8.back_to_start fuel s start lim <= start.
Proof.
  revert start. induction fuel as [|fuel IH]; intros start; cbn; [lia|].
  destruct (start <? lim); [lia|].
  destruct (utf8.RuneStart _); [lia|]. specialize (IH (start - 1)). lia.
Qed.

Lemma back_to_start_found (s : string) (lim target : Z) (fuel : nat) (start : Z) :
  lim <= target <= start ->
  start - target < Z.of_nat fuel ->
  utf8.RuneStart (at_ s (Z.to_nat target)) = true ->
  (forall j, target < j <= start -> utf8.RuneStart (at_ s (Z.to_nat j)) = false) ->
  utf8.back_to_start fuel s start lim = target.
Proof.
  revert start. induction fuel as [|fuel IH]; intros start Ht Hf Hstart Hcont; [lia|].
  cbn. replace (start <? lim) with false by (symmetry; apply Z.ltb_ge; lia).
  destruct (Z.eq_dec start target) as [->|Hne].
  - by rewrite Hstart.
  - rewrite Hcont by lia. apply IH; try done; try lia.
    intros j Hj. apply Hcont. lia.
Qed.

(** What [DecodeLastRuneInString] returns is the decoding of the bytes at
    the end of the text that it covers, unless it is the invalid rune. *)
Lemma decode_last_sound (s : string) :
  s <> EmptyString ->
  utf8.DecodeLastRuneInString s = invalid
  \/ ((1 <= snd (utf8.DecodeLastRuneInString s) <= len s)%nat
      /\ utf8.DecodeRuneInString
           (tail_from (len s - snd (utf8.DecodeLastRuneInString s)) s)
         = utf8.DecodeLastRuneInString s
      /\ utf8.DecodeLastRuneInString s <> invalid).
Proof.
  intros Hs. assert (0 < len s)%nat as Hlen by (destruct s; [done|cbn; lia]).
  unfold utf8.DecodeLastRuneInString.
  replace (Z.of_nat (len s) =? 0) with false by (symmetry; apply Z.eqb_neq; lia).
  replace (Z.to_nat (Z.of_nat (len s) - 1)) with (len s - 1)%nat by lia.
  destruct (tail_from_nonempty s (len s - 1)) as (c & t & Hlast); [lia|].
  assert (at_ s (len s - 1) = byte c) as Hat by (unfold at_; by rewrite Hlast).
  rewrite Hat.
  destruct (byte c <? utf8.RuneSelf) eqn:Hc.
  - apply Z.ltb_lt in Hc. unfold utf8.RuneSelf in Hc. right. cbn [snd].
    rewrite Hlast, decode_ascii by done. split; [lia|]. split; [done|].
    unfold invalid, utf8.RuneError. intros [= Heq]. lia.
  - set (start := Z.max 0 _).
    assert (0 <= start < Z.of_nat (len s)) as Hstart.
    { subst start.
      match goal with
      | |- context [utf8.back_to_start ?f ?s ?a ?l] =>
        pose proof (back_to_start_le f s a l)
      end. lia. }
    replace (Z.to_nat (Z.of_nat (len s))) with (len s) by lia.
    rewrite slice_to_end.
    destruct (utf8.DecodeRuneInString (tail_from (Z.to_nat start) s))
      as [r size] eqn:Hdec.
    destruct (start + Z.of_nat size =? Z.of_nat (len s)) eqn:Hsize; [|by left].
    apply Z.eqb_eq in Hsize.
    destruct (decide ((r, size) = invalid)) as [Hinv|Hinv]; [by left|].
    right. cbn [snd].
    destruct (tail_from_nonempty s (Z.to_nat start)) as (c' & t' & Htail); [lia|].
    pose proof (decode_size (tail_from (Z.to_nat start) s)) as [Hsz _].
    { by rewrite Htail. }
    rewrite Hdec in Hsz. cbn [snd] in Hsz.
    split; [lia|]. split; [|done].
    replace (len s - size)%nat with (Z.to_nat start) by lia. done.
Qed.

(** A valid encoding at the end of a text is what
    [DecodeLastRuneInString] returns. *)
Lemma decode_last_complete (p u : string) :
  u <> EmptyString ->
  utf8.DecodeRuneInString u <> invalid ->
  snd (utf8.DecodeRuneInString u) = len u ->
  utf8.DecodeLastRuneInString (p +:+ u) = utf8.DecodeRuneInString u.
Proof.
  intros Hu Hvalid Hk.
  assert (0 < len u <= 4)%nat as Hlen.
  { destruct (decode_size u Hu) as [? ?]. lia. }
  unfold utf8.DecodeLastRuneInString. rewrite len_app.
  replace (Z.of_nat (len p + len u) =? 0) with false
    by (symmetry; apply Z.eqb_neq; lia).
  replace (Z.to_nat (Z.of_nat (len p + len u) - 1))
    with (len p + (len u - 1))%nat by lia.
  rewrite at_app_r.
  destruct u as [|c0 t0]; [done|].
  destruct (decide (len (String c0 t0) = 1%nat)) as [Hone|Hmore].
  - (* one byte: it is ASCII *)
    destruct t0; [|cbn in Hone; lia]. cbn [len Nat.sub at_ tail_from].
    destruct (first_cases (byte c0)) as [[Hb _]|[[Hb _]|[Hb _]]].
    + rewrite decode_ascii by done.
      by replace (byte c0 <? utf8.RuneSelf) with true
        by (symmetry; apply Z.ltb_lt; unfold utf8.RuneSelf; lia).
    + exfalso. by apply Hvalid, decode_bad_first.
    + exfalso. apply Hvalid.
      destruct (accept_continuation _ Hb) as (Hx & Hsz & _).
      unfold utf8.DecodeRuneInString. rewrite Hx. cbn [len].
      by replace (Z.of_nat 1 <? Z.land (utf8.first (byte c0)) 7) with true
        by (symmetry; apply Z.ltb_lt; lia).
  - (* several bytes: the last is a continuation byte, the search stops at
       the first *)
    assert (Hcont : forall j, (1 <= j < len (String c0 t0))%nat ->
                              continuation (at_ (String c0 t0) j)).
    { intros j Hj. apply decode_valid_rest; [done|]. by rewrite Hk. }
    destruct (Hcont (len (String c0 t0) - 1)%nat) as [Hlo Hhi]; [lia|].
    replace (at_ (String c0 t0) (len (String c0 t0) - 1) <? utf8.RuneSelf)
      with false by (symmetry; apply Z.ltb_ge; unfold utf8.RuneSelf; lia).
    set (u := String c0 t0) in *.
    set (n := Z.of_nat (len p)). set (k := Z.of_nat (len u)).
    replace (Z.of_nat (len p + len u)) with (n + k) by lia.
    unfold utf8.UTFMax.
    rewrite (back_to_start_found (p +:+ u) (Z.max 0 (n + k - 4)) n); try lia.
    + replace (Z.max 0 n) with n by lia.
      replace (Z.to_nat n) with (len p) by lia.
      replace (Z.to_nat (n + k)) with (len (p +:+ u)) by (rewrite len_app; lia).
      rewrite slice_to_end, tail_from_app.
      destruct (utf8.DecodeRuneInString u) as [r size]. cbn [snd] in Hk.
      by replace (n + Z.of_nat size =? n + k) with true
        by (symmetry; apply Z.eqb_eq; lia).
    + replace (Z.to_nat n) with (len p + 0)%nat by lia. rewrite at_app_r.
      subst u. cbn [at_ tail_from]. rewrite RuneStart_byte.
      pose proof (decode_valid_first c0 t0 Hvalid) as Hfirst.
      unfold continuation in Hfirst.
      destruct (0x80 <=? byte c0) eqn:E1; [|done].
      destruct (byte c0 <=? 0xBF) eqn:E2; [|done].
      apply Z.leb_le in E1, E2. lia.
    + intros j Hj.
      replace (Z.to_nat j) with (len p + Z.to_nat (j - n))%nat by lia.
      rewrite at_app_r.
      destruct (at_byte u (Z.to_nat (j - n))) as [c Hc]; [lia|].
      rewrite Hc. apply RuneStart_continuation. rewrite <- Hc.
      apply Hcont. lia.
Qed.

(** ** Trimming *)

Section Trim.

Context (f : Z -> bool) (f_RuneError : f utf8.RuneError = false).

Lemma range_from_decode (s : string) (i skip k : nat) (r : Z) :
  (k, r) ∈ utf8.range_from i skip s ->
  (i <= k)%nat /\ (utf8.DecodeRuneInString (tail_from (k - i) s)).1 = r.
Proof.
  revert i skip. induction s as [|c t IH]; intros i skip; cbn [utf8.range_from].
  - intros Hin. by apply elem_of_nil in Hin.
  - destruct skip as [|m].
    + destruct (utf8.DecodeRuneInString (String c t)) as [r0 size] eqn:Hdec.
      intros [[= -> ->]|Hin]%elem_of_cons.
      * split; [lia|]. rewrite Nat.sub_diag. cbn [tail_from]. by rewrite Hdec.
      * destruct (IH _ _ Hin) as [Hle Hr]. split; [lia|].
        replace (k - i)%nat with (S (k - S i)) by lia. done.
    + intros Hin. destruct (IH _ _ Hin) as [Hle Hr]. split; [lia|].
      replace (k - i)%nat with (S (k - S i)) by lia. done.
Qed.

Lemma indexFunc_false_spec (rs : list (nat * Z)) :
  strings.indexFunc_false f rs = -1
  \/ exists k r, (k, r) ∈ rs /\ f r = false
                 /\ strings.indexFunc_false f rs = Z.of_nat k.
Proof.
  induction rs as [|[k r] rest IH]; cbn; [by left|].
  destruct (f r) eqn:Hr.
  - destruct IH as [IH|(k' & r' & Hin & Hr' & IH)]; [by left|].
    right. exists k', r'. split; [by right|done].
  - right. exists k, r. split; [left|done].
Qed.

Lemma TrimLeftFunc_left_ok (s : string) : left_ok f (strings.TrimLeftFunc s f).
Proof.
  unfold strings.TrimLeftFunc.
  destruct (indexFunc_false_spec (utf8.range s)) as [->|(k & r & Hin & Hr & ->)].
  - by left.
  - replace (Z.of_nat k =? -1) with false by (symmetry; apply Z.eqb_neq; lia).
    right. apply range_from_decode in Hin as [_ Hdec].
    rewrite Nat2Z.id. rewrite Nat.sub_0_r in Hdec. by rewrite Hdec.
Qed.

Lemma TrimLeftFunc_id (s : string) : left_ok f s -> strings.TrimLeftFunc s f = s.
Proof.
  intros [->|Hs]; [done|]. destruct s as [|c t]; [done|].
  unfold strings.TrimLeftFunc, utf8.range. cbn [utf8.range_from].
  destruct (utf8.DecodeRuneInString (String c t)) as [r size].
  cbn [fst] in Hs. cbn [strings.indexFunc_false]. by rewrite Hs.
Qed.

Lemma head_to_left_ok (s : string) (j : nat) : left_ok f s -> left_ok f (head_to j s).
Proof.
  intros Hs. destruct (head_to j s) as [|c h] eqn:Hh; [by left|]. right.
  destruct (decide (utf8.DecodeRuneInString (String c h) = invalid)) as [->|Hvalid].
  - done.
  - pose proof (decode_app (String c h) (tail_from j s)) as Happ.
    rewrite <- Hh, head_to_tail_from, Hh in Happ.
    rewrite <- Happ by done.
    destruct Hs as [->|Hs]; [by destruct j|done].
Qed.

(** Where [TrimRightFunc] cuts: from the start [i] of the last rune that
    does not satisfy [f] it goes forward by the width of the rune decoded
    there, which is the end [e] of that rune. *)
Lemma forward_width (s : string) (e : nat) :
  boundary s e -> (0 < e)%nat ->
  let i := (e - snd (utf8.DecodeLastRuneInString (head_to e s)))%nat in
  (if (utf8.RuneSelf <=? at_ s i)%Z
   then i + snd (utf8.DecodeRuneInString (tail_from i s))
   else i + 1)%nat = e.
Proof.
  intros [He Hb] Hpos i.
  assert (Hlen : len (head_to e s) = e) by (rewrite len_head_to; lia).
  assert (Hne : head_to e s <> EmptyString).
  { intros E. rewrite E in Hlen. cbn in Hlen. lia. }
  destruct (decode_last_sound (head_to e s) Hne) as [Hinv|(Hsize & Hdec & Hvalid)].
  - (* the last rune is invalid: one byte *)
    subst i. rewrite Hinv. unfold invalid. cbn [snd].
    destruct (utf8.RuneSelf <=? at_ s (e - 1)); [|lia].
    destruct (tail_from_nonempty s (e - 1)) as (b & rest & Htail); [lia|].
    rewrite Htail.
    assert (rest = tail_from e s) as Hrest.
    { replace e with ((e - 1) + 1)%nat at 1 by lia.
      rewrite <- tail_from_tail_from, Htail. done. }
    destruct rest as [|c rest'].
    + pose proof (decode_size (String b EmptyString)) as [Hsz _]; [done|].
      cbn [len] in Hsz. lia.
    + rewrite decode_lone; [lia|].
      destruct Hb as [->|Hb].
      * apply (f_equal len) in Hrest. rewrite len_tail_from in Hrest.
        cbn in Hrest. lia.
      * unfold at_ in Hb. by rewrite <- Hrest in Hb.
  - (* the last rune is a valid encoding: the same forward *)
    rewrite Hlen in Hsize, Hdec. fold i in Hdec.
    set (size := snd (utf8.DecodeLastRuneInString (head_to e s))) in *.
    rewrite tail_from_head_to in Hdec.
    replace (e - i)%nat with size in Hdec by lia.
    assert (Hfwd : utf8.DecodeRuneInString (tail_from i s)
                   = utf8.DecodeLastRuneInString (head_to e s)).
    { rewrite <- (head_to_tail_from size (tail_from i s)).
      rewrite decode_app; [done| |by rewrite Hdec].
      intros E. rewrite E in Hdec. cbn in Hdec.
      apply (f_equal snd) in Hdec. cbn in Hdec. fold size in Hdec. lia. }
    rewrite Hfwd. fold size.
    destruct (utf8.RuneSelf <=? at_ s i) eqn:Hself; [lia|].
    apply Z.leb_gt in Hself. unfold utf8.RuneSelf in Hself.
    destruct (tail_from_nonempty s i) as (b & rest & Htail); [lia|].
    unfold at_ in Hself. rewrite Htail in Hself, Hfwd.
    rewrite decode_ascii in Hfwd by done.
    apply (f_equal snd) in Hfwd. cbn in Hfwd. fold size in Hfwd. lia.
Qed.

(** The loop of [lastIndexFunc]: it returns [-1], or the start of a rune
    that ends at a boundary [e] and does not satisfy [f]. *)
Lemma lastIndexFunc_false_spec (s : string) (fuel i : nat) :
  (i <= fuel)%nat -> boundary s i ->
  strings.lastIndexFunc_false fuel f s i = -1
  \/ exists e : nat,
       boundary s e /\ (0 < e)%nat
       /\ f (utf8.DecodeLastRuneInString (head_to e s)).1 = false
       /\ strings.lastIndexFunc_false fuel f s i
          = Z.of_nat (e - snd (utf8.DecodeLastRuneInString (head_to e s))).
Proof.
  revert i. induction fuel as [|fuel IH]; intros i Hi Hb; [by left|].
  cbn [strings.lastIndexFunc_false].
  destruct (0 <? i)%nat eqn:Hpos; [|by left].
  apply Nat.ltb_lt in Hpos. rewrite slice_0.
  destruct (utf8.DecodeLastRuneInString (head_to i s)) as [r size] eqn:Hlast.
  destruct (f r) eqn:Hr.
  - assert (Hlen : len (head_to i s) = i) by (rewrite len_head_to; destruct Hb; lia).
    assert (Hne : head_to i s <> EmptyString).
    { intros E. rewrite E in Hlen. cbn in Hlen. lia. }
    destruct (decode_last_sound (head_to i s) Hne) as [Hinv|(Hsize & Hdec & Hvalid)].
    { rewrite Hlast in Hinv. injection Hinv as -> _. congruence. }
    rewrite Hlast in Hsize, Hdec, Hvalid. cbn [snd] in Hsize, Hdec.
    rewrite Hlen in Hsize, Hdec.
    apply IH; [lia|]. destruct Hb as [Hle _]. split; [lia|]. right.
    destruct (tail_from_nonempty (head_to i s) (i - size)) as (b & rest & Htail);
      [lia|].
    rewrite Htail in Hdec.
    replace (at_ s (i - size)) with (at_ (head_to i s) (i - size))
      by (apply at_head_to; lia).
    unfold at_. rewrite Htail. eapply decode_valid_first. by rewrite Hdec.
  - right. exists i. rewrite Hlast. cbn [fst snd]. done.
Qed.

Lemma TrimRightFunc_spec (s : string) :
  exists e : nat,
    strings.TrimRightFunc s f = head_to e s /\ right_ok f (head_to e s).
Proof.
  unfold strings.TrimRightFunc.
  destruct (lastIndexFunc_false_spec s (S (len s)) (len s))
    as [->|(e & Hb & Hpos & Hf & ->)]; [lia|split; [lia|by left]|..].
  - exists 0%nat. cbn. split; [by rewrite slice_0|by left].
  - exists e.
    set (i := (e - snd (utf8.DecodeLastRuneInString (head_to e s)))%nat).
    replace (0 <=? Z.of_nat i) with true by (symmetry; apply Z.leb_le; lia).
    rewrite Nat2Z.id. cbn [andb].
    pose proof (forward_width s e Hb Hpos) as Hw. cbv zeta in Hw. fold i in Hw.
    destruct (utf8.RuneSelf <=? at_ s i).
    + rewrite <- Nat2Z.inj_add, Nat2Z.id, Hw, slice_0. split; [done|by right].
    + replace (Z.to_nat (Z.of_nat i + 1)) with (i + 1)%nat by lia.
      rewrite Hw, slice_0. split; [done|by right].
Qed.

Lemma TrimRightFunc_id (s : string) : right_ok f s -> strings.TrimRightFunc s f = s.
Proof.
  intros [->|Hs]; [done|]. destruct (decide (s = EmptyString)) as [->|Hne]; [done|].
  assert (0 < len s)%nat as Hlen by (destruct s; [done|cbn; lia]).
  unfold strings.TrimRightFunc. cbn [strings.lastIndexFunc_false].
  replace (0 <? len s)%nat with true by (symmetry; apply Nat.ltb_lt; lia).
  rewrite (slice_0 s (len s)), (head_to_all (len s) s) by lia.
  destruct (utf8.DecodeLastRuneInString s) as [r size] eqn:Hlast.
  cbn [fst] in Hs. rewrite Hs.
  set (i := (len s - size)%nat).
  replace (0 <=? Z.of_nat i) with true by (symmetry; apply Z.leb_le; lia).
  rewrite Nat2Z.id. cbn [andb].
  pose proof (forward_width s (len s)) as Hw. cbv zeta in Hw.
  rewrite head_to_all, Hlast in Hw by lia. cbn [snd] in Hw. fold i in Hw.
  specialize (Hw (conj (Nat.le_refl _) (or_introl eq_refl)) Hlen).
  destruct (utf8.RuneSelf <=? at_ s i).
  - rewrite <- Nat2Z.inj_add, Nat2Z.id, Hw, slice_0. apply head_to_all. lia.
  - replace (Z.to_nat (Z.of_nat i + 1)) with (i + 1)%nat by lia.
    rewrite Hw, slice_0. apply head_to_all. lia.
Qed.

(** A byte of ASCII that does not satisfy [f], put before a text that does
    not end in a rune satisfying [f], gives such a text again. *)
Lemma cons_right_ok (c : ascii) (t : string) :
  byte c < 0x80 -> t <> EmptyString -> right_ok f t -> right_ok f (String c t).
Proof.
  intros Hc Ht [->|Hok]; [done|]. right.
  destruct (decode_last_sound (String c t)) as [->|(Hsize & Hdec & Hvalid)];
    [done|done|].
  set (size := snd (utf8.DecodeLastRuneInString (String c t))) in *.
  cbn [len] in Hsize, Hdec.
  assert (0 < len t)%nat as Hlen by (destruct t; [done|cbn; lia]).
  destruct (decide (size = S (len t))) as [Hall|Hpart].
  - rewrite Hall, Nat.sub_diag in Hdec. cbn [tail_from] in Hdec.
    rewrite decode_ascii in Hdec by done.
    apply (f_equal snd) in Hdec. cbn in Hdec. fold size in Hdec. lia.
  - replace (S (len t) - size)%nat with (S (len t - size)) in Hdec by lia.
    cbn [tail_from] in Hdec.
    rewrite <- Hdec.
    rewrite <- (decode_last_complete (head_to (len t - size) t)
                                     (tail_from (len t - size) t)).
    + by rewrite head_to_tail_from.
    + intros E. apply (f_equal len) in E. rewrite len_tail_from in E.
      cbn in E. lia.
    + by rewrite Hdec.
    + rewrite Hdec, len_tail_from. fold size. lia.
Qed.

End Trim.

Lemma IsSpace_RuneError : unicode.IsSpace utf8.RuneError = false.
Proof. reflexivity. Qed.

(** [TrimSpace] returns a text with no white space at either end, and
    returns such a text as it is. *)
Lemma TrimSpace_ok (s : string) :
  left_ok unicode.IsSpace (strings.TrimSpace s)
  /\ right_ok unicode.IsSpace (strings.TrimSpace s).
Proof.
  unfold strings.TrimSpace.
  destruct (TrimRightFunc_spec unicode.IsSpace IsSpace_RuneError
              (strings.TrimLeftFunc s unicode.IsSpace)) as (e & -> & Hright).
  split; [|done].
  apply head_to_left_ok; first [exact IsSpace_RuneError | apply TrimLeftFunc_left_ok].
Qed.

Lemma TrimSpace_id (s : string) :
  left_ok unicode.IsSpace s -> right_ok unicode.IsSpace s -> strings.TrimSpace s = s.
Proof.
  intros Hl Hr. unfold strings.TrimSpace.
  rewrite TrimLeftFunc_id by done.
  apply TrimRightFunc_id; first [exact IsSpace_RuneError | done].
Qed.

Lemma TrimSpace_TrimSpace (s : string) :
  strings.TrimSpace (strings.TrimSpace s) = strings.TrimSpace s.
Proof. destruct (TrimSpace_ok s). by apply TrimSpace_id. Qed.

Lemma TrimSpace_dot (s : string) :
  strings.TrimSpace s <> EmptyString ->
  strings.TrimSpace ("." +:+ strings.TrimSpace s) = "." +:+ strings.TrimSpace s.
Proof.
  intros Hne. destruct (TrimSpace_ok s) as [_ Hr].
  change ("." +:+ strings.TrimSpace s) with (String "." (strings.TrimSpace s)).
  apply TrimSpace_id.
  - right. by rewrite decode_ascii.
  - apply cons_right_ok; first [exact IsSpace_RuneError | done].
Qed.

(** C6.  Normalizing the result of a normalization changes nothing. *)
Theorem normalizeExtensions_idempotent (exts : list string) :
  normalizeExtensions (normalizeExtensions exts) = normalizeExtensions exts.
Proof.
  rewrite !normalizeExtensions_spec. unfold normalized_spec.
  induction exts as [|ext rest IH]; [done|].
  rewrite fmap_cons.
  destruct (decide (strings.TrimSpace ext = EmptyString)) as [Hempty|Hne].
  - by rewrite filter_cons_False by (intros Hn; by apply Hn).
  - rewrite filter_cons_True by done. rewrite !fmap_cons.
    assert (Htrim : strings.TrimSpace (dotted (strings.TrimSpace ext))
                    = dotted (strings.TrimSpace ext)).
    { unfold dotted. destruct (HasPrefix (strings.TrimSpace ext) ".").
      - apply TrimSpace_TrimSpace.
      - by apply TrimSpace_dot. }
    rewrite Htrim, filter_cons_True by apply dotted_nonempty.
    rewrite fmap_cons, IH. f_equal.
    unfold dotted at 1. by rewrite HasPrefix_dotted.
Qed.

(** ** The tree walker and the filter *)

Section Walker.

Context `{GoLibrary}.

Lemma walk_Dir (options : Options) (path : string) (names : list (string * Entry))
    (filteredFiles : list FileInfo) :
  walk options path (Dir names) filteredFiles
  = walk_names options path names filteredFiles.
Proof.
  cbn [walk]. unfold walkFn. cbn.
  revert filteredFiles. induction names as [|[name fileInfo] rest IH];
    intros filteredFiles; [done|].
  cbn. destruct (walk options _ fileInfo filteredFiles) as [acc [err|]]; [done|].
  apply IH.
Qed.

Lemma include_loop_spec (ext : string) (exts : list string) :
  include_loop ext exts false = true <-> matches ext exts.
Proof.
  unfold matches. induction exts as [|e rest IH]; simpl.
  - split; [done|]. intros (e & He & _). by apply elem_of_nil in He.
  - destruct (strings_EqualFold ext e) eqn:E.
    + split; [|done]. intros _. exists e. split; [left|done].
    + rewrite IH. split.
      * intros (e' & He' & Hm). exists e'. split; [by right|done].
      * intros (e' & He' & Hm). apply elem_of_cons in He' as [->|He'].
        -- congruence.
        -- by exists e'.
Qed.

Lemma exclude_loop_spec (ext : string) (exts : list string) (b : bool) :
  exclude_loop ext exts b = true <-> b = true /\ ~ matches ext exts.
Proof.
  unfold matches. induction exts as [|e rest IH]; simpl.
  - split; [|tauto]. intros ->. split; [done|].
    intros (e & He & _). by apply elem_of_nil in He.
  - destruct (strings_EqualFold ext e) eqn:E.
    + split; [done|]. intros [_ Hn]. exfalso. apply Hn. exists e. split; [left|done].
    + rewrite IH. split; intros [Hb Hn]; (split; [done|]).
      * intros (e' & He' & Hm). apply elem_of_cons in He' as [->|He'].
        -- congruence.
        -- apply Hn. by exists e'.
      * intros (e' & He' & Hm). apply Hn. exists e'. split; [by right|done].
Qed.

(** The two loops of the callback compute the filter of the
    specification. *)
Lemma includeFile_spec (options : Options) (path : string) :
  includeFile options path = true <-> passes_filter options path.
Proof.
  unfold includeFile, passes_filter. rewrite exclude_loop_spec.
  destruct (includeExts options) as [|e rest] eqn:E; simpl length.
  - cbn. split; [intros [_ Hn]; split; [by left|done] | intros [_ Hn]; done].
  - change (S (length rest) =? 0)%nat with false. cbv iota.
    rewrite include_loop_spec. split; intros [Hi Hn]; (split; [|done]).
    + by right.
    + by destruct Hi as [?|?].
Qed.

(** An entry of a list of names: none in the empty list, and the first or
    one of the rest otherwise. *)
Ltac no_entry :=
  match goal with Hm : _ ∈ [] |- _ => by apply elem_of_nil in Hm end.

Ltac first_or_rest :=
  match goal with
  | Hm : (_, _) ∈ _ :: _ |- _ =>
    apply elem_of_cons in Hm as [Hm|Hm]; [injection Hm as -> ->|]
  end.

Lemma walk_names_spec (options : Options) (path : string)
    (names : list (string * Entry)) :
  Forall (fun entry => forall path acc acc' err,
            walk options path entry.2 acc = (acc', err) ->
            exists added, acc' = acc ++ added
                          /\ walk_result options path entry.2 added err) names ->
  forall acc acc' err,
    walk_names options path names acc = (acc', err) ->
    exists added, acc' = acc ++ added
                  /\ walk_result options path (Dir names) added err.
Proof.
  induction 1 as [|[name child] rest Hchild _ IH]; intros acc acc' err Hw.
  - injection Hw as <- <-. exists []. rewrite app_nil_r. split; [done|].
    split; [intros f Hf; by apply elem_of_nil in Hf|]. split.
    + intros p size data Hr. inv Hr. no_entry.
    + intros p e Hf. inv Hf. no_entry.
  - cbn [walk_names] in Hw.
    destruct (walk options (filepath_Join [path; name]) child acc)
      as [acc1 err1] eqn:Hw1.
    destruct (Hchild _ _ _ _ Hw1) as (added1 & -> & Hin1 & Hres1).
    destruct err1 as [e1|].
    + injection Hw as <- <-. exists added1. split; [done|]. split.
      * intros f Hf. destruct (Hin1 f Hf) as [Hr Hi]. split; [|done].
        eapply Reaches_below; [left|done].
      * destruct Hres1 as (p & e & Hfault & Hrep). exists p, e. split; [|done].
        eapply Fault_below; [left|done].
    + destruct (IH _ _ _ Hw) as (added2 & -> & Hin2 & Hres2).
      exists (added1 ++ added2). rewrite app_assoc. split; [done|]. split.
      * intros f [Hf|Hf]%elem_of_app.
        -- destruct (Hin1 f Hf) as [Hr Hi]. split; [|done].
           eapply Reaches_below; [left|done].
        -- destruct (Hin2 f Hf) as [Hr Hi]. split; [|done].
           inv Hr. eapply Reaches_below; [right|]; done.
      * destruct Hres1 as [Hall1 Hno1]. destruct err as [e2|].
        -- destruct Hres2 as (p & e & Hfault & Hrep). exists p, e. split; [|done].
           inv Hfault. eapply Fault_below; [right|]; done.
        -- destruct Hres2 as [Hall2 Hno2]. split.
           ++ intros p size data Hr Hi. rewrite fmap_app, elem_of_app.
              inv Hr. first_or_rest.
              ** left. eauto.
              ** right. eapply Hall2; [|done]. eapply Reaches_below; done.
           ++ intros p e Hf. inv Hf. first_or_rest.
              ** by eapply Hno1.
              ** eapply Hno2, Fault_below; done.
Qed.

Lemma walk_spec (options : Options) (info : Entry) :
  forall path acc acc' err,
    walk options path info acc = (acc', err) ->
    exists added, acc' = acc ++ added /\ walk_result options path info added err.
Proof.
  induction info as [errno|size data|op errno|names IH] using Entry_ind;
    intros path acc acc' err Hw.
  - injection Hw as <- <-. exists []. rewrite app_nil_r. split; [done|].
    split; [intros f Hf; by apply elem_of_nil in Hf|].
    eexists _, _. split; [constructor|by left].
  - cbn in Hw. destruct (includeFile options path) eqn:Hi.
    + destruct data as [[op errno]|content]; injection Hw as <- <-.
      * exists []. rewrite app_nil_r. split; [done|].
        split; [intros f Hf; by apply elem_of_nil in Hf|].
        eexists _, _. split; [by constructor|by right].
      * eexists [_]. split; [done|]. split.
        -- intros f ->%list_elem_of_singleton. split; [constructor|done].
        -- split.
           ++ intros p size' data' Hr _. inv Hr. cbn. by left.
           ++ intros p e Hf. inv Hf.
    + injection Hw as <- <-. exists []. rewrite app_nil_r. split; [done|].
      split; [intros f Hf; by apply elem_of_nil in Hf|]. split.
      * intros p size' data' Hr Hi'. inv Hr. congruence.
      * intros p e Hf. inv Hf. congruence.
  - injection Hw as <- <-. exists []. rewrite app_nil_r. split; [done|].
    split; [intros f Hf; by apply elem_of_nil in Hf|].
    eexists _, _. split; [constructor|by left].
  - rewrite walk_Dir in Hw. by eapply walk_names_spec.
Qed.

End Walker.

(** Running a computation of [M]: the binds and the primitive reads and
    writes of the state are unfolded, and the fields of an updated state
    are read off. *)
Lemma bind_run {A B : Type} (m : M A) (k : A -> M B) (w : World) :
  (m ≫= k) w = k (m w).1 (m w).2.
Proof. unfold mbind, M_bind. by destruct (m w). Qed.

Lemma ret_run {A : Type} (a : A) (w : World) : (mret a : M A) w = (a, w).
Proof. reflexivity. Qed.

Lemma get_world_run (w : World) : get_world w = (w, w).
Proof. reflexivity. Qed.

Lemma Print_run (text : string) (w : World) :
  Print text w = (tt, with_stdout (w_stdout w +:+ text) w).
Proof. reflexivity. Qed.

Lemma Fprint_run (file text : string) (w : World) :
  Fprint file text w
  = (tt, with_files (<[file := default EmptyString (w_files w !! file) +:+ text]>
                       (w_files w)) w).
Proof. reflexivity. Qed.

Lemma read_slice_run (x : slice_ref) (w : World) :
  read_slice x w = (default [] (w_heap w !! x), w).
Proof. reflexivity. Qed.

Lemma os_Create_run (name : string) (w : World) :
  os_Create name w
  = match w_create_errno w name with
    | Some errno => (inl (PathError "open" name errno), w)
    | None => (inr name, with_files (<[name := EmptyString]> (w_files w)) w)
    end.
Proof. unfold os_Create. rewrite bind_run. cbn. by destruct (w_create_errno w name). Qed.

Ltac world_simpl :=
  cbn [w_tree w_missing w_getwd w_create_errno w_files w_stdout w_heap
       with_files with_stdout with_heap].

Ltac run_M :=
  repeat (first [ rewrite bind_run | rewrite ret_run | rewrite get_world_run
                | rewrite Print_run | rewrite Fprint_run | rewrite read_slice_run
                | progress unfold set_heap, set_files, set_stdout ];
          cbn [fst snd]; cbv beta);
  world_simpl.

Section WalkerTheorems.

Context `{GoLibrary}.

Lemma walkDirectory_run (options : Options) (w : World) :
  walkDirectory options w
  = ((fresh (dom (w_heap w)),
      (filepath_Walk options (rootDir options) (w_tree w) []).2),
     with_heap (<[fresh (dom (w_heap w))
                  := (filepath_Walk options (rootDir options) (w_tree w) []).1]>
                  (w_heap w)) w).
Proof.
  unfold walkDirectory. run_M.
  destruct (filepath_Walk options (rootDir options) (w_tree w) []) as [l err].
  unfold make_slice. by run_M.
Qed.

(** C1.  When the walk ends without an error, a file it visits has a
    record in the list it returns if and only if the include set is empty
    or holds an entry its extension matches ignoring case, and the exclude
    set holds no entry its extension matches ignoring case; so a file whose
    extension has a match in both sets has no record. *)
Theorem walkDirectory_filter (options : Options) (w w' : World) (files : slice_ref) :
  walkDirectory options w = ((files, None), w') ->
  forall p size data,
    Reaches (rootDir options) (w_tree w (rootDir options)) p (File size data) ->
    (p ∈ Path <$> (read_slice files w').1
     <-> (includeExts options = [] \/ matches (filepath.Ext p) (includeExts options))
         /\ ~ matches (filepath.Ext p) (excludeExts options))
    /\ (matches (filepath.Ext p) (includeExts options) ->
        matches (filepath.Ext p) (excludeExts options) ->
        p ∉ Path <$> (read_slice files w').1).
Proof.
  intros Hw p size data Hr.
  rewrite walkDirectory_run in Hw. unfold filepath_Walk in Hw.
  destruct (walk options (rootDir options) (w_tree w (rootDir options)) [])
    as [l err] eqn:E. cbn [fst snd] in Hw. injection Hw as <- -> <-.
  run_M. rewrite lookup_insert_eq. cbn [default fst].
  destruct (walk_spec _ _ _ _ _ _ E) as (added & -> & Hin & Hall & _).
  cbn [fst app].
  assert (Hiff : p ∈ Path <$> added <-> passes_filter options p).
  { rewrite <- includeFile_spec. split.
    - intros (f & -> & Hf)%list_elem_of_fmap. by apply Hin.
    - by eapply Hall. }
  split; [exact Hiff|].
  intros _ Hex Hp. apply Hiff in Hp as [_ Hn]. by apply Hn.
Qed.

Lemma Fault_PathError (options : Options) (path : string) (info : Entry)
    (p : string) (e : error) :
  Fault options path info p e -> exists op errno, e = PathError op p errno.
Proof. induction 1; eauto. Qed.

Lemma reported_mentions (err : error) (p : string) (op errno : string) :
  reported err p (PathError op p errno) -> mentions (Error err) p.
Proof.
  intros [->| ->]; cbn.
  - exists (op +:+ " "), (": " +:+ errno).
    by rewrite !app_assoc_str.
  - exists "unable to read file ", (": " +:+ (op +:+ " " +:+ p +:+ ": " +:+ errno)).
    done.
Qed.

(** C9.  When an operation of the walk fails ([Lstat] on an entry, the
    reading of a directory, or the reading of a file the filter keeps), the
    walk returns an error, that error is the one of a failing operation and
    its text holds the path the operation failed at; and [main] exits with
    status 1 having created and written no output file, so no report is
    made from the list of a scan that failed. *)
Theorem walkDirectory_fail_fast (options : Options) (w : World) (p : string) (e : error) :
  Fault options (rootDir options) (w_tree w (rootDir options)) p e ->
  (exists files err w',
     walkDirectory options w = ((files, Some err), w')
     /\ exists p' e',
          Fault options (rootDir options) (w_tree w (rootDir options)) p' e'
          /\ reported err p' e'
          /\ mentions (Error err) p')
  /\ (forall flags, options_of flags = options ->
        (main flags w).1 = 1 /\ w_files (main flags w).2 = w_files w).
Proof.
  intros Hfault.
  pose proof (walkDirectory_run options w) as Hw. unfold filepath_Walk in Hw.
  destruct (walk options (rootDir options) (w_tree w (rootDir options)) [])
    as [l err] eqn:E. cbn [fst snd] in Hw.
  destruct (walk_spec _ _ _ _ _ _ E) as (added & -> & Hin & Hres).
  destruct err as [err|].
  - destruct Hres as (p' & e' & Hf' & Hrep). split.
    + eexists _, err, _. split; [done|]. exists p', e'. do 2 (split; [done|]).
      destruct (Fault_PathError _ _ _ _ _ Hf') as (op & errno & ->).
      by eapply reported_mentions.
    + intros flags <-. unfold main. run_M.
      destruct (w_missing w (rootDir (options_of flags))); [by run_M|].
      run_M. rewrite walkDirectory_run. world_simpl.
      unfold filepath_Walk. rewrite E. cbn [fst snd]. by run_M.
  - destruct Hres as [_ Hno]. by apply Hno in Hfault.
Qed.

End WalkerTheorems.

Lemma walkDirectory_filter_witness :
  let options := options_of Example.flags in
  let run := walkDirectory options Example.world in
  ("/w/r/c.html" ∈ Path <$> (read_slice run.1.1 run.2).1
   <-> (includeExts options = []
        \/ matches (filepath.Ext "/w/r/c.html") (includeExts options))
       /\ ~ matches (filepath.Ext "/w/r/c.html") (excludeExts options))
  /\ (matches (filepath.Ext "/w/r/c.html") (includeExts options) ->
      matches (filepath.Ext "/w/r/c.html") (excludeExts options) ->
      "/w/r/c.html" ∉ Path <$> (read_slice run.1.1 run.2).1).
Proof.
  intros options run.
  apply (walkDirectory_filter options Example.world run.2 run.1.1)
    with (size := 1) (data := inr "h").
  - vm_compute. reflexivity.
  - refine (Reaches_below _ _ "c.html" (File 1 (inr "h")) _ _ _ _).
    + do 3 apply list_elem_of_further. apply list_elem_of_here.
    + exact (Reaches_here "/w/r/c.html" _).
Defined.

Lemma walkDirectory_fail_fast_witness :
  let options := options_of Example.flags in
  (exists files err w',
     walkDirectory options Example.broken_world = ((files, Some err), w')
     /\ exists p' e',
          Fault options (rootDir options)
                (w_tree Example.broken_world (rootDir options)) p' e'
          /\ reported err p' e'
          /\ mentions (Error err) p')
  /\ (forall flags, options_of flags = options ->
        (main flags Example.broken_world).1 = 1
        /\ w_files (main flags Example.broken_world).2
           = w_files Example.broken_world).
Proof.
  intros options.
  apply (walkDirectory_fail_fast options Example.broken_world "/w/r/b.md"
           (PathError "open" "/w/r/b.md" "permission denied")).
  refine (Fault_below _ _ _ "b.md" (File 13 (inl ("open", "permission denied")))
            _ _ _ _).
  - apply list_elem_of_further, list_elem_of_here.
  - refine (Fault_read _ "/w/r/b.md" _ _ _ _). vm_compute. reflexivity.
Defined.

(** ** The tokenizer *)

Section Runs.

Context (d : Z -> bool).

Lemma run_length_spec (rs : list Z) :
  (run_length d rs <= length rs)%nat
  /\ (forall k, (k < run_length d rs)%nat -> token_char d rs k)
  /\ (run_length d rs = length rs \/ delimiter_at d rs (run_length d rs)).
Proof.
  induction rs as [|r rest (Hle & Hrun & Hend)]; simpl.
  - split; [lia|]. split; [lia|]. by left.
  - destruct (d r) eqn:Hr.
    + split; [lia|]. split; [lia|]. right. by exists r.
    + split; [lia|]. split.
      * intros [|k] Hk; [by exists r|]. apply Hrun. lia.
      * destruct Hend as [->|Hd]; [by left|by right].
Qed.

Lemma token_char_drop (rs : list Z) (i k : nat) :
  token_char d (drop i rs) k <-> token_char d rs (i + k).
Proof. unfold token_char. by rewrite lookup_drop. Qed.

Lemma delimiter_at_drop (rs : list Z) (i k : nat) :
  delimiter_at d (drop i rs) k <-> delimiter_at d rs (i + k).
Proof. unfold delimiter_at. by rewrite lookup_drop. Qed.

Lemma token_not_delimiter (rs : list Z) (k : nat) :
  token_char d rs k -> delimiter_at d rs k -> False.
Proof. intros (r & Hr & Hf) (q & Hq & Ht). congruence. Qed.

Lemma run_start_spec (rs : list Z) (i : nat) :
  run_start d rs i = true
  <-> token_char d rs i /\ (i = O \/ delimiter_at d rs (i - 1)).
Proof.
  unfold run_start, token_char, delimiter_at.
  destruct (rs !! i) as [r|] eqn:Hi.
  - destruct i as [|k].
    + rewrite andb_true_r, negb_true_iff. split.
      * intros Hr. split; [by exists r|by left].
      * intros [(r' & [= <-] & Hr) _]. done.
    + replace (S k - 1)%nat with k by lia.
      rewrite andb_true_iff, negb_true_iff. split.
      * intros [Hr Hq]. split; [by exists r|]. right.
        destruct (rs !! k) as [q|]; [by exists q|done].
      * intros [(r' & [= <-] & Hr) [?|(q & Hq & Hd)]]; [done|].
        by rewrite Hq.
  - split; [done|]. by intros [(r & ? & _) _].
Qed.

(** A maximal run is given by its start, and ends where [run_end] says. *)
Lemma maximal_run_iff (rs : list Z) (i j : nat) :
  maximal_run d rs i j <-> run_start d rs i = true /\ j = run_end d rs i.
Proof.
  rewrite run_start_spec. unfold maximal_run, run_end.
  destruct (run_length_spec (drop i rs)) as (Hle & Hrun & Hend).
  rewrite length_drop in Hle.
  split.
  - intros (Hij & Htok & Hbefore & Hafter). split.
    + split; [apply Htok; lia|done].
    + destruct (Nat.lt_trichotomy j (i + run_length d (drop i rs)))
        as [Hlt|[Heq|Hgt]]; [|done|].
      * exfalso. destruct Hafter as [->|Hd]; [lia|].
        eapply (token_not_delimiter rs j); [|done].
        replace j with (i + (j - i))%nat by lia.
        apply token_char_drop, Hrun. lia.
      * exfalso. destruct Hend as [Hlen|Hd].
        -- rewrite length_drop in Hlen. lia.
        -- apply delimiter_at_drop in Hd.
           eapply (token_not_delimiter rs); [|exact Hd]. apply Htok. lia.
  - intros [[Htok Hbefore] ->].
    assert (0 < run_length d (drop i rs))%nat as Hpos.
    { destruct Htok as (r & Hr & Hf).
      rewrite <- (Nat.add_0_r i), <- lookup_drop in Hr.
      destruct (drop i rs) as [|r' rest]; [done|].
      injection Hr as ->. simpl. rewrite Hf. lia. }
    assert (i < length rs)%nat as Hi.
    { destruct Htok as (r & Hr & _). by eapply lookup_lt_Some. }
    split; [lia|]. split; [|split; [done|]].
    + intros k Hk. replace k with (i + (k - i))%nat by lia.
      apply token_char_drop, Hrun. lia.
    + destruct Hend as [Hlen|Hd].
      * left. rewrite length_drop in Hlen. lia.
      * right. by apply delimiter_at_drop.
Qed.

Lemma runs_spec (rs : list Z) :
  NoDup (runs d rs) /\ forall i j, (i, j) ∈ runs d rs <-> maximal_run d rs i j.
Proof.
  unfold runs. split.
  - apply NoDup_fmap_2; [by intros i i' [= ->]|].
    apply NoDup_filter, NoDup_seq.
  - intros i j. rewrite maximal_run_iff, list_elem_of_fmap. split.
    + intros (i' & [= -> ->] & [Hs _]%list_elem_of_filter). done.
    + intros [Hs ->]. exists i. split; [done|].
      apply list_elem_of_filter. split; [done|]. apply elem_of_seq.
      unfold run_start in Hs. destruct (rs !! i) eqn:Hi; [|done].
      apply lookup_lt_Some in Hi. lia.
Qed.

(** Counting the starts left to right. *)
Lemma count_starts_spec (before rs : list Z) :
  length (filter (fun i => run_start d (before ++ rs) i = true)
                 (seq (length before) (length rs)))
  = count_starts d (from_option d true (last before)) rs.
Proof.
  revert before. induction rs as [|r rest IH]; intros before; [done|].
  cbn [length seq count_starts].
  specialize (IH (before ++ [r])).
  rewrite <- app_assoc, length_app, last_snoc in IH. cbn in IH.
  rewrite Nat.add_1_r in IH.
  assert (Hstart : run_start d (before ++ r :: rest) (length before)
                   = negb (d r) && from_option d true (last before)).
  { unfold run_start.
    rewrite (list_lookup_middle before rest r (length before) eq_refl). f_equal.
    clear IH. destruct before as [|b before' _] using rev_ind; [done|].
    rewrite length_app, last_snoc. cbn [length from_option].
    rewrite Nat.add_1_r, <- app_assoc. cbn [app].
    by rewrite (list_lookup_middle before' (r :: rest) b (length before') eq_refl). }
  destruct (negb (d r) && from_option d true (last before)) eqn:E.
  - rewrite filter_cons_True by done. cbn. by rewrite IH.
  - rewrite filter_cons_False by (rewrite Hstart; done). by rewrite IH.
Qed.

Lemma length_runs (rs : list Z) : length (runs d rs) = count_starts d true rs.
Proof.
  unfold runs. rewrite length_fmap. apply (count_starts_spec [] rs).
Qed.

End Runs.

Lemma range_from_indices (s : string) (i skip : nat) :
  Forall (fun ir => (i <= ir.1 < i + len s)%nat) (utf8.range_from i skip s)
  /\ StronglySorted (fun a b : nat * Z => (a.1 < b.1)%nat) (utf8.range_from i skip s).
Proof.
  revert i skip. induction s as [|c t IH]; intros i skip; cbn [utf8.range_from len].
  - split; constructor.
  - destruct skip as [|k].
    + destruct (utf8.DecodeRuneInString (String c t)) as [r size].
      destruct (IH (S i) (size - 1)%nat) as [Hb Hs]. split.
      * constructor; [cbn; lia|].
        eapply Forall_impl; [exact Hb|]. cbn. intros; lia.
      * constructor; [done|].
        eapply Forall_impl; [exact Hb|]. cbn. intros; lia.
    + destruct (IH (S i) k) as [Hb Hs]. split; [|done].
      eapply Forall_impl; [exact Hb|]. cbn. intros; lia.
Qed.

Section Fields.

Context (f : Z -> bool) (n : nat).

Lemma FieldsFunc_spans_spec (rs : list (nat * Z)) :
  StronglySorted (fun a b : nat * Z => (a.1 < b.1)%nat) rs ->
  Forall (fun ir => (ir.1 < n)%nat) rs ->
  forall start spans,
    (0 <= start -> start < Z.of_nat n /\ Forall (fun ir => start < Z.of_nat ir.1) rs) ->
    Forall (valid_span n) spans ->
    Forall (valid_span n) (strings.FieldsFunc_spans f rs start spans).2
    /\ (0 <= (strings.FieldsFunc_spans f rs start spans).1 ->
        (strings.FieldsFunc_spans f rs start spans).1 < Z.of_nat n)
    /\ (length (strings.FieldsFunc_spans f rs start spans).2
        + open_run (strings.FieldsFunc_spans f rs start spans).1
        = length spans + open_run start + count_starts f (start <? 0)%Z rs.*2)%nat.
Proof.
  induction 1 as [|[end_ rune] rest Hsorted IH Hlater]; intros Hn start spans Hstart Hspans.
  - cbn. split; [done|]. split; [tauto|]. lia.
  - apply Forall_cons in Hn as [Hend Hn]. cbn in Hend.
    cbn [strings.FieldsFunc_spans fmap list_fmap count_starts snd].
    destruct (f rune) eqn:Hf; cbn [negb andb].
    + destruct (0 <=? start) eqn:Hs.
      * apply Z.leb_le in Hs. destruct (Hstart Hs) as [Hsn Hafter].
        apply Forall_cons in Hafter as [Hlt Hafter]. cbn in Hlt.
        assert (Z.lnot start < 0) as Hneg by (unfold Z.lnot; lia).
        specialize (IH Hn (Z.lnot start) (spans ++ [(start, Z.of_nat end_)])).
        destruct IH as (Hv & Hb & Hc).
        { intros ?; lia. }
        { apply Forall_app. split; [done|]. constructor; [|done].
          unfold valid_span. cbn. lia. }
        split; [done|]. split; [done|].
        rewrite Hc, length_app. cbn [length]. unfold open_run.
        replace (0 <=? Z.lnot start) with false by (symmetry; apply Z.leb_gt; lia).
        replace (0 <=? start) with true by (symmetry; apply Z.leb_le; lia).
        replace (Z.lnot start <? 0) with true by (symmetry; apply Z.ltb_lt; lia).
        lia.
      * apply Z.leb_gt in Hs.
        specialize (IH Hn start spans). destruct IH as (Hv & Hb & Hc).
        { intros ?; lia. } { done. }
        split; [done|]. split; [done|]. rewrite Hc.
        replace (start <? 0) with true by (symmetry; apply Z.ltb_lt; lia). lia.
    + destruct (start <? 0) eqn:Hs.
      * apply Z.ltb_lt in Hs.
        specialize (IH Hn (Z.of_nat end_) spans). destruct IH as (Hv & Hb & Hc).
        { intros _. split; [lia|].
          eapply Forall_impl; [exact Hlater|]. cbn. intros; lia. }
        { done. }
        split; [done|]. split; [done|]. rewrite Hc. unfold open_run.
        replace (0 <=? Z.of_nat end_) with true by (symmetry; apply Z.leb_le; lia).
        replace (0 <=? start) with false by (symmetry; apply Z.leb_gt; lia).
        replace (Z.of_nat end_ <? 0) with false by (symmetry; apply Z.ltb_ge; lia).
        cbn [andb]. lia.
      * apply Z.ltb_ge in Hs. destruct (Hstart Hs) as [Hsn Hafter].
        apply Forall_cons in Hafter as [_ Hafter].
        specialize (IH Hn start spans). destruct IH as (Hv & Hb & Hc).
        { done. } { done. }
        split; [done|]. split; [done|]. rewrite Hc.
        replace (start <? 0) with false by (symmetry; apply Z.ltb_ge; lia).
        cbn [andb]. lia.
Qed.

End Fields.

Lemma validWords_loop_nonempty (words validWords : list string) :
  Forall (fun word => word <> EmptyString) words ->
  validWords_loop words validWords = validWords ++ words.
Proof.
  intros Hw. revert validWords.
  induction Hw as [|word rest Hword _ IH]; intros validWords; cbn.
  - by rewrite app_nil_r.
  - destruct word; [done|]. cbn. by rewrite IH, <- app_assoc.
Qed.

(** [strings.FieldsFunc] returns no empty field, and one field for every
    run that starts in the text. *)
Lemma FieldsFunc_spec (f : Z -> bool) (s : string) :
  Forall (fun word => word <> EmptyString) (strings.FieldsFunc s f)
  /\ length (strings.FieldsFunc s f) = count_starts f true (utf8.range s).*2.
Proof.
  unfold strings.FieldsFunc.
  destruct (range_from_indices s 0 0) as [Hb Hs]. fold (utf8.range s) in Hb, Hs.
  destruct (FieldsFunc_spans_spec f (len s) (utf8.range s) Hs) with (start := -1) (spans := @nil (Z * Z))
    as (Hv & Hlt & Hc).
  { eapply Forall_impl; [exact Hb|]. cbn. intros; lia. }
  { intros ?; lia. }
  { constructor. }
  destruct (strings.FieldsFunc_spans f (utf8.range s) (-1) []) as [start spans].
  cbn [fst snd] in *.
  assert (Hall : Forall (valid_span (len s))
                   (if 0 <=? start then spans ++ [(start, Z.of_nat (len s))] else spans)).
  { destruct (0 <=? start) eqn:E; [|done]. apply Z.leb_le in E.
    apply Forall_app. split; [done|]. constructor; [|done].
    unfold valid_span. cbn. lia. }
  split.
  - apply Forall_fmap. eapply Forall_impl; [exact Hall|].
    intros [a b] Hab Hempty. unfold valid_span in Hab. cbn in *.
    apply (f_equal len) in Hempty. rewrite len_slice in Hempty by lia. cbn in Hempty. lia.
  - rewrite length_fmap. unfold open_run in Hc. cbn in Hc.
    destruct (0 <=? start); [rewrite length_app; cbn|]; lia.
Qed.

Section Tokenizer.

Context `{GoLibrary}.

Lemma countTokens_count_starts (text : string) :
  countTokens text = Z.of_nat (count_starts is_delimiter true (utf8.range text).*2).
Proof.
  unfold countTokens. destruct (FieldsFunc_spec is_delimiter text) as [Hne Hlen].
  rewrite validWords_loop_nonempty by done. cbn [app]. by rewrite Hlen.
Qed.

(** C4.  The token count of a text is the number of maximal runs of
    characters (the runes a [range] over the text yields) that are neither
    white space nor punctuation: there is a list without repetition of
    exactly the pairs [(i, j)] that bound such a run, and the count is its
    length.  The texts ["a, b.  c"] and ["a b c"] both count 3; and the
    count, a function of the text, is the same for the same text. *)
Theorem countTokens_maximal_runs :
  (forall text : string,
     exists spans : list (nat * nat),
       NoDup spans
       /\ (forall i j, (i, j) ∈ spans
                       <-> maximal_run is_delimiter (utf8.range text).*2 i j)
       /\ countTokens text = Z.of_nat (length spans))
  /\ countTokens "a, b.  c" = 3
  /\ countTokens "a b c" = 3.
Proof.
  split.
  - intros text. exists (runs is_delimiter (utf8.range text).*2).
    destruct (runs_spec is_delimiter (utf8.range text).*2) as [Hnd Hiff].
    split; [done|]. split; [done|].
    by rewrite countTokens_count_starts, length_runs.
  - split; vm_compute; reflexivity.
Qed.

End Tokenizer.

(** ** The content aggregator *)

Lemma wrap64_id (z : Z) : in_int64 z -> wrap64 z = z.
Proof.
  unfold in_int64, wrap64. intros Hz. rewrite Z.mod_small; lia.
Qed.

Lemma add64_wrap64 (x y : Z) : add64 (wrap64 x) y = wrap64 (x + y).
Proof.
  unfold add64, wrap64.
  replace ((x + 2 ^ 63) mod 2 ^ 64 - 2 ^ 63 + y + 2 ^ 63)
    with ((x + 2 ^ 63) mod 2 ^ 64 + y) by lia.
  rewrite Zplus_mod_idemp_l. f_equal. f_equal. lia.
Qed.

Section Aggregator.

Context `{GoLibrary}.

Lemma Join_cons (e : string) (rest : list string) (sep : string) :
  rest <> [] -> strings.Join (e :: rest) sep = e +:+ sep +:+ strings.Join rest sep.
Proof. by destruct rest. Qed.

Lemma separator_line_eq : separator_line = Repeat "=" 48.
Proof. reflexivity. Qed.

Lemma content_loop_run (contentFile : string) (files : list FileInfo) :
  forall (i : Z) (stats : Statistics) (w : World) (written : string),
    w_files w !! contentFile = Some written ->
    content_loop contentFile i files stats w
    = (totals files stats,
       with_files (<[contentFile := written +:+ blocks_from i files]> (w_files w)) w).
Proof.
  induction files as [|f rest IH]; intros i stats w written Hw.
  - cbn. unfold totals. cbn. rewrite app_empty_r, insert_id by done.
    by destruct stats, w.
  - cbn [content_loop]. rewrite bind_run.
    assert (Hsep : (if 0 <? i then Fprint contentFile newline else mret tt) w
                   = (tt, with_files
                            (<[contentFile := written +:+ (if 0 <? i then newline else EmptyString)]>
                               (w_files w)) w)).
    { destruct (0 <? i).
      - rewrite Fprint_run, Hw. done.
      - rewrite ret_run, app_empty_r, insert_id by done. by destruct w. }
    rewrite Hsep. cbn [fst snd]. cbv beta.
    run_M. rewrite !lookup_insert_eq. cbn [default from_option]. unfold id.
    erewrite IH by (world_simpl; apply lookup_insert_eq).
    world_simpl. rewrite !insert_insert_eq. f_equal.
    unfold with_files. world_simpl. f_equal. f_equal.
    cbn [blocks_from]. unfold record_block.
    rewrite <- separator_line_eq. by rewrite !app_assoc_str.
Qed.

Lemma blocks_from_Join (files : list FileInfo) (i : Z) :
  0 <= i ->
  blocks_from i files
  = match files with
    | [] => EmptyString
    | _ => (if 0 <? i then newline else EmptyString)
           +:+ strings.Join
                 (imap (fun k f => record_block Path Content (i + Z.of_nat k + 1) f) files)
                 newline
    end.
Proof.
  revert i. induction files as [|f rest IH]; intros i Hi; [done|].
  cbn [blocks_from]. rewrite IH by lia. f_equal.
  rewrite imap_cons. replace (i + Z.of_nat 0 + 1) with (i + 1) by lia.
  destruct rest as [|g rest']; [cbn; by rewrite app_empty_r|].
  replace (0 <? i + 1) with true by (symmetry; apply Z.ltb_lt; lia).
  rewrite Join_cons by (rewrite imap_cons; done). do 3 f_equal.
  apply imap_ext. intros k g' _. cbn. f_equal. lia.
Qed.

Lemma foldl_add64 (l : list Z) (z : Z) : foldl add64 (wrap64 z) l = wrap64 (z + sum l).
Proof.
  unfold sum. revert z. induction l as [|x l IH]; intros z; cbn [foldl foldr].
  - f_equal. lia.
  - rewrite add64_wrap64, IH. f_equal. lia.
Qed.

Lemma generateContentFile_run (files : slice_ref) (options : Options) (w : World) :
  w_create_errno w (contentFile options) = None ->
  let elems := (read_slice files w).1 in
  let stats :=
    totals elems
      {| TotalFiles := Z.of_nat (length elems); TotalSize := 0;
         AverageFileSize := float64_zero; TotalTokens := 0;
         AverageTokens := float64_zero |} in
  generateContentFile files options w
  = ((if 0 <? TotalFiles stats then
        {| TotalFiles := TotalFiles stats;
           TotalSize := TotalSize stats;
           AverageFileSize :=
             float64_div (float64_of_int (TotalSize stats))
                         (float64_of_int (TotalFiles stats));
           TotalTokens := TotalTokens stats;
           AverageTokens :=
             float64_div (float64_of_int (TotalTokens stats))
                         (float64_of_int (TotalFiles stats)) |}
      else stats, None),
     with_files (<[contentFile options := blocks_from 0 elems]> (w_files w)) w).
Proof.
  intros Hc elems stats. unfold generateContentFile.
  rewrite bind_run, os_Create_run, Hc. cbn [fst snd]. cbv beta iota.
  run_M.
  erewrite content_loop_run by (world_simpl; apply lookup_insert_eq).
  cbn [fst snd]. run_M. by rewrite insert_insert_eq.
Qed.

Lemma generateContentFile_fails (files : slice_ref) (options : Options) (w : World)
    (errno : string) :
  w_create_errno w (contentFile options) = Some errno ->
  generateContentFile files options w
  = ((Statistics_zero, Some (PathError "open" (contentFile options) errno)), w).
Proof.
  intros Hc. unfold generateContentFile.
  rewrite bind_run, os_Create_run, Hc. cbn [fst snd]. by run_M.
Qed.

(** What a successful run of the aggregator leaves behind: the content
    file with the blocks of the records, and nothing else that later
    stages look at. *)
Lemma generateContentFile_written (files : slice_ref) (options : Options)
    (w w' : World) (stats : Statistics) :
  generateContentFile files options w = ((stats, None), w') ->
  w_files w' !! contentFile options = Some (content_text (read_slice files w).1)
  /\ w_create_errno w' = w_create_errno w.
Proof.
  intros Hrun.
  destruct (w_create_errno w (contentFile options)) as [errno|] eqn:Hc.
  { rewrite (generateContentFile_fails _ _ _ _ Hc) in Hrun. done. }
  rewrite (generateContentFile_run _ _ _ Hc) in Hrun.
  injection Hrun as _ <-. world_simpl. split; [|done].
  rewrite lookup_insert_eq. f_equal.
  rewrite blocks_from_Join by lia.
  change (read_slice files w).1 with (default [] (w_heap w !! files)).
  destruct (default [] (w_heap w !! files)) as [|f rest]; [reflexivity|].
  by rewrite app_empty_l.
Qed.

(** C2.  When the content file has been made, the statistics returned
    have: [TotalFiles] the length of the list; [TotalSize] the sum of the
    sizes and [TotalTokens] the sum of the token counts, each as the 64-bit
    addition of the program computes it, which is the sum itself when that
    is an [int64]; for a non-empty list the averages the [float64] quotient
    of the total and [TotalFiles]; and for the empty list both averages 0. *)
Theorem generateContentFile_statistics (files : slice_ref) (options : Options)
    (w w' : World) (stats : Statistics) :
  generateContentFile files options w = ((stats, None), w') ->
  let elems := (read_slice files w).1 in
  let sizes := sum (Size <$> elems) in
  let tokens := sum (countTokens ∘ Content <$> elems) in
  TotalFiles stats = Z.of_nat (length elems)
  /\ TotalSize stats = wrap64 sizes
  /\ TotalTokens stats = wrap64 tokens
  /\ (in_int64 sizes -> TotalSize stats = sizes)
  /\ (in_int64 tokens -> TotalTokens stats = tokens)
  /\ (0 < TotalFiles stats ->
      AverageFileSize stats
      = float64_div (float64_of_int (TotalSize stats)) (float64_of_int (TotalFiles stats))
      /\ AverageTokens stats
         = float64_div (float64_of_int (TotalTokens stats))
                       (float64_of_int (TotalFiles stats)))
  /\ (TotalFiles stats = 0 ->
      AverageFileSize stats = float64_zero /\ AverageTokens stats = float64_zero).
Proof.
  intros Hrun elems sizes tokens.
  destruct (w_create_errno w (contentFile options)) as [errno|] eqn:Hc.
  { rewrite (generateContentFile_fails _ _ _ _ Hc) in Hrun. done. }
  rewrite (generateContentFile_run _ _ _ Hc) in Hrun.
  fold elems in Hrun. injection Hrun as <- _.
  unfold totals. cbn [TotalFiles TotalSize TotalTokens AverageFileSize AverageTokens].
  assert (Hsizes : foldl add64 0 (Size <$> elems) = wrap64 sizes).
  { change 0 with (wrap64 0) at 1. by rewrite foldl_add64. }
  assert (Htokens : foldl add64 0 (countTokens ∘ Content <$> elems) = wrap64 tokens).
  { change 0 with (wrap64 0) at 1. by rewrite foldl_add64. }
  rewrite Hsizes, Htokens.
  destruct (0 <? Z.of_nat (length elems)) eqn:Hn;
    cbn [TotalFiles TotalSize TotalTokens AverageFileSize AverageTokens].
  - apply Z.ltb_lt in Hn.
    split_and!; try done; try (intros Hr; by apply wrap64_id); intros; lia.
  - apply Z.ltb_ge in Hn.
    split_and!; try done; try (intros Hr; by apply wrap64_id); intros; lia.
Qed.

(** C8.  When the content file has been made, its text is, for the records
    in the order of the list: a line of 48 [=], the line [File N: path]
    with [N] counting the records from 1, another line of 48 [=], and the
    content followed by a newline; one empty line stands between the blocks
    of consecutive records and none before the first. *)
Theorem generateContentFile_text (files : slice_ref) (options : Options)
    (w w' : World) (stats : Statistics) :
  generateContentFile files options w = ((stats, None), w') ->
  w_files w' !! contentFile options
  = Some (strings.Join
            (imap (fun i f =>
                     Repeat "=" 48 +:+ newline
                     +:+ "File " +:+ fmt_d (Z.of_nat i + 1) +:+ ": " +:+ Path f +:+ newline
                     +:+ Repeat "=" 48 +:+ newline
                     +:+ Content f +:+ newline)
                  (read_slice files w).1)
            newline).
Proof.
  intros Hrun. by destruct (generateContentFile_written _ _ _ _ _ Hrun) as [-> _].
Qed.

End Aggregator.

Lemma generateContentFile_statistics_witness :
  let run := generateContentFile Example2.files Example2.options Example2.rendered in
  let stats := run.1.1 in
  let elems := (read_slice Example2.files Example2.rendered).1 in
  let sizes := sum (Size <$> elems) in
  let tokens := sum (countTokens ∘ Content <$> elems) in
  TotalFiles stats = Z.of_nat (length elems)
  /\ TotalSize stats = wrap64 sizes
  /\ TotalTokens stats = wrap64 tokens
  /\ (in_int64 sizes -> TotalSize stats = sizes)
  /\ (in_int64 tokens -> TotalTokens stats = tokens)
  /\ (0 < TotalFiles stats ->
      AverageFileSize stats
      = float64_div (float64_of_int (TotalSize stats)) (float64_of_int (TotalFiles stats))
      /\ AverageTokens stats
         = float64_div (float64_of_int (TotalTokens stats))
                       (float64_of_int (TotalFiles stats)))
  /\ (TotalFiles stats = 0 ->
      AverageFileSize stats = float64_zero /\ AverageTokens stats = float64_zero).
Proof.
  intros run stats elems sizes tokens.
  apply (generateContentFile_statistics Example2.files Example2.options
           Example2.rendered run.2 stats).
  vm_compute. reflexivity.
Defined.

Lemma generateContentFile_text_witness :
  let run := generateContentFile Example2.files Example2.options Example2.rendered in
  w_files run.2 !! contentFile Example2.options
  = Some (strings.Join
            (imap (fun i f =>
                     Repeat "=" 48 +:+ newline
                     +:+ "File " +:+ fmt_d (Z.of_nat i + 1) +:+ ": " +:+ Path f +:+ newline
                     +:+ Repeat "=" 48 +:+ newline
                     +:+ Content f +:+ newline)
                  (read_slice Example2.files Example2.rendered).1)
            newline).
Proof.
  intros run.
  apply (generateContentFile_text Example2.files Example2.options
           Example2.rendered run.2 run.1.1).
  vm_compute. reflexivity.
Defined.

(** ** The tree renderer *)

Section Renderer.

Context `{GoLibrary}.

Lemma concat_lines_app (l1 l2 : list string) :
  concat_lines (l1 ++ l2) = concat_lines l1 +:+ concat_lines l2.
Proof.
  induction l1 as [|x l1 IH]; [done|]. cbn. by rewrite IH, app_assoc_str.
Qed.

Lemma with_files_id (w : World) : with_files (w_files w) w = w.
Proof. by destruct w. Qed.

Lemma render_component_run (file : string) (components : list string) (i : nat)
    (dirs : gmap string bool) (w : World) (written : string) :
  w_files w !! file = Some written ->
  render_component file components i dirs w
  = ((component_nodes components i dirs).2,
     with_files
       (<[file := written
                  +:+ concat_lines (node_line <$> (component_nodes components i dirs).1)]>
          (w_files w)) w).
Proof.
  intros Hw. unfold render_component, component_nodes.
  destruct (negb (Z.of_nat i =? Z.of_nat (length components) - 1)
            && negb (dirs_get dirs (filepath_Join (take (i + 1) components)))).
  - run_M. rewrite Hw. cbn [default from_option fst snd fmap list_fmap concat_lines].
    unfold id, node_line. cbn [node_depth node_name node_is_dir].
    by rewrite app_empty_r, !app_assoc_str.
  - destruct (Z.of_nat i =? Z.of_nat (length components) - 1).
    + run_M. rewrite Hw. cbn [default from_option fst snd fmap list_fmap concat_lines].
      unfold id, node_line. cbn [node_depth node_name node_is_dir].
      by rewrite app_empty_r, !app_assoc_str.
    + run_M. cbn [fst snd fmap list_fmap concat_lines].
      by rewrite app_empty_r, insert_id, with_files_id.
Qed.

Lemma render_components_run (file : string) (components : list string)
    (indices : list nat) :
  forall (dirs : gmap string bool) (w : World) (written : string),
    w_files w !! file = Some written ->
    render_components file components indices dirs w
    = ((components_nodes components indices dirs).2,
       with_files
         (<[file := written
                    +:+ concat_lines
                          (node_line <$> (components_nodes components indices dirs).1)]>
            (w_files w)) w).
Proof.
  induction indices as [|i rest IH]; intros dirs w written Hw.
  - cbn. by rewrite app_empty_r, insert_id, with_files_id.
  - cbn [render_components components_nodes]. rewrite bind_run.
    rewrite (render_component_run _ _ _ _ _ _ Hw). cbn [fst snd].
    destruct (component_nodes components i dirs) as [nodes dirs1]. cbn [fst snd].
    erewrite IH by (world_simpl; apply lookup_insert_eq).
    destruct (components_nodes components rest dirs1) as [more dirs2]. cbn [fst snd].
    world_simpl. unfold with_files. world_simpl.
    by rewrite insert_insert_eq, fmap_app, concat_lines_app, app_assoc_str.
Qed.

Lemma render_files_run (file rootPath : string) (files : list FileInfo) :
  forall (dirs : gmap string bool) (w : World) (written : string),
    w_files w !! file = Some written ->
    render_files file rootPath files dirs w
    = ((files_nodes rootPath files dirs).2,
       with_files
         (<[file := written
                    +:+ concat_lines (node_line <$> (files_nodes rootPath files dirs).1)]>
            (w_files w)) w).
Proof.
  induction files as [|f rest IH]; intros dirs w written Hw.
  - cbn. by rewrite app_empty_r, insert_id, with_files_id.
  - cbn [render_files files_nodes].
    destruct (filepath_Rel rootPath (Path f)) as [err|relPath].
    + cbn. by rewrite app_empty_r, insert_id, with_files_id.
    + rewrite bind_run. rewrite (render_components_run _ _ _ _ _ _ Hw). cbn [fst snd].
      destruct (components_nodes _ _ dirs) as [nodes dirs1]. cbn [fst snd].
      erewrite IH by (world_simpl; apply lookup_insert_eq).
      destruct (files_nodes rootPath rest dirs1) as [more err]. cbn [fst snd].
      world_simpl. unfold with_files. world_simpl.
      by rewrite insert_insert_eq, fmap_app, concat_lines_app, app_assoc_str.
Qed.

Lemma component_nodes_of (components : list string) (i : nat)
    (dirs : gmap string bool) (node : Node) :
  (i < length components)%nat ->
  node ∈ (component_nodes components i dirs).1 ->
  exists component,
    components !! i = Some component
    /\ node_depth node = i
    /\ node_name node = component
    /\ (node_is_dir node = true <-> (i + 1 < length components)%nat).
Proof.
  intros Hi. destruct (lookup_lt_is_Some_2 components i Hi) as [component Hc].
  unfold component_nodes. rewrite Hc. cbn [default from_option].
  destruct (Z.of_nat i =? Z.of_nat (length components) - 1) eqn:Hlast;
    cbn [negb andb].
  - apply Z.eqb_eq in Hlast.
    intros ->%list_elem_of_singleton. exists component. cbn.
    split_and!; try done. split; [done|lia].
  - apply Z.eqb_neq in Hlast.
    destruct (negb (dirs_get dirs _)); cbn [fst].
    + intros ->%list_elem_of_singleton. exists component. cbn.
      split_and!; try done. split; [lia|done].
    + intros Hn. by apply elem_of_nil in Hn.
Qed.

Lemma components_nodes_of (components : list string) (indices : list nat) :
  Forall (fun i => (i < length components)%nat) indices ->
  forall (dirs : gmap string bool) (node : Node),
    node ∈ (components_nodes components indices dirs).1 ->
    exists i component,
      components !! i = Some component
      /\ node_depth node = i
      /\ node_name node = component
      /\ (node_is_dir node = true <-> (i + 1 < length components)%nat).
Proof.
  induction 1 as [|i rest Hi _ IH]; intros dirs node; cbn [components_nodes].
  - intros Hn. by apply elem_of_nil in Hn.
  - destruct (component_nodes components i dirs) as [nodes dirs1] eqn:E1.
    destruct (components_nodes components rest dirs1) as [more dirs2] eqn:E2.
    cbn [fst]. intros [Hn|Hn]%elem_of_app.
    + exists i. eapply component_nodes_of; [done|]. by rewrite E1.
    + eapply IH. by rewrite E2.
Qed.

(** Every node the renderer emits stands for a component of the relative
    path of a file of the list. *)
Lemma files_nodes_of (rootPath : string) (files : list FileInfo) :
  forall (dirs : gmap string bool) (node : Node),
    node ∈ (files_nodes rootPath files dirs).1 ->
    exists f, f ∈ files /\ node_of rootPath f node.
Proof.
  induction files as [|f rest IH]; intros dirs node; cbn [files_nodes].
  - intros Hn. by apply elem_of_nil in Hn.
  - destruct (filepath_Rel rootPath (Path f)) as [err|relPath] eqn:Hrel.
    + intros Hn. by apply elem_of_nil in Hn.
    + destruct (components_nodes _ _ dirs) as [nodes dirs1] eqn:E1.
      destruct (files_nodes rootPath rest dirs1) as [more err] eqn:E2.
      cbn [fst]. intros [Hn|Hn]%elem_of_app.
      * exists f. split; [left|].
        destruct (components_nodes_of (strings.Split relPath "/")
                    (seq 0 (length (strings.Split relPath "/")))) with (dirs := dirs) (node := node)
          as (i & component & Hc & Hd & Hname & Hdir).
        { apply Forall_forall. intros i Hi%elem_of_seq. lia. }
        { by rewrite E1. }
        by exists relPath, i, component.
      * destruct (IH dirs1 node) as (g & Hg & Hnode); [by rewrite E2|].
        exists g. split; [by right|done].
Qed.

Lemma generateStructureFile_run (files : slice_ref) (options : Options) (w : World)
    (rootPath : string) :
  w_create_errno w (structureFile options) = None ->
  root_path options w = inr rootPath ->
  generateStructureFile files options w
  = ((files_nodes rootPath (sorted_files files w) ∅).2,
     with_files
       (<[structureFile options
          := structure_text node_line (filepath_Base rootPath)
               (files_nodes rootPath (sorted_files files w) ∅).1]> (w_files w))
       (with_heap (<[files := sorted_files files w]> (w_heap w)) w)).
Proof.
  intros Hc Hroot. unfold generateStructureFile, sort_Slice_in_place.
  rewrite bind_run, os_Create_run, Hc. cbn [fst snd]. cbv beta iota.
  run_M. fold (root_path options w). rewrite Hroot. cbv iota. run_M.
  rewrite !lookup_insert_eq. cbn [default from_option]. unfold id.
  erewrite render_files_run by (world_simpl; apply lookup_insert_eq).
  unfold sorted_files, read_slice. run_M. cbn [fst].
  unfold with_files, with_heap. world_simpl.
  rewrite !insert_insert_eq. unfold structure_text.
  by rewrite !app_assoc_str.
Qed.

Lemma generateStructureFile_fails (files : slice_ref) (options : Options) (w : World)
    (errno : string) :
  w_create_errno w (structureFile options) = Some errno ->
  generateStructureFile files options w
  = (Some (PathError "open" (structureFile options) errno), w).
Proof.
  intros Hc. unfold generateStructureFile.
  rewrite bind_run, os_Create_run, Hc. cbn [fst snd]. by run_M.
Qed.

(** C7, amended.  When the structure file has been made and the root path
    is known (the working directory could be read where the root directory
    is [.]), the text of the structure file is: the line
    [Directory structure:], the line of the root's base name after the
    corner glyph and with a slash, then one line for every node emitted;
    a node's line is four spaces, the vertical-bar prefix once for every
    level of its depth, the branch glyph, its name, and a slash if it is a
    directory; and every node is the component of the relative path of a
    file of the list at the index that is its depth, a directory unless
    the component is the last. *)
Theorem generateStructureFile_text (files : slice_ref) (options : Options)
    (w : World) (rootPath : string) :
  w_create_errno w (structureFile options) = None ->
  root_path options w = inr rootPath ->
  exists nodes : list Node,
    w_files (generateStructureFile files options w).2 !! structureFile options
    = Some ("Directory structure:" +:+ newline
            +:+ "└── " +:+ filepath_Base rootPath +:+ "/" +:+ newline
            +:+ concat_lines
                  ((fun node =>
                      "    " +:+ Repeat "│   " (node_depth node) +:+ "├── "
                      +:+ node_name node
                      +:+ (if node_is_dir node then "/" else "") +:+ newline)
                   <$> nodes))
    /\ Forall (fun node =>
                 exists f, f ∈ (read_slice files w).1 /\ node_of rootPath f node)
              nodes.
Proof.
  intros Hc Hroot. rewrite (generateStructureFile_run _ _ _ _ Hc Hroot).
  exists (files_nodes rootPath (sorted_files files w) ∅).1. split.
  - cbn [snd]. world_simpl. by rewrite lookup_insert_eq.
  - apply Forall_forall. intros node Hnode.
    destruct (files_nodes_of _ _ _ _ Hnode) as (f & Hf & Hof).
    exists f. split; [|done].
    unfold sorted_files in Hf. by rewrite sort_Slice_Permutation in Hf.
Qed.

End Renderer.

Lemma generateStructureFile_text_witness :
  exists nodes : list Node,
    w_files (generateStructureFile Example2.files Example2.options Example2.walked).2
      !! structureFile Example2.options
    = Some ("Directory structure:" +:+ newline
            +:+ "└── " +:+ filepath_Base "/w/r" +:+ "/" +:+ newline
            +:+ concat_lines
                  ((fun node =>
                      "    " +:+ Repeat "│   " (node_depth node) +:+ "├── "
                      +:+ node_name node
                      +:+ (if node_is_dir node then "/" else "") +:+ newline)
                   <$> nodes))
    /\ Forall (fun node =>
                 exists f, f ∈ (read_slice Example2.files Example2.walked).1
                           /\ node_of "/w/r" f node)
              nodes.
Proof.
  apply (generateStructureFile_text Example2.files Example2.options
           Example2.walked "/w/r").
  - vm_compute. reflexivity.
  - vm_compute. reflexivity.
Defined.

Lemma structure_text_split (line : Node -> string) (rootName : string)
    (nodes : list Node) :
  structure_text line rootName nodes
  = structure_head rootName +:+ concat_lines (line <$> nodes).
Proof. unfold structure_text, structure_head. by rewrite !app_assoc_str. Qed.

(** C7 as the specification words it does not hold: the node lines of the
    example's structure file begin with four spaces, so its text is not the
    two header lines followed by lines that begin with the vertical-bar
    prefix or the branch glyph. *)
Lemma generateStructureFile_text_counterexample :
  ~ exists nodes : list Node,
      w_files (generateStructureFile Example2.files Example2.options Example2.walked).2
        !! structureFile Example2.options
      = Some (structure_text claimed_node_line (filepath_Base "/w/r") nodes).
Proof.
  intros [nodes Htext].
  assert (Hactual :
    w_files (generateStructureFile Example2.files Example2.options Example2.walked).2
      !! structureFile Example2.options
    = Some (structure_text node_line (filepath_Base "/w/r")
              [{| node_depth := 0; node_name := "a.go"; node_is_dir := false |};
               {| node_depth := 0; node_name := "a"; node_is_dir := true |};
               {| node_depth := 1; node_name := "b.go"; node_is_dir := false |};
               {| node_depth := 0; node_name := "b.md"; node_is_dir := false |}])).
  { vm_compute. reflexivity. }
  rewrite Hactual, !structure_text_split in Htext.
  apply (inj Some) in Htext.
  apply (inj (String.append (structure_head (filepath_Base "/w/r")))) in Htext.
  apply (f_equal first_byte) in Htext.
  clear Hactual.
  destruct nodes as [|[[|depth] name is_dir] rest]; lazy in Htext; discriminate Htext.
Qed.

(** ** The order of the list after rendering *)

Lemma ltb_leb (a b : string) : String.ltb a b = negb (String.leb b a).
Proof.
  unfold String.ltb, String.leb. rewrite (String.compare_antisym a b).
  by destruct (String.compare b a).
Qed.

Lemma leb_le (a b : string) : String.leb a b = true <-> String.le a b.
Proof. unfold String.le. by destruct (String.leb a b). Qed.

Lemma path_less_StrictWeak : StrictWeak path_less.
Proof.
  assert (Hlt : forall a b, path_less a b = true <-> ~ String.le (Path b) (Path a)).
  { intros a b. unfold path_less. rewrite ltb_leb, negb_true_iff, <- leb_le.
    by destruct (String.leb (Path b) (Path a)). }
  assert (Hge : forall a b, path_less a b = false <-> String.le (Path b) (Path a)).
  { intros a b. unfold path_less. rewrite ltb_leb, negb_false_iff. apply leb_le. }
  split.
  - intros a. by apply Hge.
  - intros a b c Hab%Hlt Hbc%Hlt. apply Hlt. intros Hca.
    destruct (total String.le (Path a) (Path b)) as [Hle|Hle]; [|done].
    apply Hbc. by etrans.
  - intros a b c Hab%Hge Hba%Hge Hbc%Hge Hcb%Hge.
    split; apply Hge; by etrans.
Qed.

Lemma Sorted_weaken {A : Type} (R R' : A -> A -> Prop) (l : list A) :
  (forall a b, R a b -> R' a b) -> Sorted R l -> Sorted R' l.
Proof.
  intros HR. induction 1 as [|x l Hl IH Hx]; constructor; [done|].
  destruct Hx; constructor. by apply HR.
Qed.

Section Order.

Context `{GoLibrary}.

Lemma sorted_files_spec (files : slice_ref) (w : World) :
  sorted_files files w ≡ₚ (read_slice files w).1
  /\ path_ascending (sorted_files files w).
Proof.
  unfold sorted_files. split; [apply sort_Slice_Permutation|].
  unfold path_ascending.
  eapply Sorted_weaken; [|apply sort_Slice_Sorted, path_less_StrictWeak].
  intros a b. unfold path_less. rewrite ltb_leb. by intros ->%negb_false_iff.
Qed.

Lemma generateStructureFile_no_root (files : slice_ref) (options : Options)
    (w : World) (err : error) :
  w_create_errno w (structureFile options) = None ->
  root_path options w = inl err ->
  (generateStructureFile files options w).1 = Some err
  /\ (read_slice files (generateStructureFile files options w).2).1
     = sorted_files files w.
Proof.
  intros Hc Hroot. unfold generateStructureFile, sort_Slice_in_place.
  rewrite bind_run, os_Create_run, Hc. cbn [fst snd]. cbv beta iota.
  run_M. fold (root_path options w). rewrite Hroot. cbv iota. run_M.
  split; [done|]. unfold read_slice. run_M. cbn [fst].
  by rewrite lookup_insert_eq.
Qed.

(** A successful rendering leaves the caller's slice a permutation of
    itself in ascending path order. *)
Lemma generateStructureFile_sorts (files : slice_ref) (options : Options)
    (w w' : World) :
  generateStructureFile files options w = (None, w') ->
  (read_slice files w').1 = sorted_files files w
  /\ w_files w' !! structureFile options <> None
  /\ w_create_errno w' = w_create_errno w
  /\ (forall name, name <> structureFile options ->
                   w_files w' !! name = w_files w !! name).
Proof.
  intros Hrun.
  destruct (w_create_errno w (structureFile options)) as [errno|] eqn:Hc.
  { by rewrite (generateStructureFile_fails _ _ _ _ Hc) in Hrun. }
  destruct (root_path options w) as [err|rootPath] eqn:Hroot.
  { destruct (generateStructureFile_no_root files _ _ _ Hc Hroot) as [Hno _].
    by rewrite Hrun in Hno. }
  rewrite (generateStructureFile_run _ _ _ _ Hc Hroot) in Hrun.
  injection Hrun as _ <-. unfold read_slice at 1. run_M.
  rewrite !lookup_insert_eq. split_and!; try done.
  intros name Hname. by rewrite lookup_insert_ne.
Qed.

Lemma Fprint_written (file text written : string) (w : World)
    (files : gmap string string) :
  Fprint file text (with_files (<[file := written]> files) w)
  = (tt, with_files (<[file := written +:+ text]> files) w).
Proof.
  rewrite Fprint_run. world_simpl. by rewrite lookup_insert_eq, insert_insert_eq.
Qed.

(** One [Fprint] to a file whose text so far is known. *)
Ltac fprint_M := rewrite bind_run, Fprint_written; cbn [fst snd]; cbv beta.

Lemma generateSummaryFile_run (stats : Statistics) (options : Options) (w : World) :
  exists text,
    generateSummaryFile stats options w
    = match w_create_errno w (summaryFile options) with
      | Some errno => (Some (PathError "open" (summaryFile options) errno), w)
      | None => (None, with_files (<[summaryFile options := text]> (w_files w)) w)
      end.
Proof.
  unfold generateSummaryFile. rewrite bind_run, os_Create_run.
  destruct (w_create_errno w (summaryFile options)) as [errno|].
  - eexists EmptyString. cbn [fst snd]. by rewrite ret_run.
  - eexists. cbn [fst snd]. cbv beta iota.
    do 7 fprint_M. rewrite ret_run. reflexivity.
Qed.

(** When [main] ends with status 0, the content file holds the blocks of
    the records in ascending path order: the list the walk returned, as
    the renderer has sorted it. *)
Lemma main_content_order (flags : Flags) (w w' : World) :
  main flags w = (0, w') ->
  flag_content flags <> flag_summary flags ->
  let options := options_of flags in
  exists walked sorted : list FileInfo,
    filepath_Walk options (rootDir options) (w_tree w) [] = (walked, None)
    /\ sorted = sort_Slice walked path_less
    /\ sorted ≡ₚ walked
    /\ path_ascending sorted
    /\ w_files w' !! contentFile options = Some (content_text sorted).
Proof.
  intros Hmain Hne options. unfold main in Hmain. fold options in Hmain.
  revert Hmain. run_M.
  destruct (w_missing w (rootDir options)); [by run_M|].
  run_M. rewrite walkDirectory_run. world_simpl.
  destruct (filepath_Walk options (rootDir options) (w_tree w) [])
    as [walked [err|]] eqn:Hwalk; cbn [fst snd]; [by run_M|].
  rewrite bind_run.
  match goal with
  | |- context [generateStructureFile ?x options ?v] =>
    set (files := x); set (w1 := v);
    destruct (generateStructureFile files options w1) as [[err|] w2] eqn:Hs
  end; cbn [fst snd]; [by run_M|].
  destruct (generateStructureFile_sorts _ _ _ _ Hs) as (Hread & _ & Hcreate & _).
  rewrite bind_run.
  destruct (generateContentFile files options w2) as [[stats [err|]] w3] eqn:Hg;
    cbn [fst snd]; [by run_M|].
  destruct (generateContentFile_written _ _ _ _ _ Hg) as [Htext Hframe].
  rewrite bind_run.
  destruct (generateSummaryFile_run stats options w3) as [text ->].
  destruct (w_create_errno w3 (summaryFile options)) as [errno|];
    cbn [fst snd]; [by run_M|].
  run_M. intros [= <-]. world_simpl.
  rewrite lookup_insert_ne by (cbn; congruence).
  exists walked, (sort_Slice walked path_less). split; [done|]. split; [done|].
  assert (Hsorted : sorted_files files w1 = sort_Slice walked path_less).
  { unfold sorted_files, read_slice, files, w1. run_M. cbn [fst].
    by rewrite lookup_insert_eq. }
  rewrite <- Hsorted. destruct (sorted_files_spec files w1) as [Hperm Hasc].
  split.
  { rewrite Hperm. unfold read_slice, files, w1. run_M. cbn [fst].
    by rewrite lookup_insert_eq. }
  split; [done|].
  rewrite Htext. by rewrite Hread.
Qed.

End Order.

(** C10.  The renderer sorts the slice it is given, not a copy: once the
    structure file has been made, the slice the caller holds is a
    permutation of what it was, in ascending order of the paths; so when
    [main] runs to its end the content file holds the records of the walk
    in ascending path order.  In the example the walk visits [a/b.go]
    before [a.go], and the content file does not list them in that order. *)
Theorem generateStructureFile_sorts_in_place :
  (forall (library : GoLibrary) (files : slice_ref) (options : Options) (w : World),
     w_create_errno w (structureFile options) = None ->
     let w' := (generateStructureFile files options w).2 in
     (read_slice files w').1 ≡ₚ (read_slice files w).1
     /\ path_ascending (read_slice files w').1)
  /\ (forall (library : GoLibrary) (flags : Flags) (w w' : World),
        main flags w = (0, w') ->
        flag_content flags <> flag_summary flags ->
        exists walked sorted : list FileInfo,
          filepath_Walk (options_of flags) (flag_dir flags) (w_tree w) []
          = (walked, None)
          /\ sorted ≡ₚ walked
          /\ path_ascending sorted
          /\ w_files w' !! flag_content flags = Some (content_text sorted))
  /\ (exists (walked : list FileInfo) (w' : World),
        filepath_Walk (options_of Example.flags) "/w/r" (w_tree Example.world) []
        = (walked, None)
        /\ Path <$> walked = ["/w/r/a/b.go"; "/w/r/a.go"; "/w/r/b.md"]
        /\ main Example.flags Example.world = (0, w')
        /\ w_files w' !! "content.txt" <> Some (content_text walked)).
Proof.
  split; [|split].
  - intros library files options w Hc w'. subst w'.
    destruct (sorted_files_spec files w) as [Hperm Hasc].
    destruct (root_path options w) as [err|rootPath] eqn:Hroot.
    + destruct (generateStructureFile_no_root files _ _ _ Hc Hroot) as [_ ->].
      done.
    + rewrite (generateStructureFile_run _ _ _ _ Hc Hroot). cbn [snd].
      unfold read_slice at 1 3. run_M. cbn [fst]. rewrite lookup_insert_eq.
      done.
  - intros library flags w w' Hmain Hne.
    destruct (main_content_order flags w w' Hmain Hne)
      as (walked & sorted & Hwalk & _ & Hperm & Hasc & Htext).
    by exists walked, sorted.
  - eexists _, (main Example.flags Example.world).2. split_and!.
    + vm_compute. reflexivity.
    + vm_compute. reflexivity.
    + rewrite (surjective_pairing (main Example.flags Example.world)) at 1.
      f_equal; vm_compute; reflexivity.
    + vm_compute. discriminate.
Qed.

(** ** The lines of the tree *)

Lemma genSplit_nonempty (sep s : string) :
  forall skip, strings.genSplit sep skip s <> [].
Proof.
  induction s as [|c t IH]; intros skip; cbn [strings.genSplit]; [done|].
  destruct skip as [|k]; [|apply IH].
  destruct (HasPrefix (String c t) sep); [done|].
  by destruct (strings.genSplit sep 0 t).
Qed.

Lemma Split_nonempty (s sep : string) : (0 < length (strings.Split s sep))%nat.
Proof.
  unfold strings.Split. pose proof (genSplit_nonempty sep s 0%nat) as Hne.
  destruct (strings.genSplit sep 0 s); [done|cbn; lia].
Qed.

Section Tree.

Context `{GoLibrary}.

Lemma all_emitted_empty : all_emitted ∅.
Proof.
  intros k. unfold dirs_get. rewrite lookup_empty, dom_empty. cbn. set_solver.
Qed.

Lemma all_emitted_insert (dirs : gmap string bool) (key : string) :
  all_emitted dirs -> all_emitted (<[key := true]> dirs).
Proof.
  intros Hd k. specialize (Hd k). rewrite dom_insert_L. unfold dirs_get.
  destruct (decide (k = key)) as [->|Hne].
  - rewrite lookup_insert_eq. cbn. split; [intros _|done].
    apply elem_of_union. left. by apply elem_of_singleton.
  - rewrite lookup_insert_ne by done. split.
    + intros Hk. apply elem_of_union. right. by apply Hd.
    + intros [Hk%elem_of_singleton|Hk]%elem_of_union; [done|by apply Hd].
Qed.

Lemma component_nodes_count (components : list string) (i : nat)
    (dirs : gmap string bool) :
  all_emitted dirs ->
  let nodes := (component_nodes components i dirs).1 in
  let dirs' := (component_nodes components i dirs).2 in
  all_emitted dirs'
  /\ dom dirs' = dom dirs ∪ list_to_set (prefix_keys components [i])
  /\ size (dom dirs') = (size (dom dirs) + length (filter node_is_dir nodes))%nat
  /\ length (filter is_file nodes)
     = length (filter (fun i => Z.of_nat i = Z.of_nat (length components) - 1) [i]).
Proof.
  intros Hd. unfold component_nodes, prefix_keys.
  destruct (Z.of_nat i =? Z.of_nat (length components) - 1) eqn:Hlast;
    cbn [negb andb].
  - apply Z.eqb_eq in Hlast. cbn [fst snd].
    rewrite !filter_cons, !filter_nil. unfold is_file. cbn [node_is_dir negb].
    repeat case_decide; try done. cbn.
    split_and!; [done|by rewrite !(right_id_L ∅ (∪))|lia|done].
  - apply Z.eqb_neq in Hlast.
    destruct (dirs_get dirs (filepath_Join (take (i + 1) components))) eqn:Hget;
      cbn [negb fst snd];
      rewrite !filter_cons, !filter_nil; unfold is_file; cbn [node_is_dir negb];
      repeat case_decide; try done; cbn.
    + apply Hd in Hget. rewrite (right_id_L ∅ (∪)).
      split_and!; [done| |lia|done].
      rewrite (comm_L (∪)). symmetry.
      by apply subseteq_union_1_L, singleton_subseteq_l.
    + assert (Hfresh : filepath_Join (take (i + 1) components) ∉ dom dirs).
      { intros Hin%Hd. congruence. }
      rewrite dom_insert_L, (right_id_L ∅ (∪)).
      split_and!; [by apply all_emitted_insert|apply (comm_L (∪))| |done].
      rewrite size_union, size_singleton by by apply disjoint_singleton_l. lia.
Qed.

Lemma components_nodes_count (components : list string) (indices : list nat) :
  forall dirs : gmap string bool,
    all_emitted dirs ->
    let nodes := (components_nodes components indices dirs).1 in
    let dirs' := (components_nodes components indices dirs).2 in
    all_emitted dirs'
    /\ dom dirs' = dom dirs ∪ list_to_set (prefix_keys components indices)
    /\ size (dom dirs') = (size (dom dirs) + length (filter node_is_dir nodes))%nat
    /\ length (filter is_file nodes)
       = length (filter (fun i => Z.of_nat i = Z.of_nat (length components) - 1)
                        indices).
Proof.
  induction indices as [|i rest IH]; intros dirs Hd; cbn [components_nodes].
  - cbn. split_and!; [done|by rewrite (right_id_L ∅ (∪))|lia|done].
  - destruct (component_nodes_count components i dirs Hd)
      as (Hd1 & Hdom1 & Hsize1 & Hfiles1).
    destruct (component_nodes components i dirs) as [nodes dirs1].
    cbn [fst snd] in Hd1, Hdom1, Hsize1, Hfiles1.
    destruct (IH dirs1 Hd1) as (Hd2 & Hdom2 & Hsize2 & Hfiles2).
    destruct (components_nodes components rest dirs1) as [more dirs2].
    cbn [fst snd] in Hd2, Hdom2, Hsize2, Hfiles2 |- *.
    rewrite !filter_app, !length_app.
    split_and!; [done| |lia|].
    + rewrite Hdom2, Hdom1, <- (assoc_L (∪)), <- list_to_set_app_L.
      unfold prefix_keys. by rewrite <- fmap_app, <- filter_app.
    + rewrite Hfiles1, Hfiles2.
      destruct (decide (Z.of_nat i = Z.of_nat (length components) - 1)).
      * by rewrite !filter_cons_True by done.
      * by rewrite !filter_cons_False by done.
Qed.

Lemma filter_none {A : Type} (P : A -> Prop) `{!forall x, Decision (P x)}
    (l : list A) :
  Forall (fun x => ~ P x) l -> filter P l = [].
Proof. induction 1 as [|x l Hx _ IH]; [done|]. by rewrite filter_cons_False. Qed.

(** Exactly one index of a non-empty component list is the last. *)
Lemma one_last_index (n : nat) :
  (0 < n)%nat ->
  length (filter (fun i => Z.of_nat i = Z.of_nat n - 1) (seq 0 n)) = 1%nat.
Proof.
  intros Hn. destruct n as [|m]; [lia|].
  rewrite seq_S, filter_app, length_app, filter_cons_True, filter_nil by (cbn; lia).
  rewrite filter_none; [done|].
  apply Forall_forall. intros i Hi%elem_of_seq. lia.
Qed.

Lemma files_nodes_count (rootPath : string) (files : list FileInfo) :
  forall dirs : gmap string bool,
    all_emitted dirs ->
    (files_nodes rootPath files dirs).2 = None ->
    let nodes := (files_nodes rootPath files dirs).1 in
    length (filter is_file nodes) = length files
    /\ size (dom dirs ∪ list_to_set (files ≫= dir_prefixes rootPath))
       = (size (dom dirs) + length (filter node_is_dir nodes))%nat.
Proof.
  induction files as [|f rest IH]; intros dirs Hd; cbn [files_nodes].
  - intros _. cbn. by rewrite (right_id_L ∅ (∪)), Nat.add_0_r.
  - rewrite bind_cons. unfold dir_prefixes at 1.
    destruct (filepath_Rel rootPath (Path f)) as [err|relPath]; [done|].
    cbv zeta.
    destruct (components_nodes_count (strings.Split relPath "/")
                (seq 0 (length (strings.Split relPath "/"))) dirs Hd)
      as (Hd1 & Hdom1 & Hsize1 & Hfiles1).
    rewrite one_last_index in Hfiles1 by apply Split_nonempty.
    destruct (components_nodes _ _ dirs) as [nodes dirs1].
    cbn [fst snd] in Hd1, Hdom1, Hsize1, Hfiles1.
    specialize (IH dirs1 Hd1).
    destruct (files_nodes rootPath rest dirs1) as [more err].
    cbn [fst snd] in IH |- *. intros ->. destruct (IH eq_refl) as [IHfiles IHdirs].
    rewrite !filter_app, !length_app, Hfiles1, IHfiles. split; [done|].
    rewrite list_to_set_app_L, (assoc_L (∪)), <- Hdom1, IHdirs, Hsize1. lia.
Qed.

Lemma files_nodes_paths (rootPath : string) (l1 : list FileInfo) :
  forall (l2 : list FileInfo) (dirs : gmap string bool),
    Path <$> l1 = Path <$> l2 ->
    files_nodes rootPath l1 dirs = files_nodes rootPath l2 dirs.
Proof.
  induction l1 as [|f1 l1 IH]; intros [|f2 l2] dirs Hp; try done.
  injection Hp as Hf Hrest. cbn [files_nodes]. rewrite Hf.
  destruct (filepath_Rel rootPath (Path f2)) as [err|relPath]; [done|].
  destruct (components_nodes _ _ dirs) as [nodes dirs1].
  by rewrite (IH l2 dirs1 Hrest).
Qed.

(** Sorting two permutations of a list gives the same sequence of paths. *)
Lemma sort_Slice_paths (l1 l2 : list FileInfo) :
  l1 ≡ₚ l2 ->
  Path <$> sort_Slice l1 path_less = Path <$> sort_Slice l2 path_less.
Proof.
  intros Hperm.
  assert (Hsorted : forall l, Sorted String.le (Path <$> sort_Slice l path_less)).
  { intros l.
    eapply Sorted_fmap; [|apply sort_Slice_Sorted, path_less_StrictWeak].
    intros a b. cbv beta. unfold path_less. rewrite ltb_leb.
    intros Hle%negb_false_iff. by apply leb_le. }
  apply (Sorted_unique String.le); [apply Hsorted..|].
  by rewrite !sort_Slice_Permutation, Hperm.
Qed.

(** X7.  When the renderer returns no error, the structure file has one
    file line for every record of the list and one directory line for every
    distinct directory prefix of the records. *)
Lemma generateStructureFile_one_line_each (files : slice_ref) (options : Options)
    (w w' : World) :
  generateStructureFile files options w = (None, w') ->
  exists (rootPath : string) (nodes : list Node),
    root_path options w = inr rootPath
    /\ w_files w' !! structureFile options
       = Some (structure_text node_line (filepath_Base rootPath) nodes)
    /\ length (filter is_file nodes) = length (read_slice files w).1
    /\ length (filter node_is_dir nodes)
       = size (list_to_set ((read_slice files w).1 ≫= dir_prefixes rootPath)
               : gset string).
Proof.
  intros Hrun.
  destruct (w_create_errno w (structureFile options)) as [errno|] eqn:Hc.
  { by rewrite (generateStructureFile_fails _ _ _ _ Hc) in Hrun. }
  destruct (root_path options w) as [err|rootPath] eqn:Hroot.
  { destruct (generateStructureFile_no_root files _ _ _ Hc Hroot) as [Hno _].
    by rewrite Hrun in Hno. }
  rewrite (generateStructureFile_run _ _ _ _ Hc Hroot) in Hrun.
  injection Hrun as Herr <-.
  destruct (files_nodes_count rootPath (sorted_files files w) ∅ all_emitted_empty Herr)
    as [Hfiles Hdirs].
  destruct (sorted_files_spec files w) as [Hperm _].
  exists rootPath, (files_nodes rootPath (sorted_files files w) ∅).1.
  split_and!; [done| | |].
  - world_simpl. by rewrite lookup_insert_eq.
  - by rewrite Hfiles, Hperm.
  - rewrite dom_empty_L, (left_id_L ∅ (∪)), size_empty in Hdirs.
    by rewrite <- Hperm, Hdirs.
Qed.

(** X8.  Two permutations of a list are rendered to the same text, and to
    the same error if there is one. *)
Lemma generateStructureFile_permutation (files1 files2 : slice_ref)
    (options : Options) (w1 w2 : World) (rootPath : string) :
  (read_slice files1 w1).1 ≡ₚ (read_slice files2 w2).1 ->
  w_create_errno w1 (structureFile options) = None ->
  w_create_errno w2 (structureFile options) = None ->
  root_path options w1 = inr rootPath ->
  root_path options w2 = inr rootPath ->
  (generateStructureFile files1 options w1).1
  = (generateStructureFile files2 options w2).1
  /\ w_files (generateStructureFile files1 options w1).2 !! structureFile options
     = w_files (generateStructureFile files2 options w2).2 !! structureFile options.
Proof.
  intros Hperm Hc1 Hc2 Hroot1 Hroot2.
  rewrite (generateStructureFile_run _ _ _ _ Hc1 Hroot1).
  rewrite (generateStructureFile_run _ _ _ _ Hc2 Hroot2).
  cbn [fst snd]. world_simpl. rewrite !lookup_insert_eq.
  rewrite (files_nodes_paths rootPath (sorted_files files1 w1) (sorted_files files2 w2));
    [done|].
  by apply sort_Slice_paths.
Qed.

End Tree.

(** C3 at the default root: with the flags left at their defaults in a
    working directory [/w] that holds [a.go], the walk finds the file, the
    renderer gets an error from [filepath.Rel] for its path, the structure
    file holds the two header lines and no line for the file, and [main]
    exits with status 1 without a content file. *)
Lemma generateStructureFile_default_root :
  let run := main default_flags Example2.dot_world in
  (filepath_Walk (options_of default_flags) "." (w_tree Example2.dot_world) []).1
  = [{| Path := "a.go"; IsDir := false; Size := 12; Content := "package main" |}]
  /\ filepath_Rel "/w" "a.go"
     = inl (errorString "Rel: can't make a.go relative to /w")
  /\ run.1 = 1
  /\ w_files run.2 !! "directory-structure.txt"
     = Some ("Directory structure:" +:+ newline +:+ "└── w/" +:+ newline)
  /\ w_files run.2 !! "content.txt" = None.
Proof. vm_compute. split_and!; reflexivity. Qed.

(** * Further properties *)

(** ** The listing of a walk *)

Section WalkListingProofs.

Context `{GoLibrary}.

Lemma kept_Dir (options : Options) (path : string) (names : list (string * Entry)) :
  kept options path (Dir names) = kept_names options path names.
Proof.
  cbn [kept]. induction names as [|[name child] rest IH]; [done|].
  cbn [kept_names]. by rewrite <- IH.
Qed.

Lemma walk_kept (options : Options) (info : Entry) :
  forall path acc acc',
    walk options path info acc = (acc', None) ->
    acc' = acc ++ kept options path info.
Proof.
  induction info as [errno|size data|op errno|names IH] using Entry_ind;
    intros path acc acc'.
  - cbn. done.
  - cbn. destruct (includeFile options path), data as [[op errno]|content];
      try done; intros [= <-]; by rewrite ?app_nil_r.
  - cbn. done.
  - rewrite walk_Dir, kept_Dir. revert acc acc'.
    induction IH as [|[name child] rest Hchild _ IHrest]; intros acc acc'.
    + cbn. intros [= <-]. by rewrite app_nil_r.
    + cbn [walk_names kept_names].
      destruct (walk options (filepath_Join [path; name]) child acc)
        as [acc1 [err|]] eqn:Hw; [done|].
      intros Hrest. apply Hchild in Hw as ->. apply IHrest in Hrest as ->.
      by rewrite app_assoc.
Qed.

Lemma kept_files (options : Options) (info : Entry) :
  forall path, Forall (fun f => IsDir f = false) (kept options path info).
Proof.
  induction info as [errno|size data|op errno|names IH] using Entry_ind;
    intros path.
  - constructor.
  - cbn. destruct data as [[op errno]|content]; [constructor|].
    destruct (includeFile options path); repeat constructor.
  - constructor.
  - rewrite kept_Dir.
    induction IH as [|[name child] rest Hchild _ IHrest]; [constructor|].
    cbn [kept_names]. apply Forall_app. split; [apply Hchild|apply IHrest].
Qed.

(** X1.  When the walk ends without an error, the list it returns holds
    one record for every visit of a file that passes the filter, in the
    order of the walk (depth first, the names of a directory in the order
    they are read), each with the file's path, size and content and with
    [IsDir] false. *)
Theorem walkDirectory_listing (options : Options) (w w' : World) (files : slice_ref) :
  walkDirectory options w = ((files, None), w') ->
  (read_slice files w').1 = kept options (rootDir options) (w_tree w (rootDir options))
  /\ Forall (fun f => IsDir f = false) (read_slice files w').1.
Proof.
  rewrite walkDirectory_run. intros [= <- Herr <-].
  unfold read_slice. run_M. cbn [fst]. rewrite lookup_insert_eq.
  cbn [default from_option]. unfold id.
  unfold filepath_Walk in *.
  destruct (walk options (rootDir options) (w_tree w (rootDir options)) [])
    as [acc err] eqn:Hw.
  cbn [fst snd] in *. subst err. apply walk_kept in Hw as ->. cbn [app].
  split; [done|apply kept_files].
Qed.

End WalkListingProofs.

(** ** More on the tokenizer *)

Lemma count_starts_zero (d : Z -> bool) (rs : list Z) :
  count_starts d true rs = 0%nat <-> Forall (fun r => d r = true) rs.
Proof.
  induction rs as [|r rest IH]; cbn [count_starts]; [by split; [constructor|]|].
  destruct (d r) eqn:Hd; cbn [negb andb].
  - rewrite Nat.add_0_l, IH. split; [by constructor|by inversion 1].
  - split; [lia|]. inversion 1; congruence.
Qed.

Lemma count_starts_bound (d : Z -> bool) (rs : list Z) :
  forall b : bool,
    (2 * count_starts d b rs <= length rs + (if b then 1 else 0))%nat.
Proof.
  induction rs as [|r rest IH]; intros b; cbn [count_starts length]; [lia|].
  pose proof (IH (d r)) as Hr.
  destruct (d r), b; cbn [negb andb] in *; lia.
Qed.

Lemma length_range_from (s : string) :
  forall i skip : nat, (length (utf8.range_from i skip s) <= len s)%nat.
Proof.
  induction s as [|c t IH]; intros i skip; cbn [utf8.range_from len]; [done|].
  destruct skip as [|k].
  - destruct (utf8.DecodeRuneInString (String c t)) as [r size].
    cbn [length]. pose proof (IH (S i) (size - 1)%nat). lia.
  - pose proof (IH (S i) k). lia.
Qed.

Section TokenizerBounds.

Context `{GoLibrary}.

(** X5.  A text has no token exactly when every rune of it is white space
    or punctuation; the empty text has none. *)
Theorem countTokens_zero (text : string) :
  countTokens text = 0
  <-> Forall (fun r => unicode.IsSpace r || unicode.IsPunct unicode_Punct r = true)
             (utf8.range text).*2.
Proof.
  rewrite countTokens_count_starts.
  change (Forall _ (utf8.range text).*2)
    with (Forall (fun r => is_delimiter r = true) (utf8.range text).*2).
  rewrite <- (count_starts_zero is_delimiter). lia.
Qed.

(** X6.  The token count is not negative, and two tokens take at least
    three bytes: twice the count is at most the length of the text in
    bytes plus one. *)
Theorem countTokens_bound (text : string) :
  0 <= countTokens text /\ 2 * countTokens text <= Z.of_nat (len text) + 1.
Proof.
  rewrite countTokens_count_starts.
  pose proof (count_starts_bound is_delimiter (utf8.range text).*2 true) as Hb.
  rewrite length_fmap in Hb.
  pose proof (length_range_from text 0 0) as Hl. unfold utf8.range in *. lia.
Qed.

End TokenizerBounds.

(** ** More on the extension normalizer *)

(** X3.  Normalizing a list in two parts gives the two normalized parts,
    one after the other. *)
Theorem normalizeExtensions_app (exts1 exts2 : list string) :
  normalizeExtensions (exts1 ++ exts2)
  = normalizeExtensions exts1 ++ normalizeExtensions exts2.
Proof.
  rewrite !normalizeExtensions_spec. unfold normalized_spec.
  by rewrite fmap_app, filter_app, fmap_app.
Qed.

(** X4.  The normalized list is empty exactly when every token is empty
    after trimming. *)
Theorem normalizeExtensions_nil (exts : list string) :
  normalizeExtensions exts = []
  <-> Forall (fun ext => strings.TrimSpace ext = EmptyString) exts.
Proof.
  rewrite normalizeExtensions_spec. unfold normalized_spec.
  induction exts as [|ext rest IH]; [by split; [constructor|]|].
  rewrite fmap_cons.
  destruct (decide (strings.TrimSpace ext = EmptyString)) as [He|Hne].
  - rewrite filter_cons_False by (intros Hn; by apply Hn).
    rewrite IH. split; [by constructor|by inversion 1].
  - rewrite filter_cons_True by done. rewrite fmap_cons.
    split; [done|by inversion 1].
Qed.

(** ** Files without an extension *)

Lemma Ext_nonempty_entries (exts : list string) :
  Forall (fun e => e <> EmptyString) (normalizeExtensions exts).
Proof.
  rewrite normalizeExtensions_spec. unfold normalized_spec.
  apply Forall_fmap, Forall_forall. intros t _. apply dotted_nonempty.
Qed.

Section NoExtension.

Context `{GoLibrary}.

Lemma no_match_empty (exts : list string) :
  (forall t, strings_EqualFold EmptyString t = true -> t = EmptyString) ->
  Forall (fun e => e <> EmptyString) exts ->
  ~ matches EmptyString exts.
Proof.
  intros Hfold Hne (e & He & Hm). apply Hfold in Hm.
  rewrite Forall_forall in Hne. by apply (Hne e).
Qed.

(** X2.  With the extension sets of the command line, a file whose name
    has no extension is kept exactly when the include set is empty: no
    exclude entry removes it and no include entry lets it in.  ([EqualFold]
    matches the empty string with nothing but itself.) *)
Theorem includeFile_no_extension (flags : Flags) (path : string) :
  (forall t, strings_EqualFold EmptyString t = true -> t = EmptyString) ->
  filepath.Ext path = EmptyString ->
  includeFile (options_of flags) path = true
  <-> includeExts (options_of flags) = [].
Proof.
  intros Hfold Hext. rewrite includeFile_spec. unfold passes_filter.
  rewrite Hext. cbn [includeExts excludeExts options_of].
  pose proof (no_match_empty _ Hfold (Ext_nonempty_entries
                (strings.Split (flag_include flags) ","))) as Hi.
  pose proof (no_match_empty _ Hfold (Ext_nonempty_entries
                (strings.Split (flag_exclude flags) ","))) as He.
  tauto.
Qed.

End NoExtension.

(** ** The stages and their errors *)

Section Stages.

Context `{GoLibrary}.

(** The renderer stops at the first record whose path cannot be made
    relative to the root. *)
Lemma files_nodes_error (rootPath : string) (files : list FileInfo) :
  forall dirs : gmap string bool,
    match (files_nodes rootPath files dirs).2 with
    | Some err => exists f, f ∈ files /\ filepath_Rel rootPath (Path f) = inl err
    | None => Forall (fun f => exists relPath,
                        filepath_Rel rootPath (Path f) = inr relPath) files
    end.
Proof.
  induction files as [|f rest IH]; intros dirs; cbn [files_nodes].
  - cbn. constructor.
  - destruct (filepath_Rel rootPath (Path f)) as [err|relPath] eqn:Hrel.
    + cbn. exists f. split; [left|done].
    + destruct (components_nodes _ _ dirs) as [nodes dirs1].
      specialize (IH dirs1).
      destruct (files_nodes rootPath rest dirs1) as [more [err|]]; cbn [snd] in *.
      * destruct IH as (g & Hg & Herr). exists g. split; [by right|done].
      * constructor; [by exists relPath|done].
Qed.

(** X9.  When the path of some record cannot be made relative to the root
    path, the renderer returns the error [filepath.Rel] gives for such a
    record. *)
Theorem generateStructureFile_rel_error (files : slice_ref) (options : Options)
    (w : World) (rootPath : string) (f : FileInfo) (err : error) :
  w_create_errno w (structureFile options) = None ->
  root_path options w = inr rootPath ->
  f ∈ (read_slice files w).1 ->
  filepath_Rel rootPath (Path f) = inl err ->
  exists (g : FileInfo) (err' : error),
    g ∈ (read_slice files w).1
    /\ filepath_Rel rootPath (Path g) = inl err'
    /\ (generateStructureFile files options w).1 = Some err'.
Proof.
  intros Hc Hroot Hf Hrel. rewrite (generateStructureFile_run _ _ _ _ Hc Hroot).
  cbn [fst]. destruct (sorted_files_spec files w) as [Hperm _].
  pose proof (files_nodes_error rootPath (sorted_files files w) ∅) as Herr.
  destruct (files_nodes rootPath (sorted_files files w) ∅).2 as [err'|].
  - destruct Herr as (g & Hg & Hgrel). exists g, err'.
    split_and!; [by rewrite <- Hperm|done|done].
  - rewrite Forall_forall in Herr. rewrite <- Hperm in Hf.
    destruct (Herr f Hf) as [relPath Hok]. congruence.
Qed.

(** X10.  When the root directory is [.] and the working directory cannot
    be read, the renderer returns that error; the structure file has been
    made and holds the title line only. *)
Theorem generateStructureFile_getwd_error (files : slice_ref) (options : Options)
    (w : World) (err : error) :
  w_create_errno w (structureFile options) = None ->
  rootDir options = "." ->
  w_getwd w = inl err ->
  let run := generateStructureFile files options w in
  run.1 = Some err
  /\ w_files run.2 !! structureFile options
     = Some ("Directory structure:" +:+ newline).
Proof.
  intros Hc Hroot Hwd run. subst run.
  unfold generateStructureFile, sort_Slice_in_place.
  rewrite bind_run, os_Create_run, Hc. cbn [fst snd]. cbv beta iota.
  run_M. rewrite Hroot. cbn [String.eqb Ascii.eqb Bool.eqb]. rewrite Hwd.
  cbv iota. run_M. split; [done|].
  by rewrite !lookup_insert_eq.
Qed.

(** X12.  The aggregator reads the slice and writes the content file, and
    nothing else: whether or not the file can be made, the slice holds the
    records it held, in their order, every other file is as it was, and
    so is standard output. *)
Theorem generateContentFile_frame (files : slice_ref) (options : Options) (w : World) :
  let w' := (generateContentFile files options w).2 in
  (read_slice files w').1 = (read_slice files w).1
  /\ (forall name, name <> contentFile options ->
                   w_files w' !! name = w_files w !! name)
  /\ w_stdout w' = w_stdout w.
Proof.
  intros w'. subst w'.
  destruct (w_create_errno w (contentFile options)) as [errno|] eqn:Hc.
  - by rewrite (generateContentFile_fails _ _ _ _ Hc).
  - rewrite (generateContentFile_run _ _ _ Hc). cbn [snd].
    split_and!; [done| |done].
    intros name Hname. world_simpl. by rewrite lookup_insert_ne.
Qed.

Lemma generateSummaryFile_written (stats : Statistics) (options : Options) (w : World) :
  w_create_errno w (summaryFile options) = None ->
  generateSummaryFile stats options w
  = (None, with_files (<[summaryFile options := summary_text stats]> (w_files w)) w).
Proof.
  intros Hc. unfold generateSummaryFile.
  rewrite bind_run, os_Create_run, Hc. cbn [fst snd]. cbv beta iota.
  do 7 (rewrite bind_run, Fprint_written; cbn [fst snd]; cbv beta).
  rewrite ret_run. unfold summary_text, KB, MB.
  by rewrite app_empty_l, !app_assoc_str.
Qed.

Lemma generateSummaryFile_fails (stats : Statistics) (options : Options) (w : World)
    (errno : string) :
  w_create_errno w (summaryFile options) = Some errno ->
  generateSummaryFile stats options w
  = (Some (PathError "open" (summaryFile options) errno), w).
Proof.
  intros Hc. unfold generateSummaryFile.
  rewrite bind_run, os_Create_run, Hc. cbn [fst snd]. by run_M.
Qed.

(** X13.  When the summary file can be made, the reporter returns no error
    and the file holds the two header lines and the five lines of the
    statistics: the count, the total size in KB and in MB, the average
    size in KB, the token total and the token average, the sizes divided
    as [float64] and printed with two decimals; what the file held before
    is gone, and every other file is as it was. *)
Theorem generateSummaryFile_text (stats : Statistics) (options : Options) (w : World) :
  w_create_errno w (summaryFile options) = None ->
  let run := generateSummaryFile stats options w in
  run.1 = None
  /\ w_files run.2 !! summaryFile options
     = Some ("Statistics Summary" +:+ newline
             +:+ "=================" +:+ newline
             +:+ "Total files processed: " +:+ fmt_d (TotalFiles stats) +:+ newline
             +:+ "Total file size: "
             +:+ fmt_f2 (float64_div (float64_of_int (TotalSize stats))
                                     (float64_of_int 1024))
             +:+ " KB ("
             +:+ fmt_f2 (float64_div (float64_of_int (TotalSize stats))
                                     (float64_of_int (1024 * 1024)))
             +:+ " MB)" +:+ newline
             +:+ "Average file size: "
             +:+ fmt_f2 (float64_div (AverageFileSize stats) (float64_of_int 1024))
             +:+ " KB" +:+ newline
             +:+ "Total tokens: " +:+ fmt_d (TotalTokens stats) +:+ newline
             +:+ "Average tokens per file: " +:+ fmt_f2 (AverageTokens stats)
             +:+ newline)
  /\ (forall name, name <> summaryFile options ->
                   w_files run.2 !! name = w_files w !! name).
Proof.
  intros Hc run. subst run. rewrite (generateSummaryFile_written _ _ _ Hc).
  cbn [fst snd]. world_simpl. split_and!; [done|by rewrite lookup_insert_eq|].
  intros name Hname. by rewrite lookup_insert_ne.
Qed.

(** X11.  The renderer writes the structure file and reorders the slice it
    is given, and nothing else: whatever it returns, every other file is
    as it was, every other slice holds what it held, and so does standard
    output. *)
Theorem generateStructureFile_frame (files : slice_ref) (options : Options) (w : World) :
  let w' := (generateStructureFile files options w).2 in
  (forall name, name <> structureFile options ->
                w_files w' !! name = w_files w !! name)
  /\ (forall other, other <> files ->
                    (read_slice other w').1 = (read_slice other w).1)
  /\ w_stdout w' = w_stdout w.
Proof.
  intros w'. subst w'.
  destruct (w_create_errno w (structureFile options)) as [errno|] eqn:Hc.
  { by rewrite (generateStructureFile_fails _ _ _ _ Hc). }
  destruct (root_path options w) as [err|rootPath] eqn:Hroot.
  - unfold generateStructureFile, sort_Slice_in_place.
    rewrite bind_run, os_Create_run, Hc. cbn [fst snd]. cbv beta iota.
    run_M. fold (root_path options w). rewrite Hroot. cbv iota. run_M.
    split_and!; [| |done].
    + intros name Hname. by rewrite !lookup_insert_ne.
    + intros other Hother. unfold read_slice. run_M. cbn [fst].
      by rewrite lookup_insert_ne.
  - rewrite (generateStructureFile_run _ _ _ _ Hc Hroot). cbn [snd].
    split_and!; [| |done].
    + intros name Hname. world_simpl. by rewrite lookup_insert_ne.
    + intros other Hother. unfold read_slice. run_M. cbn [fst].
      by rewrite lookup_insert_ne.
Qed.

End Stages.

(** ** [main] *)

Section Main.

Context `{GoLibrary}.

Lemma with_stdout_twice (out out' : string) (w : World) :
  with_stdout out (with_stdout out' w) = with_stdout out w.
Proof. reflexivity. Qed.

Lemma main_run (flags : Flags) (w : World) : main flags w = main_stages flags w.
Proof.
  unfold main, main_stages. set (options := options_of flags).
  rewrite bind_run, get_world_run. cbn [fst snd].
  destruct (w_missing w (rootDir options)).
  { run_M. by rewrite ?app_assoc_str. }
  do 6 (rewrite bind_run, Print_run; cbn [fst snd]; world_simpl).
  rewrite !with_stdout_twice.
  replace (with_stdout _ w)
    with (with_stdout (w_stdout w +:+ options_echo options) w)
    by (unfold options_echo; by rewrite ?app_assoc_str).
  rewrite bind_run.
  destruct (walkDirectory options _) as [[files [err|]] w2]; cbn [fst snd].
  { run_M. by rewrite ?app_assoc_str. }
  rewrite bind_run.
  destruct (generateStructureFile files options w2) as [[err|] w3]; cbn [fst snd].
  { run_M. by rewrite ?app_assoc_str. }
  rewrite bind_run.
  destruct (generateContentFile files options w3) as [[stats [err|]] w4]; cbn [fst snd].
  { run_M. by rewrite ?app_assoc_str. }
  rewrite bind_run.
  destruct (generateSummaryFile stats options w4) as [[err|] w5]; cbn [fst snd].
  { run_M. by rewrite ?app_assoc_str. }
  do 7 (rewrite bind_run, Print_run; cbn [fst snd]; world_simpl).
  rewrite ret_run, !with_stdout_twice. unfold console_summary, KB. by rewrite ?app_assoc_str.
Qed.

End Main.

Section MainStatus.

Context `{GoLibrary}.

(** X14.  When [os.Stat] finds no root directory, [main] prints that the
    directory does not exist and exits with status 1; it makes no file. *)
Theorem main_missing_root (flags : Flags) (w : World) :
  w_missing w (flag_dir flags) = true ->
  let run := main flags w in
  run.1 = 1
  /\ w_stdout run.2
     = w_stdout w +:+ "Directory " +:+ flag_dir flags +:+ " does not exist" +:+ newline
  /\ w_files run.2 = w_files w.
Proof.
  intros Hmissing run. subst run. rewrite main_run. unfold main_stages.
  cbn [rootDir options_of]. by rewrite Hmissing.
Qed.


End MainStatus.

Lemma sum_Permutation (l1 l2 : list Z) : l1 ≡ₚ l2 -> sum l1 = sum l2.
Proof.
  unfold sum. induction 1 as [|x l1 l2 _ IH|x y l|l1 l2 l3 _ IH1 _ IH2];
    cbn [foldr]; lia.
Qed.

Section MainRuns.

Context `{GoLibrary}.

Lemma statistics_of_Permutation (l1 l2 : list FileInfo) :
  l1 ≡ₚ l2 -> statistics_of l1 = statistics_of l2.
Proof.
  intros Hperm. unfold statistics_of.
  rewrite (Permutation_length Hperm).
  rewrite (sum_Permutation (Size <$> l1) (Size <$> l2)) by by rewrite Hperm.
  rewrite (sum_Permutation (countTokens ∘ Content <$> l1) (countTokens ∘ Content <$> l2))
    by by rewrite Hperm.
  done.
Qed.

Lemma generateContentFile_statistics_of (files : slice_ref) (options : Options)
    (w : World) :
  w_create_errno w (contentFile options) = None ->
  (generateContentFile files options w).1.1 = statistics_of (read_slice files w).1.
Proof.
  intros Hc. rewrite (generateContentFile_run _ _ _ Hc). cbn [fst].
  unfold totals, statistics_of.
  cbn [TotalFiles TotalSize TotalTokens AverageFileSize AverageTokens].
  assert (Hsum : forall l, foldl add64 0 l = wrap64 (sum l)).
  { intros l. change 0 with (wrap64 0) at 1. by rewrite foldl_add64. }
  rewrite !Hsum.
  by destruct (0 <? Z.of_nat (length (read_slice files w).1)).
Qed.

Lemma blocks_from_content_text (files : list FileInfo) :
  blocks_from 0 files = content_text files.
Proof.
  rewrite blocks_from_Join by lia. unfold content_text.
  destruct files as [|f rest]; [reflexivity|]. by rewrite app_empty_l.
Qed.

Lemma files_nodes_relative (rootPath : string) (files : list FileInfo) :
  (files_nodes rootPath files ∅).2 = None <-> all_relative rootPath files.
Proof.
  pose proof (files_nodes_error rootPath files ∅) as Herr. unfold all_relative.
  destruct (files_nodes rootPath files ∅).2 as [err|]; [|done].
  split; [done|]. intros Hall. destruct Herr as (f & Hf & Hrel).
  rewrite Forall_forall in Hall. destruct (Hall f Hf) as [relPath Hok]. congruence.
Qed.

(** The same as a test that can be run. *)
Lemma all_relative_check (rootPath : string) (files : list FileInfo) :
  forallb (fun f => match filepath_Rel rootPath (Path f) with
                    | inr _ => true
                    | inl _ => false
                    end) files = true ->
  all_relative rootPath files.
Proof.
  unfold all_relative. induction files as [|f rest IH]; cbn [forallb]; [constructor|].
  destruct (filepath_Rel rootPath (Path f)) as [err|relPath] eqn:Hrel; [done|].
  intros Hrest. constructor; [by exists relPath|by apply IH].
Qed.

Lemma rendering_succeeds (rootPath : string) (walked : list FileInfo) :
  (files_nodes rootPath (sort_Slice walked path_less) ∅).2 = None
  <-> all_relative rootPath walked.
Proof.
  rewrite files_nodes_relative. unfold all_relative.
  by rewrite sort_Slice_Permutation.
Qed.

(** [main] up to the last stage: when the root is there, the walk and the
    renderer return no error and the content file can be made. *)
Lemma main_to_summary (flags : Flags) (w : World) (walked : list FileInfo)
    (rootPath : string) :
  let options := options_of flags in
  let sorted := sort_Slice walked path_less in
  let stats := statistics_of walked in
  let w3 :=
    with_files
      (<[contentFile options := content_text sorted]>
         (<[structureFile options
            := structure_text node_line (filepath_Base rootPath)
                 (files_nodes rootPath sorted ∅).1]> (w_files w)))
      (with_heap (<[fresh (dom (w_heap w)) := sorted]> (w_heap w))
         (with_stdout (w_stdout w +:+ options_echo options) w)) in
  w_missing w (rootDir options) = false ->
  filepath_Walk options (rootDir options) (w_tree w) [] = (walked, None) ->
  w_create_errno w (structureFile options) = None ->
  root_path options w = inr rootPath ->
  all_relative rootPath walked ->
  w_create_errno w (contentFile options) = None ->
  main flags w
  = match w_create_errno w (summaryFile options) with
    | Some errno =>
      (1, with_stdout
            (w_stdout w +:+ options_echo options
             +:+ "Error generating summary file: "
             +:+ Error (PathError "open" (summaryFile options) errno) +:+ newline)
            w3)
    | None =>
      (0, with_stdout
            (w_stdout w +:+ options_echo options +:+ console_summary stats)
            (with_files (<[summaryFile options := summary_text stats]> (w_files w3))
                        w3))
    end.
Proof.
  intros options sorted stats w3 Hmissing Hwalk Hcs Hroot Hrel Hcc.
  rewrite main_run. unfold main_stages. fold options. rewrite Hmissing.
  rewrite walkDirectory_run. world_simpl. cbn [fst snd]. rewrite Hwalk.
  cbn [fst snd].
  match goal with
  | |- context [generateStructureFile ?x options ?v] => set (files := x); set (w1 := v)
  end.
  assert (Hread : (read_slice files w1).1 = walked).
  { unfold read_slice, files, w1. run_M. cbn [fst]. by rewrite lookup_insert_eq. }
  rewrite (generateStructureFile_run files options w1 rootPath Hcs Hroot).
  cbn [fst snd]. unfold sorted_files. rewrite Hread. fold sorted.
  pose proof (proj2 (rendering_succeeds rootPath walked) Hrel) as Hsorted.
  fold sorted in Hsorted. rewrite Hsorted.
  match goal with
  | |- context [generateContentFile files options ?v] => set (w2 := v)
  end.
  assert (Hread2 : (read_slice files w2).1 = sorted).
  { unfold read_slice, files, w2, w1. run_M. cbn [fst]. by rewrite lookup_insert_eq. }
  assert (Hcc2 : w_create_errno w2 (contentFile options) = None) by done.
  pose proof (generateContentFile_statistics_of files options w2 Hcc2) as Hstats.
  rewrite Hread2, (statistics_of_Permutation sorted walked) in Hstats
    by apply sort_Slice_Permutation.
  fold stats in Hstats.
  rewrite (generateContentFile_run _ _ _ Hcc2) in Hstats |- *.
  cbn [fst snd] in Hstats |- *. rewrite Hstats, Hread2, blocks_from_content_text.
  assert (Hw3 : with_files (<[contentFile options := content_text sorted]> (w_files w2)) w2
                = w3).
  { unfold w3, w2, w1, files, with_files, with_heap. world_simpl.
    by rewrite insert_insert_eq. }
  rewrite Hw3.
  destruct (w_create_errno w (summaryFile options)) as [errno|] eqn:Hsum.
  - rewrite (generateSummaryFile_fails stats options w3 errno) by done.
    cbn [fst snd]. f_equal. unfold w3 at 1. world_simpl.
    by rewrite app_assoc_str.
  - rewrite (generateSummaryFile_written stats options w3) by done.
    cbn [fst snd]. f_equal. world_simpl. unfold w3 at 1. world_simpl.
    by rewrite app_assoc_str.
Qed.

End MainRuns.

Section MainOutcomes.

Context `{GoLibrary}.





(** X17.  No roll-back: when the summary file cannot be made after the
    other stages went through, [main] prints the error after the echo of
    the options and exits with status 1, and the structure file and the
    content file stay as written, the content file with the blocks of the
    records in ascending path order. *)
Theorem main_summary_create_error (flags : Flags) (w : World)
    (walked : list FileInfo) (rootPath errno : string) :
  let options := options_of flags in
  w_missing w (flag_dir flags) = false ->
  filepath_Walk options (flag_dir flags) (w_tree w) [] = (walked, None) ->
  w_create_errno w (flag_structure flags) = None ->
  root_path options w = inr rootPath ->
  all_relative rootPath walked ->
  w_create_errno w (flag_content flags) = None ->
  w_create_errno w (flag_summary flags) = Some errno ->
  let run := main flags w in
  run.1 = 1
  /\ w_stdout run.2
     = w_stdout w +:+ options_echo options
       +:+ "Error generating summary file: open " +:+ flag_summary flags
       +:+ ": " +:+ errno +:+ newline
  /\ w_files run.2 !! flag_content flags
     = Some (content_text (sort_Slice walked path_less))
  /\ is_Some (w_files run.2 !! flag_structure flags).
Proof.
  intros options Hmissing Hwalk Hcs Hroot Hrel Hcc Hsum run. subst run.
  rewrite (main_to_summary flags w walked rootPath Hmissing Hwalk Hcs Hroot Hrel Hcc).
  fold options. cbn [rootDir structureFile contentFile summaryFile options_of options].
  rewrite Hsum. cbn [fst snd]. world_simpl. split_and!; [done| | |].
  - cbn [Error]. by rewrite ?app_assoc_str.
  - by rewrite lookup_insert_eq.
  - destruct (decide (flag_content flags = flag_structure flags)) as [->|Hne];
      [by rewrite lookup_insert_eq|rewrite lookup_insert_ne by done].
    by rewrite lookup_insert_eq.
Qed.

End MainOutcomes.

(** ** The root directory [.] on linux *)














(** ** Runs of the examples *)

Lemma walkDirectory_listing_witness :
  (read_slice Example2.files Example2.walked).1
  = kept Example2.options (rootDir Example2.options)
         (w_tree Example.world (rootDir Example2.options))
  /\ Forall (fun f => IsDir f = false) (read_slice Example2.files Example2.walked).1.
Proof.
  apply (walkDirectory_listing Example2.options Example.world Example2.walked
           Example2.files).
  vm_compute. reflexivity.
Defined.

Lemma includeFile_no_extension_witness :
  includeFile (options_of Example.flags) "/w/r/Makefile" = true
  <-> includeExts (options_of Example.flags) = [].
Proof.
  apply (includeFile_no_extension Example.flags "/w/r/Makefile").
  - intros [|c t]; [reflexivity|]. vm_compute. discriminate.
  - vm_compute. reflexivity.
Defined.

Lemma generateStructureFile_one_line_each_witness :
  exists (rootPath : string) (nodes : list Node),
    root_path Example2.options Example2.walked = inr rootPath
    /\ w_files Example2.rendered !! structureFile Example2.options
       = Some (structure_text node_line (filepath_Base rootPath) nodes)
    /\ length (filter is_file nodes) = length (read_slice Example2.files Example2.walked).1
    /\ length (filter node_is_dir nodes)
       = size (list_to_set ((read_slice Example2.files Example2.walked).1
                            ≫= dir_prefixes rootPath) : gset string).
Proof.
  apply (generateStructureFile_one_line_each Example2.files Example2.options
           Example2.walked Example2.rendered).
  vm_compute. reflexivity.
Defined.

Lemma generateStructureFile_permutation_witness :
  (generateStructureFile Example2.files Example2.options Example2.walked).1
  = (generateStructureFile Example2.files Example2.options Example2.rendered).1
  /\ w_files (generateStructureFile Example2.files Example2.options Example2.walked).2
       !! structureFile Example2.options
     = w_files (generateStructureFile Example2.files Example2.options Example2.rendered).2
         !! structureFile Example2.options.
Proof.
  apply (generateStructureFile_permutation Example2.files Example2.files
           Example2.options Example2.walked Example2.rendered "/w/r").
  - vm_compute. apply perm_swap.
  - vm_compute. reflexivity.
  - vm_compute. reflexivity.
  - vm_compute. reflexivity.
  - vm_compute. reflexivity.
Defined.

Lemma generateStructureFile_rel_error_witness :
  exists (g : FileInfo) (err' : error),
    g ∈ (read_slice Example3.dot_files Example3.dot_walked).1
    /\ filepath_Rel "/w" (Path g) = inl err'
    /\ (generateStructureFile Example3.dot_files (options_of default_flags)
          Example3.dot_walked).1 = Some err'.
Proof.
  apply (generateStructureFile_rel_error Example3.dot_files (options_of default_flags)
           Example3.dot_walked "/w"
           {| Path := "a.go"; IsDir := false; Size := 12; Content := "package main" |}
           (errorString "Rel: can't make a.go relative to /w")).
  - vm_compute. reflexivity.
  - vm_compute. reflexivity.
  - vm_compute. apply list_elem_of_here.
  - vm_compute. reflexivity.
Defined.

Lemma generateStructureFile_getwd_error_witness :
  let run := generateStructureFile Example3.dot_files (options_of default_flags)
               Example3.no_getwd in
  run.1 = Some (errorString "getwd: no such file or directory")
  /\ w_files run.2 !! structureFile (options_of default_flags)
     = Some ("Directory structure:" +:+ newline).
Proof.
  apply (generateStructureFile_getwd_error Example3.dot_files (options_of default_flags)
           Example3.no_getwd (errorString "getwd: no such file or directory")).
  - vm_compute. reflexivity.
  - vm_compute. reflexivity.
  - vm_compute. reflexivity.
Defined.

Lemma generateSummaryFile_text_witness :
  let stats := statistics_of (read_slice Example2.files Example2.rendered).1 in
  let run := generateSummaryFile stats Example2.options Example2.rendered in
  run.1 = None
  /\ w_files run.2 !! summaryFile Example2.options
     = Some ("Statistics Summary" +:+ newline
             +:+ "=================" +:+ newline
             +:+ "Total files processed: " +:+ fmt_d (TotalFiles stats) +:+ newline
             +:+ "Total file size: "
             +:+ fmt_f2 (float64_div (float64_of_int (TotalSize stats))
                                     (float64_of_int 1024))
             +:+ " KB ("
             +:+ fmt_f2 (float64_div (float64_of_int (TotalSize stats))
                                     (float64_of_int (1024 * 1024)))
             +:+ " MB)" +:+ newline
             +:+ "Average file size: "
             +:+ fmt_f2 (float64_div (AverageFileSize stats) (float64_of_int 1024))
             +:+ " KB" +:+ newline
             +:+ "Total tokens: " +:+ fmt_d (TotalTokens stats) +:+ newline
             +:+ "Average tokens per file: " +:+ fmt_f2 (AverageTokens stats)
             +:+ newline)
  /\ (forall name, name <> summaryFile Example2.options ->
                   w_files run.2 !! name = w_files Example2.rendered !! name).
Proof.
  intros stats.
  apply (generateSummaryFile_text stats Example2.options Example2.rendered).
  vm_compute. reflexivity.
Defined.

Lemma main_missing_root_witness :
  let run := main Example3.flags_nowhere Example.world in
  run.1 = 1
  /\ w_stdout run.2
     = w_stdout Example.world +:+ "Directory " +:+ "/nowhere"
       +:+ " does not exist" +:+ newline
  /\ w_files run.2 = w_files Example.world.
Proof.
  apply (main_missing_root Example3.flags_nowhere Example.world).
  vm_compute. reflexivity.
Defined.


Lemma main_summary_create_error_witness :
  let walked := (filepath_Walk (options_of Example.flags) "/w/r"
                   (w_tree Example3.summary_denied) []).1 in
  let run := main Example.flags Example3.summary_denied in
  run.1 = 1
  /\ w_stdout run.2
     = w_stdout Example3.summary_denied +:+ options_echo (options_of Example.flags)
       +:+ "Error generating summary file: open " +:+ "summary.txt"
       +:+ ": " +:+ "permission denied" +:+ newline
  /\ w_files run.2 !! "content.txt"
     = Some (content_text (sort_Slice walked path_less))
  /\ is_Some (w_files run.2 !! "tree.txt").
Proof.
  intros walked.
  apply (main_summary_create_error Example.flags Example3.summary_denied walked
           "/w/r" "permission denied").
  - vm_compute. reflexivity.
  - vm_compute. reflexivity.
  - vm_compute. reflexivity.
  - vm_compute. reflexivity.
  - apply all_relative_check. vm_compute. reflexivity.
  - vm_compute. reflexivity.
  - vm_compute. reflexivity.
Defined.

